(** * Garden: the [migrate] command's spec rewriters and the analytics handler

    A shallow embedding of

    - [garden-service/src/commands/migrate.ts]: [applyFlatStyle],
      [removeLocalOpenFaas], [removeEnvironmentDefaults], the body of the
      per-spec loop of [MigrateCommand.action], [readYaml] and [findRoot];
    - the analytics handler ([AnalyticsHandler]): [initialize], [track], the
      six [track...] wrappers, [processEvent] and [isSupportedEvent].

    Specs are the loosely typed documents that [yaml.safeLoadAll] yields, so
    they are modelled as JavaScript values: objects are finite maps from
    property names to values, arrays are lists.  The two mutating rewriters
    run in a state-and-exception monad whose state is the spec object they
    mutate in place. *)

From Stdlib Require Import Floats.PrimFloat Strings.Ascii Uint63.
From stdpp Require Import gmap strings list fin_maps pretty.

#[local] Set Warnings "-register-all".

(** ** JavaScript values *)

(** The values a parsed YAML document is made of, plus [undefined], which a
    read of a missing property yields.  A number is an IEEE-754 double, as in
    JavaScript.  Documents are trees: YAML anchors, which would make two
    places of a document share one object, are not modelled. *)
Inductive value : Type :=
  | VUndefined
  | VNull
  | VBool (b : bool)
  | VNum (x : float)
  | VStr (s : string)
  | VArr (l : list value)
  | VObj (m : gmap string value).

(** What a [throw] carries: a [TypeError] raised by the language itself (a
    property read on [null] or [undefined], a call of something that is not a
    function, a spread of something that is not iterable), or the
    [ConfigurationError] of [exceptions.ts] with the path it reports. *)
Inductive error : Type :=
  | TypeError
  | ConfigurationError (path : string).

Inductive outcome (A : Type) : Type :=
  | Ok (a : A)
  | Throw (e : error).
Arguments Ok {A} a.
Arguments Throw {A} e.

Definition bindO {A B} (o : outcome A) (k : A → outcome B) : outcome B :=
  match o with
  | Ok a => k a
  | Throw e => Throw e
  end.

Declare Scope js_scope.
Delimit Scope js_scope with js.
Notation "x <~ o ;; k" := (bindO o (fun x => k))
  (at level 20, o at level 99, k at level 200) : js_scope.
Open Scope js_scope.

(** [ToBoolean]: [undefined], [null], [false], [+0], [-0], [NaN] and the empty
    string are falsy, everything else (every array and object) is truthy. *)
Definition truthy (v : value) : bool :=
  match v with
  | VUndefined | VNull => false
  | VBool b => b
  | VNum x => negb (PrimFloat.eqb x 0%float) && PrimFloat.eqb x x
  | VStr s => negb (String.eqb s "")
  | VArr _ | VObj _ => true
  end.

(** [v === "lit"]: strict equality with a string literal. *)
Definition strictEqStr (v : value) (lit : string) : bool :=
  match v with
  | VStr s => String.eqb s lit
  | _ => false
  end.

(** [a || b] *)
Definition orElse (a b : value) : value := if truthy a then a else b.

(** [v.k], for the property names these modules read ([project], [module],
    [kind], [type], [environments], [providers], [name],
    [environmentDefaults], [varfile], [variables], [batchId], [command]):
    none of them is a property of a prototype, so the read is [undefined] on a number, a
    boolean, a string and an array, the own property on an object, and a
    [TypeError] on [null] and [undefined]. *)
Definition getProp (k : string) (v : value) : outcome value :=
  match v with
  | VUndefined | VNull => Throw TypeError
  | VObj m => Ok (default VUndefined (m !! k))
  | VBool _ | VNum _ | VStr _ | VArr _ => Ok VUndefined
  end.

(** The same read where it cannot throw; used to state properties. *)
Definition field (k : string) (v : value) : value :=
  match v with
  | VObj m => default VUndefined (m !! k)
  | _ => VUndefined
  end.

(** Does the object have the own property [k] (the [in] of a plain object)? *)
Definition hasKey (k : string) (v : value) : bool :=
  match v with
  | VObj m => bool_decide (is_Some (m !! k))
  | _ => false
  end.

(** The characters of a string, each as a string of its own (a string is
    taken as the sequence of its one-byte characters). *)
Fixpoint chars (s : string) : list value :=
  match s with
  | EmptyString => []
  | String c s' => VStr (String c EmptyString) :: chars s'
  end.

(** The own enumerable properties that an object spread [{...v}] copies: the
    fields of an object, the elements of an array and the characters of a
    string under their indices, nothing for the other values. *)
Definition indexed (l : list value) : gmap string value :=
  list_to_map (imap (λ i x, (pretty i, x)) l).

Definition ownProps (v : value) : gmap string value :=
  match v with
  | VObj m => m
  | VArr l => indexed l
  | VStr s => indexed (chars s)
  | VUndefined | VNull | VBool _ | VNum _ => ∅
  end.

(** [{...a, ...b}]: the later spread wins on a shared key ([∪] on maps prefers
    its left operand). *)
Definition spread2 (a b : value) : gmap string value := ownProps b ∪ ownProps a.

(** The elements an array spread [[...v]] takes from an iterable; a value
    that is not iterable raises a [TypeError]. *)
Definition iterate (v : value) : outcome (list value) :=
  match v with
  | VArr l => Ok l
  | VStr s => Ok (chars s)
  | VUndefined | VNull | VBool _ | VNum _ | VObj _ => Throw TypeError
  end.

(** [v.entries()], the pairs of an index and the element there: only an
    array has the method; on everything else the call
    raises a [TypeError] ([entries] is undefined, or an own property of a
    parsed document and so not a function). *)
Fixpoint entriesFrom (i : nat) (l : list value) : list (nat * value) :=
  match l with
  | [] => []
  | x :: l' => (i, x) :: entriesFrom (S i) l'
  end.

Definition entries (v : value) : outcome (list (nat * value)) :=
  match v with
  | VArr l => Ok (entriesFrom 0 l)
  | _ => Throw TypeError
  end.

(** In-place updates, as functions on the tree. *)
Definition setField (k : string) (x : value) (v : value) : value :=
  match v with
  | VObj m => VObj (<[k := x]> m)
  | _ => v
  end.

Definition deleteField (k : string) (v : value) : value :=
  match v with
  | VObj m => VObj (delete k m)
  | _ => v
  end.

Definition alterField (k : string) (f : value → value) (v : value) : value :=
  match v with
  | VObj m => VObj (alter f k m)
  | _ => v
  end.

Definition alterIndex (i : nat) (f : value → value) (v : value) : value :=
  match v with
  | VArr l => VArr (alter f i l)
  | _ => v
  end.

(** ** The monad of the mutating rewriters

    [removeLocalOpenFaas] and [removeEnvironmentDefaults] receive the spec
    object and mutate it.  A computation takes the current contents of that
    object and returns its outcome with the contents it leaves behind, also
    when it throws. *)
Definition M (A : Type) : Type := value → outcome A * value.

Definition ret {A} (a : A) : M A := λ spec, (Ok a, spec).

Definition bind {A B} (m : M A) (k : A → M B) : M B :=
  λ spec, match m spec with
          | (Ok a, spec') => k a spec'
          | (Throw e, spec') => (Throw e, spec')
          end.

Definition throw {A} (e : error) : M A := λ spec, (Throw e, spec).

Definition lift {A} (o : outcome A) : M A := λ spec, (o, spec).

Notation "x <- m ;; k" := (bind m (fun x => k))
  (at level 20, m at level 99, k at level 200) : js_scope.
Notation "m1 ;;; m2" := (bind m1 (fun _ => m2))
  (at level 100, m2 at level 200, right associativity) : js_scope.

(** [spec.k] *)
Definition readProp (k : string) : M value := λ spec, (getProp k spec, spec).

(** [spec.k1.k2] *)
Definition readProp2 (k1 k2 : string) : M value :=
  o <- readProp k1;; lift (getProp k2 o).

(** [spec.k = x].  Every assignment of the two rewriters is guarded by a
    truthy read of a property of [spec], so [spec] is an object there. *)
Definition assign (k : string) (x : value) : M unit :=
  λ spec, (Ok tt, setField k x spec).

(** [delete spec.k] *)
Definition deleteProp (k : string) : M unit :=
  λ spec, (Ok tt, deleteField k spec).

Definition modify (f : value → value) : M unit := λ spec, (Ok tt, f spec).

(** [for (const x of xs) body(x)] *)
Fixpoint forOf {A} (xs : list A) (body : A → M unit) : M unit :=
  match xs with
  | [] => ret tt
  | x :: xs' => body x ;;; forOf xs' body
  end.

(** ** migrate.ts *)

(** [applyFlatStyle]: convert to flat config style.  The object literals
    [{ kind: "Project", ...spec.project }] put [kind] first, so a [kind] of
    the wrapper overwrites it. *)
Definition applyFlatStyle (spec : value) : outcome value :=
  project <~ getProp "project" spec;;
  if truthy project then
    Ok (VObj (ownProps project ∪ {["kind" := VStr "Project"]}))
  else
    module <~ getProp "module" spec;;
    if truthy module then
      Ok (VObj (ownProps module ∪ {["kind" := VStr "Module"]}))
    else Ok spec.

(** [spec.environments[envIdx].providers[providerIdx].name = "openfaas"]; the
    path exists whenever the loops of [removeLocalOpenFaas] reach the
    assignment. *)
Definition assignEnvProviderName (envIdx providerIdx : nat) : M unit :=
  modify (alterField "environments"
            (alterIndex envIdx
               (alterField "providers"
                  (alterIndex providerIdx (setField "name" (VStr "openfaas")))))).

(** [spec.providers[providerIdx].name = "openfaas"] *)
Definition assignProviderName (providerIdx : nat) : M unit :=
  modify (alterField "providers"
            (alterIndex providerIdx (setField "name" (VStr "openfaas")))).

(** The loop over [providers.entries()] that both places of
    [removeLocalOpenFaas] run; [assignAt] is the assignment to the name of
    the provider at an index, and [renameBody] the body of the loop. *)
Definition renameBody (assignAt : nat → M unit) : nat * value → M unit :=
  λ '(providerIdx, provider),
    name <- lift (getProp "name" provider);;
    if strictEqStr name "local-openfaas" then assignAt providerIdx else ret tt.

Definition renameLoop (providers : value) (assignAt : nat → M unit) : M unit :=
  es <- lift (entries providers);;
  forOf es (renameBody assignAt).

(** The body of the loop over [spec.environments.entries()]. *)
Definition environmentBody : nat * value → M unit :=
  λ '(envIdx, env),
    providers <- lift (getProp "providers" env);;
    if negb (truthy providers) then ret tt
    else renameLoop providers (assignEnvProviderName envIdx).

(** [removeLocalOpenFaas]: change [local-openfaas] provider and module types
    to [openfaas]; mutates [spec].  The iterators hand out the elements that
    are in the arrays when the loops start; the loops only write to the
    [name] of the provider they are at, so these are the elements they
    would read from the spec at each step. *)
Definition removeLocalOpenFaas : M unit :=
  kind <- readProp "kind";;
  let isProject := strictEqStr kind "Project" in
  type <- readProp "type";;
  (if strictEqStr type "local-openfaas"
   then assign "type" (VStr "openfaas") else ret tt) ;;;
  if isProject then
    environments <- readProp "environments";;
    envs <- lift (entries environments);;
    forOf envs environmentBody ;;;
    providers <- readProp "providers";;
    if truthy providers then renameLoop providers assignProviderName
    else ret tt
  else ret tt.

(** [removeEnvironmentDefaults]: remove the [environmentDefaults] field and
    map its contents to their respective top-level keys. *)
Definition removeEnvironmentDefaults (path : string) : M unit :=
  environmentDefaults <- readProp "environmentDefaults";;
  if truthy environmentDefaults then
    defaultVarfile <- readProp2 "environmentDefaults" "varfile";;
    (if truthy defaultVarfile then
       varfile <- readProp "varfile";;
       if truthy varfile then throw (ConfigurationError path)
       else
         v <- readProp2 "environmentDefaults" "varfile";;
         assign "varfile" v
     else ret tt) ;;;
    defaultVariables <- readProp2 "environmentDefaults" "variables";;
    (if truthy defaultVariables then
       variables <- readProp "variables";;
       merged <- readProp2 "environmentDefaults" "variables";;
       assign "variables"
         (VObj (spread2 (orElse variables (VObj ∅)) merged))
     else ret tt) ;;;
    defaultProviders <- readProp2 "environmentDefaults" "providers";;
    (if truthy defaultProviders then
       providers <- readProp "providers";;
       own <- lift (iterate (orElse providers (VArr [])));;
       defaults <- readProp2 "environmentDefaults" "providers";;
       hoisted <- lift (iterate defaults);;
       assign "providers" (VArr (own ++ hoisted))
     else ret tt) ;;;
    deleteProp "environmentDefaults"
  else ret tt.

(** The body of the loop over [rawSpecs] in [MigrateCommand.action]: the spec
    that is pushed to [updatedSpecs], or the exception that ends the
    command. *)
Definition migrateSpec (configPath : string) (spec : value) : outcome value :=
  spec' <~ applyFlatStyle spec;;
  match (removeLocalOpenFaas ;;; removeEnvironmentDefaults configPath) spec' with
  | (Ok _, migrated) => Ok migrated
  | (Throw e, _) => Throw e
  end.

(** ** The search for the project root *)

(** Node's [path] module on POSIX, as far as [findRoot] uses it. *)
Definition isAbsolute (p : string) : bool :=
  match p with
  | String "/"%char _ => true
  | _ => false
  end.

(** [parse(p).root]: ["/"] for an absolute path, the empty string for a
    relative one. *)
Definition parseRoot (p : string) : string :=
  if isAbsolute p then "/" else "".

(** The segments between the slashes of a path. *)
Fixpoint segments (p : string) : list string :=
  match p with
  | EmptyString => [EmptyString]
  | String c p' =>
      if Ascii.eqb c "/"%char then EmptyString :: segments p'
      else match segments p' with
           | seg :: rest => String c seg :: rest
           | [] => [String c EmptyString]
           end
  end.

(** [normalizeString]: drop empty and ["."] segments, let [".."] remove the
    segment before it; [stack] holds the segments kept so far, last first. *)
Definition normalizeStep (allowAboveRoot : bool) (stack : list string)
    (seg : string) : list string :=
  if String.eqb seg "" || String.eqb seg "." then stack
  else if String.eqb seg ".." then
    match stack with
    | top :: rest =>
        if String.eqb top ".." then seg :: stack else rest
    | [] => if allowAboveRoot then [seg] else []
    end
  else seg :: stack.

Definition joinSegments (segs : list string) : string :=
  match segs with
  | [] => ""
  | seg :: rest => fold_left (λ acc s, acc +:+ "/" +:+ s) rest seg
  end.

Definition normalizeString (p : string) (allowAboveRoot : bool) : string :=
  joinSegments (rev (fold_left (normalizeStep allowAboveRoot) (segments p) [])).

(** [resolve(...args)]: the arguments are taken from the right until an
    absolute one is met, the working directory standing before the first. *)
Fixpoint resolvePrefix (parts : list string) (resolved : string) : string * bool :=
  match parts with
  | [] => (resolved, false)
  | p :: parts' =>
      if String.eqb p "" then resolvePrefix parts' resolved
      else if isAbsolute p then (p +:+ "/" +:+ resolved, true)
      else resolvePrefix parts' (p +:+ "/" +:+ resolved)
  end.

Definition resolve (cwd : string) (args : list string) : string :=
  let '(resolvedPath, resolvedAbsolute) := resolvePrefix (rev args ++ [cwd]) "" in
  let normalized := normalizeString resolvedPath (negb resolvedAbsolute) in
  if resolvedAbsolute then "/" +:+ normalized
  else if String.eqb normalized "" then "." else normalized.

(** What [findRoot] sees of the machine: the working directory of the
    process, [getConfigFilePath] of [util/fs] (not part of these sources,
    taken as given), the files that can be read and the documents
    [yaml.safeLoadAll] finds in a text ([None] where it throws). *)
Record Host : Type := {
  cwd : string;
  getConfigFilePath : string → string;
  readFile : string → option string;
  safeLoadAll : string → option (list value);
}.

(** [readYaml]: read the contents of a YAML file; empty resources are
    ignored.  A file that cannot be read rejects with the error of
    [readFile], a text that cannot be parsed with a [ConfigurationError]. *)
Inductive readFailure : Type :=
  | ReadFileFailed
  | NotValidYaml.

Definition readYaml (host : Host) (path : string) : readFailure + list value :=
  match readFile host path with
  | None => inl ReadFileFailed
  | Some fileData =>
      match safeLoadAll host fileData with
      | None => inl NotValidYaml
      | Some rawSpecs => inr (filter (λ spec, truthy spec = true) rawSpecs)
      end
  end.

(** [(spec) => !!spec.project || spec.kind === "Project"] *)
Definition isProjectSpec (spec : value) : outcome bool :=
  project <~ getProp "project" spec;;
  if truthy project then Ok true
  else kind <~ getProp "kind" spec;; Ok (strictEqStr kind "Project").

(** [rawSpecs.find(pred)] *)
Fixpoint findSpec (pred : value → outcome bool) (specs : list value) : outcome value :=
  match specs with
  | [] => Ok VUndefined
  | spec :: specs' =>
      found <~ pred spec;;
      if found then Ok spec else findSpec pred specs'
  end.

(** The [try] block of [findRoot]: whatever is thrown inside leaves
    [isProjectRoot] false. *)
Definition isProjectRootAt (host : Host) (path : string) : bool :=
  match readYaml host (getConfigFilePath host path) with
  | inl _ => false
  | inr rawSpecs =>
      match findSpec isProjectSpec rawSpecs with
      | Ok found => truthy found
      | Throw _ => false
      end
  end.

(** [findRoot]; [fuel] bounds the depth of the recursion, and [None] means
    it was used up.  [Some None] is the [null] result. *)
Fixpoint findRoot (host : Host) (fuel : nat) (path : string) : option (option string) :=
  match fuel with
  | 0 => None
  | S fuel' =>
      if isProjectRootAt host path then Some (Some path)
      else if truthy (VStr (parseRoot path)) then Some None
      else findRoot host fuel' (resolve (cwd host) [path; ".."])
  end.

(** What the doc comment and the error message of the command describe:
    the chain from a directory upward through its parents to the root. *)
Definition parentDir (host : Host) (path : string) : string :=
  resolve (cwd host) [path; ".."].

Fixpoint ancestors (host : Host) (depth : nat) (path : string) : list string :=
  match depth with
  | 0 => [path]
  | S depth' => path :: ancestors host depth' (parentDir host path)
  end.

(** ** The analytics handler *)

Record SystemInfo : Type := {
  gardenVersion : string;
  platform : string;
  platformVersion : string;
}.

(** [AnalyticsGlobalConfig] of the config store, and what the store holds of
    it: a field that was never written is absent. *)
Record AnalyticsGlobalConfig : Type := {
  userId : string;
  firstRun : bool;
  optedIn : bool;
  showOptInMessage : bool;
}.

Record StoredAnalyticsConfig : Type := {
  storedUserId : option string;
  storedFirstRun : option bool;
  storedOptedIn : option bool;
  storedShowOptInMessage : option bool;
}.

(** The members of [AnalyticsType] that the handler uses. *)
Inductive AnalyticsType : Type :=
  | COMMAND
  | TASK
  | CALL_API
  | MODULE_CONFIG_ERROR
  | PROJECT_CONFIG_ERROR
  | VALIDATION_ERROR.

Record AnalyticsEvent : Type := {
  type : AnalyticsType;
  properties : gmap string value;
}.

Record SegmentEvent : Type := {
  segmentUserId : string;
  event : AnalyticsType;
  segmentProperties : gmap string value;
}.

(** The fields of [AnalyticsHandler]; [segment] says whether the Segment
    client is there (the constructor always creates it). *)
Record AnalyticsHandler : Type := {
  segment : bool;
  globalConfig : AnalyticsGlobalConfig;
  projectId : string;
  systemConfig : SystemInfo;
  isCI : bool;
  sessionId : string;
  projectMetadata : value;
}.

(** A module of the config graph, as far as the project metadata reads it. *)
Record ModuleInfo : Type := {
  moduleType : string;
  testConfigs : list value;
}.

(** What [initialize] asks of its surroundings, in the order it asks: the
    analytics section of the global config store, the two answers of
    [vcs.getOriginName()], a fresh [uuidv4()], and the modules, tasks and
    services of the config graph. *)
Record InitInputs : Type := {
  globalConfAnalytics : StoredAnalyticsConfig;
  originNameFirst : value;
  originNameSecond : value;
  freshUserId : string;
  graphModules : list ModuleInfo;
  graphTasks : list value;
  graphServices : list value;
}.

(** A subscription on the event bus: [onAny] hears every event, [on] the
    events of one name. *)
Inductive Subscription : Type :=
  | OnAny
  | On (name : string).

(** What [initialize] does besides building the handler. *)
Record InitEffects : Type := {
  warningPrinted : bool;
  configWritten : option AnalyticsGlobalConfig;
  identified : option string;
  subscriptions : list Subscription;
}.

Definition systemInfoValue (s : SystemInfo) : value :=
  VObj (<["gardenVersion" := VStr (gardenVersion s)]>
       (<["platform" := VStr (platform s)]>
       (<["platformVersion" := VStr (platformVersion s)]> ∅))).

(** [{ ...this.globalConfig, ...globalConf.analytics }] *)
Definition mergeGlobalConfig (c : AnalyticsGlobalConfig) (s : StoredAnalyticsConfig)
    : AnalyticsGlobalConfig :=
  {| userId := default (userId c) (storedUserId s);
     firstRun := default (firstRun c) (storedFirstRun s);
     optedIn := default (optedIn c) (storedOptedIn s);
     showOptInMessage := default (showOptInMessage c) (storedShowOptInMessage s) |}.

(** [[...new Set(types)]]: first occurrences, in order. *)
Fixpoint uniqueStrings (seen : list string) (l : list string) : list string :=
  match l with
  | [] => []
  | s :: l' =>
      if bool_decide (s ∈ seen) then uniqueStrings seen l'
      else s :: uniqueStrings (s :: seen) l'
  end.

Definition numValue (n : nat) : value := VNum (PrimFloat.of_uint63 (Uint63.of_Z (Z.of_nat n))).

Section Analytics.

(** [hasha(input, { algorithm: "sha256" })] of the [hasha] package: the
    digest of a string, an exception on an input it does not take. *)
Variable hasha : value → outcome string.

(** The handler as the private constructor leaves it. *)
Definition newHandler (system : SystemInfo) (ci : bool) (session : string)
    : AnalyticsHandler :=
  {| segment := true;
     globalConfig := {| userId := ""; firstRun := true; optedIn := false;
                        showOptInMessage := true |};
     projectId := "";
     systemConfig := system;
     isCI := ci;
     sessionId := session;
     projectMetadata := VUndefined |}.

Definition computeProjectMetadata (i : InitInputs) : value :=
  let modules := graphModules i in
  let modulesTypes := uniqueStrings [] (moduleType <$> modules) in
  let numberOfTests := length (concat (testConfigs <$> modules)) in
  VObj (<["numberOfModules" := numValue (length modules)]>
       (<["modulesTypes" := VArr (VStr <$> modulesTypes)]>
       (<["numberOfTasks" := numValue (length (graphTasks i))]>
       (<["numberOfServices" := numValue (length (graphServices i))]>
       (<["numberOfTests" := numValue numberOfTests]> ∅))))).

(** [initialize] *)
Definition initialize (this : AnalyticsHandler) (i : InitInputs)
    : outcome (AnalyticsHandler * InitEffects) :=
  let globalConfig1 := mergeGlobalConfig (globalConfig this) (globalConfAnalytics i) in
  newProjectId <~
    (if truthy (originNameFirst i) then hasha (originNameSecond i)
     else Ok "unset");;
  let prompt := firstRun globalConfig1 || showOptInMessage globalConfig1 in
  let globalConfig2 :=
    if prompt then
      {| firstRun := false;
         userId := if truthy (VStr (userId globalConfig1))
                   then userId globalConfig1 else freshUserId i;
         optedIn := true;
         showOptInMessage := false |}
    else globalConfig1 in
  Ok ({| segment := segment this;
         globalConfig := globalConfig2;
         projectId := newProjectId;
         systemConfig := systemConfig this;
         isCI := isCI this;
         sessionId := sessionId this;
         projectMetadata := computeProjectMetadata i |},
      {| warningPrinted := prompt && negb (isCI this);
         configWritten := if prompt then Some globalConfig2 else None;
         identified := if prompt && segment this && optedIn globalConfig2
                       then Some (userId globalConfig2) else None;
         subscriptions := [OnAny] |}).

Definition hasOptedIn (this : AnalyticsHandler) : bool :=
  optedIn (globalConfig this) || false.

Definition getBasicAnalyticsProperties (this : AnalyticsHandler) : gmap string value :=
  <["projectId" := VStr (projectId this)]>
  (<["system" := systemInfoValue (systemConfig this)]>
  (<["isCI" := VBool (isCI this)]>
  (<["sessionId" := VStr (sessionId this)]>
  (<["projectMetadata" := projectMetadata this]> ∅)))).

(** [track]: the event handed to [segment.track], if one is. *)
Definition track (this : AnalyticsHandler) (ev : AnalyticsEvent) : option SegmentEvent :=
  if segment this && hasOptedIn this then
    Some {| segmentUserId := userId (globalConfig this);
            event := type ev;
            segmentProperties := properties ev ∪ getBasicAnalyticsProperties this |}
  else None.

Definition trackCommand (this : AnalyticsHandler) (commandName : value) :=
  track this
    {| type := COMMAND;
       properties := getBasicAnalyticsProperties this ∪ {["name" := commandName]} |}.

(** [trackTask]: the task name is hashed since it could contain sensitive
    information.  The object literal lists [batchId], [taskName],
    [taskType], the basic properties, then [taskStatus]. *)
Definition trackTask (this : AnalyticsHandler)
    (batchId taskName taskType taskStatus : value) : outcome (option SegmentEvent) :=
  hashedTaskName <~ hasha taskName;;
  let properties :=
    <["taskStatus" := taskStatus]>
      (getBasicAnalyticsProperties this ∪
         (<["taskType" := taskType]>
         (<["taskName" := VStr hashedTaskName]>
         (<["batchId" := batchId]> ∅)))) in
  Ok (track this {| type := TASK; properties := properties |}).

Definition trackApi (this : AnalyticsHandler) (method : string) (path : value)
    (body : value) : outcome (option SegmentEvent) :=
  command <~ getProp "command" body;;
  let properties :=
    getBasicAnalyticsProperties this ∪
      (<["command" := command]>
      (<["path" := path]>
      (<["name" := VStr (method +:+ " request")]> ∅))) in
  Ok (track this {| type := CALL_API; properties := properties |}).

Definition trackModuleConfigError (this : AnalyticsHandler) (moduleType : value) :=
  track this
    {| type := MODULE_CONFIG_ERROR;
       properties := <["moduleType" := moduleType]> (getBasicAnalyticsProperties this) |}.

Definition trackProjectConfigError (this : AnalyticsHandler) (fields : value) :=
  track this
    {| type := PROJECT_CONFIG_ERROR;
       properties := <["fields" := fields]> (getBasicAnalyticsProperties this) |}.

Definition trackConfigValidationError (this : AnalyticsHandler) (fields : value) :=
  track this
    {| type := VALIDATION_ERROR;
       properties := <["fields" := fields]> (getBasicAnalyticsProperties this) |}.

(** [isSupportedEvent]: [supportedEventsKeys.includes(name)] *)
Definition supportedEventsKeys : list string :=
  ["taskPending"; "taskProcessing"; "taskComplete"; "taskError"].

Definition isSupportedEvent (name : string) (_event : value) : bool :=
  existsb (String.eqb name) supportedEventsKeys.

(** [processEvent]: what the listener given to [onAny] runs. *)
Definition processEvent (this : AnalyticsHandler) (name : string) (payload : value)
    : outcome (option SegmentEvent) :=
  if isSupportedEvent name payload then
    batchId <~ getProp "batchId" payload;;
    taskName <~ getProp "name" payload;;
    taskType <~ getProp "type" payload;;
    trackTask this batchId taskName taskType (VStr name)
  else Ok None.

(** Does a subscription hear an event of this name? *)
Definition hears (s : Subscription) (name : string) : bool :=
  match s with
  | OnAny => true
  | On n => String.eqb n name
  end.

(** An event emitted on the bus, as the handler's subscriptions see it:
    the listener runs once per subscription that hears the name. *)
Fixpoint deliver (this : AnalyticsHandler) (subs : list Subscription)
    (name : string) (payload : value) : outcome (list SegmentEvent) :=
  match subs with
  | [] => Ok []
  | s :: subs' =>
      sent <~ (if hears s name then processEvent this name payload else Ok None);;
      rest <~ deliver this subs' name payload;;
      Ok (option_list sent ++ rest)
  end.

(** Every way the handler has of sending an event. *)
Inductive TrackCall : Type :=
  | CallCommand (commandName : value)
  | CallTask (batchId taskName taskType taskStatus : value)
  | CallApi (method : string) (path body : value)
  | CallModuleConfigError (moduleType : value)
  | CallProjectConfigError (fields : value)
  | CallConfigValidationError (fields : value).

Definition perform (this : AnalyticsHandler) (c : TrackCall) : outcome (option SegmentEvent) :=
  match c with
  | CallCommand n => Ok (trackCommand this n)
  | CallTask b n t s => trackTask this b n t s
  | CallApi m p b => trackApi this m p b
  | CallModuleConfigError t => Ok (trackModuleConfigError this t)
  | CallProjectConfigError f => Ok (trackProjectConfigError this f)
  | CallConfigValidationError f => Ok (trackConfigValidationError this f)
  end.

End Analytics.

(** ** What the rewriters are compared with *)

(** Neither [null] nor [undefined]: a value whose properties can be read. *)
Definition isNullish (v : value) : bool :=
  match v with
  | VUndefined | VNull => true
  | _ => false
  end.

(** Does the merge of the provider lists in [removeEnvironmentDefaults] run
    through?  It is reached only if [environmentDefaults.providers] is
    truthy, and then both operands of the array spread must be iterable. *)
Definition providersMergeable (spec : value) : bool :=
  let defaults := field "providers" (field "environmentDefaults" spec) in
  negb (truthy defaults)
  || (match iterate (orElse (field "providers" spec) (VArr [])) with
      | Ok _ => true
      | Throw _ => false
      end
      && match iterate defaults with
         | Ok _ => true
         | Throw _ => false
         end).

(** The varfile conflict that [removeEnvironmentDefaults] refuses. *)
Definition varfileConflict (spec : value) : bool :=
  truthy (field "varfile" (field "environmentDefaults" spec))
  && truthy (field "varfile" spec).

(** The state after [removeEnvironmentDefaults] has run through on an object
    whose [environmentDefaults] is truthy, field by field. *)
Definition hoistVarfile (spec : value) : value :=
  let v := field "varfile" (field "environmentDefaults" spec) in
  if truthy v then setField "varfile" v spec else spec.

Definition hoistVariables (spec : value) : value :=
  let v := field "variables" (field "environmentDefaults" spec) in
  if truthy v then
    setField "variables" (VObj (spread2 (orElse (field "variables" spec) (VObj ∅)) v)) spec
  else spec.

Definition hoistProviders (spec : value) : value :=
  let v := field "providers" (field "environmentDefaults" spec) in
  if truthy v then
    match iterate (orElse (field "providers" spec) (VArr [])), iterate v with
    | Ok own, Ok hoisted => setField "providers" (VArr (own ++ hoisted)) spec
    | _, _ => spec
    end
  else spec.

Definition hoisted (spec : value) : value :=
  deleteField "environmentDefaults"
    (hoistProviders (hoistVariables (hoistVarfile spec))).


(** How many providers of a list carry a given name. *)
Definition providersNamed (name : string) (providers : list value) : nat :=
  length (filter (λ p, strictEqStr (field "name" p) name = true) providers).

(** ** Example documents *)

Definition obj (fields : list (string * value)) : value := VObj (list_to_map fields).

Definition provider (name : string) : value := obj [("name", VStr name)].

(** A v0.10 project in flat style that still uses [environmentDefaults]. *)
Definition legacyProject : value :=
  obj [("kind", VStr "Project");
       ("name", VStr "demo");
       ("environmentDefaults",
        obj [("varfile", VStr "defaults.env");
             ("variables", obj [("region", VStr "eu"); ("tier", VStr "dev")]);
             ("providers", VArr [provider "container"; provider "local-kubernetes"])]);
       ("environments",
        VArr [obj [("name", VStr "local");
                   ("providers", VArr [provider "local-kubernetes";
                                       provider "local-openfaas"])];
              obj [("name", VStr "staging")]]);
       ("providers", VArr [provider "local-openfaas"; provider "container"]);
       ("variables", obj [("tier", VStr "prod"); ("owner", VStr "ops")])].

(** The same project with a [varfile] of its own. *)
Definition conflictingProject : value :=
  setField "varfile" (VStr "project.env") legacyProject.

Definition isObject (v : value) : bool :=
  match v with
  | VObj _ => true
  | _ => false
  end.

(** A [project] wrapper that carries a [kind] of its own, and a spec whose
    [project] key holds nothing. *)
Definition wrapperWithKind : value :=
  obj [("project", obj [("kind", VStr "Module"); ("name", VStr "demo")])].

Definition emptyWrapper : value :=
  obj [("project", VNull); ("name", VStr "demo")].

(** A v0.10 project in wrapper style, and one in flat style, that leave
    [environments] out. *)
Definition wrappedProject : value :=
  obj [("project",
        obj [("name", VStr "demo");
             ("providers", VArr [provider "local-openfaas"])])].

Definition bareProject : value :=
  obj [("kind", VStr "Project");
       ("name", VStr "demo");
       ("providers", VArr [provider "local-openfaas"])].

(** A handler that has opted in, a task event of the bus, and a digest
    function for the examples (it only marks its input as digested; the
    theorems hold for every [hasha]). *)
Definition exampleHandler : AnalyticsHandler :=
  {| segment := true;
     globalConfig := {| userId := "u-1"; firstRun := false; optedIn := true;
                        showOptInMessage := false |};
     projectId := "unset";
     systemConfig := {| gardenVersion := "0.10.16"; platform := "linux";
                        platformVersion := "5.4" |};
     isCI := false;
     sessionId := "s-1";
     projectMetadata := VObj ∅ |}.

Definition exampleTaskPayload : value :=
  obj [("batchId", VStr "b-1"); ("name", VStr "build.api"); ("type", VStr "build");
       ("key", VStr "build.api")].

Definition markDigest (input : value) : outcome string :=
  match input with
  | VStr s => Ok ("sha256:" +:+ s)
  | _ => Throw TypeError
  end.

(** The inputs of [initialize] with other answers of [vcs.getOriginName()]. *)
Definition withOriginNames (i : InitInputs) (first second : value) : InitInputs :=
  {| globalConfAnalytics := globalConfAnalytics i;
     originNameFirst := first;
     originNameSecond := second;
     freshUserId := freshUserId i;
     graphModules := graphModules i;
     graphTasks := graphTasks i;
     graphServices := graphServices i |}.

Definition exampleInputs : InitInputs :=
  {| globalConfAnalytics := {| storedUserId := None; storedFirstRun := None;
                               storedOptedIn := None; storedShowOptInMessage := None |};
     originNameFirst := VStr "git@github.com:acme/shop.git";
     originNameSecond := VStr "git@github.com:acme/shop.git";
     freshUserId := "u-1";
     graphModules := [ {| moduleType := "container"; testConfigs := [VStr "unit"] |};
                       {| moduleType := "container"; testConfigs := [] |} ];
     graphTasks := [];
     graphServices := [VStr "api"] |}.

(** A machine with the project [/work/shop] and its module [/work/shop/api],
    the command being run inside the module. *)
Definition projectYaml : string := "kind: Project".
Definition moduleYaml : string := "kind: Module".

Definition exampleHost : Host :=
  {| cwd := "/work/shop/api";
     getConfigFilePath := λ path, path +:+ "/garden.yml";
     readFile := λ path,
       if String.eqb path "/work/shop/garden.yml" then Some projectYaml
       else if String.eqb path "/work/shop/api/garden.yml" then Some moduleYaml
       else None;
     safeLoadAll := λ text,
       if String.eqb text projectYaml then
         Some [obj [("kind", VStr "Project"); ("name", VStr "shop")]]
       else if String.eqb text moduleYaml then
         Some [obj [("kind", VStr "Module"); ("name", VStr "api")]]
       else None |}.

(** ** What [removeLocalOpenFaas] is compared with

    The rename as a function on the tree: a provider named
    [local-openfaas] gets the name [openfaas], every other provider and
    every other field stays. *)
Definition renamedProvider (p : value) : value :=
  if strictEqStr (field "name" p) "local-openfaas"
  then setField "name" (VStr "openfaas") p else p.

Definition mapArray (f : value → value) (v : value) : value :=
  match v with
  | VArr l => VArr (f <$> l)
  | _ => v
  end.

Definition renamedProviders : value → value := mapArray renamedProvider.

Definition renamedEnvironment (env : value) : value :=
  alterField "providers" renamedProviders env.

Definition renamedType (spec : value) : value :=
  if strictEqStr (field "type" spec) "local-openfaas"
  then setField "type" (VStr "openfaas") spec else spec.

Definition renamedSpec (spec : value) : value :=
  if strictEqStr (field "kind" spec) "Project" then
    alterField "providers" renamedProviders
      (alterField "environments" (mapArray renamedEnvironment) (renamedType spec))
  else renamedType spec.

(** The shapes on which the loops of [removeLocalOpenFaas] run through: a
    [providers] field is missing (falsy) or a list without [null] entries,
    and [environments] is a list of such environments. *)
Definition providerListOk (providers : value) : bool :=
  match providers with
  | VArr l => forallb (λ p, negb (isNullish p)) l
  | _ => false
  end.

Definition providersOk (providers : value) : bool :=
  negb (truthy providers) || providerListOk providers.

Definition environmentOk (env : value) : bool :=
  negb (isNullish env) && providersOk (field "providers" env).

Definition environmentsOk (environments : value) : bool :=
  match environments with
  | VArr l => forallb environmentOk l
  | _ => false
  end.

Definition renameCompletes (spec : value) : bool :=
  negb (isNullish spec)
  && (negb (strictEqStr (field "kind" spec) "Project")
      || environmentsOk (field "environments" spec)
         && providersOk (field "providers" spec)).

(** The assignments the loops of [removeLocalOpenFaas] make, composed in the
    order in which they are made: [renameFrom i l] is what the loop over the
    entries [(i, p0), (i + 1, p1), ...] does to the providers array, and
    [renameEnvironmentsFrom] what the loop over the environments does to the
    environments array. *)
Definition renameStep (i : nat) (p : value) : value → value :=
  if strictEqStr (field "name" p) "local-openfaas"
  then alterIndex i (setField "name" (VStr "openfaas")) else id.

Fixpoint renameFrom (i : nat) (l : list value) : value → value :=
  match l with
  | [] => id
  | p :: l' => renameFrom (S i) l' ∘ renameStep i p
  end.

Definition renameAll (providers : value) : value → value :=
  match providers with
  | VArr l => renameFrom 0 l
  | _ => id
  end.

Definition renameEnvironmentStep (i : nat) (env : value) : value → value :=
  if truthy (field "providers" env)
  then alterIndex i (alterField "providers" (renameAll (field "providers" env)))
  else id.

Fixpoint renameEnvironmentsFrom (i : nat) (envs : list value) : value → value :=
  match envs with
  | [] => id
  | env :: envs' => renameEnvironmentsFrom (S i) envs' ∘ renameEnvironmentStep i env
  end.

(** The place in the spec of the providers array of the environment at an
    index: [atEnvironment envIdx g] applies [g] there. *)
Definition atEnvironment (envIdx : nat) (g : value → value) : value → value :=
  alterField "environments" (alterIndex envIdx (alterField "providers" g)).

(** A provider the rename has nothing to do on, and the shapes made of such
    providers: what a spec looks like once the rename has run. *)
Definition settledProvider (p : value) : bool :=
  negb (isNullish p) && negb (strictEqStr (field "name" p) "local-openfaas").

Definition settledProviders (providers : value) : bool :=
  negb (truthy providers)
  || match providers with
     | VArr l => forallb settledProvider l
     | _ => false
     end.

Definition settledEnvironment (env : value) : bool :=
  negb (isNullish env) && settledProviders (field "providers" env).

Definition settledEnvironments (environments : value) : bool :=
  match environments with
  | VArr l => forallb settledEnvironment l
  | _ => false
  end.

Definition settledSpec (spec : value) : bool :=
  negb (isNullish spec)
  && negb (strictEqStr (field "type" spec) "local-openfaas")
  && (negb (strictEqStr (field "kind" spec) "Project")
      || settledEnvironments (field "environments" spec)
         && settledProviders (field "providers" spec)).

(** For a project: the providers that [removeEnvironmentDefaults] hoists
    from [environmentDefaults] are settled.  [removeLocalOpenFaas] runs
    before them and does not look at them. *)
Definition hoistedProvidersSettled (spec : value) : bool :=
  negb (strictEqStr (field "kind" spec) "Project")
  || match iterate (field "providers" (field "environmentDefaults" spec)) with
     | Ok l => forallb settledProvider l
     | Throw _ => true
     end.

(** A [module] wrapper around another one, and a project whose defaults
    bring a [local-openfaas] provider. *)
Definition nestedWrapper : value :=
  obj [("module", obj [("module", obj [("name", VStr "demo")])])].

Definition projectWithLegacyDefault : value :=
  obj [("kind", VStr "Project");
       ("name", VStr "demo");
       ("environments", VArr [obj [("name", VStr "local")]]);
       ("environmentDefaults",
        obj [("providers", VArr [provider "local-openfaas"])])].

(** * More of the analytics handler *)

(** What the handler writes to the global config store: the whole analytics
    section ([initialize]) or its [optedIn] key ([setAnalyticsOptIn]). *)
Inductive StoreWrite : Type :=
  | WriteAnalytics (config : AnalyticsGlobalConfig)
  | WriteOptedIn (isOptedIn : bool).

(** [setAnalyticsOptIn]: sets the [optedIn] property of the handler and of
    the global config store. *)
Definition setAnalyticsOptIn (this : AnalyticsHandler) (isOptedIn : bool)
    : AnalyticsHandler * StoreWrite :=
  ({| segment := segment this;
      globalConfig := {| userId := userId (globalConfig this);
                         firstRun := firstRun (globalConfig this);
                         optedIn := isOptedIn;
                         showOptInMessage := showOptInMessage (globalConfig this) |};
      projectId := projectId this;
      systemConfig := systemConfig this;
      isCI := isCI this;
      sessionId := sessionId this;
      projectMetadata := projectMetadata this |},
   WriteOptedIn isOptedIn).

(** The static [AnalyticsHandler.instance] is [None] until [init] has set
    it. *)
Definition getInstance (instance : option AnalyticsHandler) : string + AnalyticsHandler :=
  match instance with
  | None => inl "Analytics not initialized. Init first"
  | Some handler => inr handler
  end.

(** [init]: the handler it returns, what [initialize] did if it ran, and the
    static instance afterwards.  [system], [ci] and [session] are what the
    constructor reads from the machine. *)
Definition init (hasha : value → outcome string) (instance : option AnalyticsHandler)
    (system : SystemInfo) (ci : bool) (session : string) (inputs : InitInputs)
    : outcome (AnalyticsHandler * option InitEffects * option AnalyticsHandler) :=
  match instance with
  | None =>
      initialized <~ initialize hasha (newHandler system ci session) inputs;;
      Ok (initialized.1, Some initialized.2, Some initialized.1)
  | Some handler => Ok (handler, None, Some handler)
  end.

(** The event type each call sends, and the names of the properties it adds
    to the basic ones. *)
Definition callType (c : TrackCall) : AnalyticsType :=
  match c with
  | CallCommand _ => COMMAND
  | CallTask _ _ _ _ => TASK
  | CallApi _ _ _ => CALL_API
  | CallModuleConfigError _ => MODULE_CONFIG_ERROR
  | CallProjectConfigError _ => PROJECT_CONFIG_ERROR
  | CallConfigValidationError _ => VALIDATION_ERROR
  end.

Definition basicKeys : gset string :=
  {["projectId"; "system"; "isCI"; "sessionId"; "projectMetadata"]}.

Definition callKeys (c : TrackCall) : gset string :=
  match c with
  | CallCommand _ => {["name"]}
  | CallTask _ _ _ _ => {["batchId"; "taskName"; "taskType"; "taskStatus"]}
  | CallApi _ _ _ => {["name"; "path"; "command"]}
  | CallModuleConfigError _ => {["moduleType"]}
  | CallProjectConfigError _ => {["fields"]}
  | CallConfigValidationError _ => {["fields"]}
  end.

(** A store in which the user has seen the message and opted out. *)
Definition optedOutStore : StoredAnalyticsConfig :=
  {| storedUserId := Some "u-7"; storedFirstRun := Some false;
     storedOptedIn := Some false; storedShowOptInMessage := Some false |}.

Definition withStore (i : InitInputs) (s : StoredAnalyticsConfig) : InitInputs :=
  {| globalConfAnalytics := s;
     originNameFirst := originNameFirst i;
     originNameSecond := originNameSecond i;
     freshUserId := freshUserId i;
     graphModules := graphModules i;
     graphTasks := graphTasks i;
     graphServices := graphServices i |}.

Definition exampleSystem : SystemInfo :=
  {| gardenVersion := "0.10.16"; platform := "linux"; platformVersion := "5.4" |}.

(** Every call is a call of [track] on one event, unless it throws before
    it gets there. *)
Definition eventOf (hasha : value → outcome string) (this : AnalyticsHandler)
    (call : TrackCall) : outcome AnalyticsEvent :=
  match call with
  | CallCommand n =>
      Ok {| type := COMMAND;
            properties := getBasicAnalyticsProperties this ∪ {["name" := n]} |}
  | CallTask b n t s =>
      hashedTaskName <~ hasha n;;
      Ok {| type := TASK;
            properties :=
              <["taskStatus" := s]>
                (getBasicAnalyticsProperties this ∪
                   (<["taskType" := t]>
                   (<["taskName" := VStr hashedTaskName]>
                   (<["batchId" := b]> ∅)))) |}
  | CallApi m p b =>
      command <~ getProp "command" b;;
      Ok {| type := CALL_API;
            properties :=
              getBasicAnalyticsProperties this ∪
                (<["command" := command]>
                (<["path" := p]>
                (<["name" := VStr (m +:+ " request")]> ∅))) |}
  | CallModuleConfigError t =>
      Ok {| type := MODULE_CONFIG_ERROR;
            properties := <["moduleType" := t]> (getBasicAnalyticsProperties this) |}
  | CallProjectConfigError f =>
      Ok {| type := PROJECT_CONFIG_ERROR;
            properties := <["fields" := f]> (getBasicAnalyticsProperties this) |}
  | CallConfigValidationError f =>
      Ok {| type := VALIDATION_ERROR;
            properties := <["fields" := f]> (getBasicAnalyticsProperties this) |}
  end.

(** A store in which the user had opted out but the message is still to be
    shown, and inputs whose tests have other names. *)
Definition unseenMessageStore : StoredAnalyticsConfig :=
  {| storedUserId := Some "u-7"; storedFirstRun := Some false;
     storedOptedIn := Some false; storedShowOptInMessage := None |}.

Definition otherTestsInputs : InitInputs :=
  {| globalConfAnalytics := globalConfAnalytics exampleInputs;
     originNameFirst := originNameFirst exampleInputs;
     originNameSecond := originNameSecond exampleInputs;
     freshUserId := freshUserId exampleInputs;
     graphModules := [ {| moduleType := "container"; testConfigs := [] |};
                       {| moduleType := "container"; testConfigs := [VStr "integ"] |} ];
     graphTasks := [];
     graphServices := [VStr "web"] |}.

(** * The command

    [MigrateCommand.action] visits the documents of every config file with
    the three rewriters and then compares the documents it has read with a
    deep copy taken before the loop.  What the comparison sees depends on
    which objects the rewriters wrote to, so the loop is modelled with the
    objects it shares. *)

(** ** The loop variable and the raw spec

    [for (let spec of rawSpecs)] binds [spec] to an element of [rawSpecs],
    and [spec = applyFlatStyle(spec)] either leaves it bound to that object
    or binds it to a new object [{ kind: ..., ...spec.project }].  The new
    object holds, under each name, the very value that the wrapper holds: an
    object or array there is shared between the two.  A property of the new
    object is therefore either [Shared], the value the wrapper of the raw
    spec holds under the same name, or [Own], a value the new object holds
    alone.  The element of [rawSpecs] itself is never rebound: the
    assignment is to the loop variable. *)
Inductive cell : Type :=
  | Own (v : value)
  | Shared.

Inductive binding : Type :=
  | Same
  | Fresh (wrapper : string) (cells : gmap string cell).

Record LoopState : Type := {
  raw : value;
  bound : binding;
}.

Definition cellValue (wrapped : value) (k : string) (c : cell) : value :=
  match c with
  | Own v => v
  | Shared => field k wrapped
  end.

(** What the object bound to [spec] holds, as a tree. *)
Definition contents (st : LoopState) : value :=
  match bound st with
  | Same => raw st
  | Fresh w cells =>
      VObj (map_imap (λ k c, Some (cellValue (field w (raw st)) k c)) cells)
  end.

(** The monad of the loop body: like [M], with the raw spec and the binding
    of [spec] as state. *)
Definition L (A : Type) : Type := LoopState → outcome A * LoopState.

#[global] Instance L_ret : MRet L := λ A a st, (Ok a, st).

#[global] Instance L_bind : MBind L := λ A B k m st,
  match m st with
  | (Ok a, st') => k a st'
  | (Throw e, st') => (Throw e, st')
  end.

Definition throwL {A} (e : error) : L A := λ st, (Throw e, st).

Definition liftL {A} (o : outcome A) : L A := λ st, (o, st).

(** [spec.k] *)
Definition readL (k : string) : L value := λ st, (getProp k (contents st), st).

(** [spec.k1.k2] *)
Definition readL2 (k1 k2 : string) : L value :=
  o ← readL k1; liftL (getProp k2 o).

(** [spec.k = x]: a write to the object bound to [spec], which is the raw
    spec itself or the new object. *)
Definition assignL (k : string) (x : value) : L unit := λ st,
  (Ok tt,
   match bound st with
   | Same => {| raw := setField k x (raw st); bound := Same |}
   | Fresh w cells => {| raw := raw st; bound := Fresh w (<[k := Own x]> cells) |}
   end).

(** [delete spec.k] *)
Definition deleteL (k : string) : L unit := λ st,
  (Ok tt,
   match bound st with
   | Same => {| raw := deleteField k (raw st); bound := Same |}
   | Fresh w cells => {| raw := raw st; bound := Fresh w (delete k cells) |}
   end).

(** A write inside the object that [spec.k] holds ([spec.k[i]....name = x]):
    it changes that object, which the raw spec holds too if the property is
    shared.  The rewriters make these writes, in [removeLocalOpenFaas],
    before they assign to [spec.providers], in [removeEnvironmentDefaults],
    so they never write inside a value that was assigned. *)
Definition mutateL (k : string) (f : value → value) : L unit := λ st,
  (Ok tt,
   match bound st with
   | Same => {| raw := alterField k f (raw st); bound := Same |}
   | Fresh w cells =>
       match cells !! k with
       | Some Shared =>
           {| raw := alterField w (alterField k f) (raw st); bound := Fresh w cells |}
       | Some (Own v) =>
           {| raw := raw st; bound := Fresh w (<[k := Own (f v)]> cells) |}
       | None => st
       end
   end).

Fixpoint forOfL {A} (xs : list A) (body : A → L unit) : L unit :=
  match xs with
  | [] => mret tt
  | x :: xs' => body x;; forOfL xs' body
  end.

(** The properties of [{ kind: "Project", ...wrapped }]: those of an object
    are shared with it; the elements of an array and the characters of a
    string come under their indices, which none of the rewriters writes
    to. *)
Definition flatCells (kind : string) (wrapped : value) : gmap string cell :=
  match wrapped with
  | VObj m => ((λ _, Shared) <$> m) ∪ {["kind" := Own (VStr kind)]}
  | _ => (Own <$> ownProps wrapped) ∪ {["kind" := Own (VStr kind)]}
  end.

(** [spec = applyFlatStyle(spec)], for [spec] bound to the element [rawSpec]
    of [rawSpecs]. *)
Definition bindFlatStyle (rawSpec : value) : outcome LoopState :=
  project <~ getProp "project" rawSpec;;
  if truthy project then
    Ok {| raw := rawSpec; bound := Fresh "project" (flatCells "Project" project) |}
  else
    module <~ getProp "module" rawSpec;;
    if truthy module then
      Ok {| raw := rawSpec; bound := Fresh "module" (flatCells "Module" module) |}
    else Ok {| raw := rawSpec; bound := Same |}.

(** [removeLocalOpenFaas(spec)] in the loop *)
Definition assignEnvProviderNameL (envIdx providerIdx : nat) : L unit :=
  mutateL "environments"
    (alterIndex envIdx
       (alterField "providers"
          (alterIndex providerIdx (setField "name" (VStr "openfaas"))))).

Definition assignProviderNameL (providerIdx : nat) : L unit :=
  mutateL "providers" (alterIndex providerIdx (setField "name" (VStr "openfaas"))).

Definition renameBodyL (assignAt : nat → L unit) : nat * value → L unit :=
  λ '(providerIdx, provider),
    name ← liftL (getProp "name" provider);
    if strictEqStr name "local-openfaas" then assignAt providerIdx else mret tt.

Definition renameLoopL (providers : value) (assignAt : nat → L unit) : L unit :=
  es ← liftL (entries providers);
  forOfL es (renameBodyL assignAt).

Definition environmentBodyL : nat * value → L unit :=
  λ '(envIdx, env),
    providers ← liftL (getProp "providers" env);
    if negb (truthy providers) then mret tt
    else renameLoopL providers (assignEnvProviderNameL envIdx).

Definition removeLocalOpenFaasL : L unit :=
  kind ← readL "kind";
  let isProject := strictEqStr kind "Project" in
  type ← readL "type";
  (if strictEqStr type "local-openfaas"
   then assignL "type" (VStr "openfaas") else mret tt);;
  if isProject then
    environments ← readL "environments";
    envs ← liftL (entries environments);
    forOfL envs environmentBodyL;;
    providers ← readL "providers";
    if truthy providers then renameLoopL providers assignProviderNameL
    else mret tt
  else mret tt.

(** [removeEnvironmentDefaults(spec, configPath)] in the loop.  What it
    assigns holds values read from [spec.environmentDefaults], which it
    deletes at the end, and from the values it replaces; it writes into none
    of them. *)
Definition removeEnvironmentDefaultsL (path : string) : L unit :=
  environmentDefaults ← readL "environmentDefaults";
  if truthy environmentDefaults then
    defaultVarfile ← readL2 "environmentDefaults" "varfile";
    (if truthy defaultVarfile then
       varfile ← readL "varfile";
       if truthy varfile then throwL (ConfigurationError path)
       else
         v ← readL2 "environmentDefaults" "varfile";
         assignL "varfile" v
     else mret tt);;
    defaultVariables ← readL2 "environmentDefaults" "variables";
    (if truthy defaultVariables then
       variables ← readL "variables";
       merged ← readL2 "environmentDefaults" "variables";
       assignL "variables" (VObj (spread2 (orElse variables (VObj ∅)) merged))
     else mret tt);;
    defaultProviders ← readL2 "environmentDefaults" "providers";
    (if truthy defaultProviders then
       providers ← readL "providers";
       own ← liftL (iterate (orElse providers (VArr [])));
       defaults ← readL2 "environmentDefaults" "providers";
       hoisted ← liftL (iterate defaults);
       assignL "providers" (VArr (own ++ hoisted))
     else mret tt);;
    deleteL "environmentDefaults"
  else mret tt.

(** One turn of the loop over [rawSpecs]: the spec that is pushed to
    [updatedSpecs] and the element of [rawSpecs] as the turn leaves it. *)
Definition visit (configPath : string) (rawSpec : value) : outcome (value * value) :=
  st <~ bindFlatStyle rawSpec;;
  match (removeLocalOpenFaasL;; removeEnvironmentDefaultsL configPath) st with
  | (Ok _, st') => Ok (contents st', raw st')
  | (Throw e, _) => Throw e
  end.

(** ** What the loop is compared with *)

(** The wrapper of a raw spec after the loop body has run on the new object
    made from it: the providers it shares with that object are renamed if
    the new object is of kind [Project]; nothing else was written to it. *)
Definition renamedInPlace (flat wrapped : value) : value :=
  if strictEqStr (field "kind" flat) "Project" then
    alterField "providers" renamedProviders
      (alterField "environments" (mapArray renamedEnvironment) wrapped)
  else wrapped.

(** The element of [rawSpecs] after its turn, given the flat spec and the
    migrated spec. *)
Definition rawAfter (rawSpec flat migrated : value) : value :=
  if truthy (field "project" rawSpec) then
    alterField "project" (renamedInPlace flat) rawSpec
  else if truthy (field "module" rawSpec) then
    alterField "module" (renamedInPlace flat) rawSpec
  else migrated.

(** ** Invariants of the loop body *)

(** A shared property is one the wrapper of the raw spec has. *)
Definition wellLinked (st : LoopState) : Prop :=
  match bound st with
  | Same => True
  | Fresh w cells =>
      ∀ k, cells !! k = Some Shared → hasKey k (field w (raw st)) = true
  end.

(** The loop body does to the contents of [spec] what the rewriter does
    that runs on the spec alone. *)
Definition simulates {A} (h : L A) (m : M A) : Prop :=
  ∀ st, wellLinked st →
    wellLinked (h st).2 ∧ (h st).1 = (m (contents st)).1 ∧
    contents (h st).2 = (m (contents st)).2.

(** A property of the state that a computation keeps. *)
Definition preserves {A} (I : LoopState → Prop) (h : L A) : Prop :=
  ∀ st, I st → I (h st).2.

(** While [spec] is the raw spec itself, the raw spec is what [spec]
    holds. *)
Definition isSame (st : LoopState) : Prop := bound st = Same.

(** [removeEnvironmentDefaults] leaves the raw spec alone when [spec] is a
    new object. *)
Definition freshOver (w : string) (r : value) (st : LoopState) : Prop :=
  raw st = r ∧ ∃ cells, bound st = Fresh w cells.

(** With a new object made from a wrapper that is an object,
    [removeLocalOpenFaas] changes the raw spec inside the [environments]
    and [providers] of the wrapper only, and these stay shared. *)
Definition inPlace (w : string) (rm0 m0 : gmap string value) (st : LoopState) : Prop :=
  ∃ m cells,
    raw st = VObj (<[w := VObj m]> rm0) ∧
    bound st = Fresh w cells ∧
    dom m = dom m0 ∧
    (∀ k, k ≠ "environments" → k ≠ "providers" → m !! k = m0 !! k) ∧
    (∀ k, k = "environments" ∨ k = "providers" →
          cells !! k = (λ _, Shared) <$> m0 !! k).

(** With a new object made from a wrapper that is no object, nothing is
    shared, and the raw spec stays as it is. *)
Definition unshared (w : string) (r : value) (st : LoopState) : Prop :=
  raw st = r ∧ ∃ cells, bound st = Fresh w cells ∧ ∀ k, cells !! k ≠ Some Shared.

(** The loop over [rawSpecs]: the specs pushed to [updatedSpecs] and the
    elements of [rawSpecs] as the loop leaves them; an exception in a turn
    ends the loop. *)
Fixpoint visitAll (configPath : string) (rawSpecs : list value)
    : outcome (list value * list value) :=
  match rawSpecs with
  | [] => Ok ([], [])
  | rawSpec :: rest =>
      visited <~ visit configPath rawSpec;;
      others <~ visitAll configPath rest;;
      Ok (visited.1 :: others.1, visited.2 :: others.2)
  end.

(** ** lodash

    [cloneDeep] gives a copy that shares no object with what it copies; as
    a tree it is the tree that is copied, as it is at that moment. *)
Definition cloneDeep (v : value) : value := v.

(** [isEqual]: primitives are compared with [SameValueZero] ([NaN] equals
    [NaN], [+0] equals [-0]), arrays by length and element by element,
    objects by the number of their keys and key by key. *)
Definition sameValueZero (x y : float) : bool :=
  PrimFloat.eqb x y || (negb (PrimFloat.eqb x x) && negb (PrimFloat.eqb y y)).

Fixpoint isEqual (object other : value) {struct object} : bool :=
  match object, other with
  | VUndefined, VUndefined => true
  | VNull, VNull => true
  | VBool x, VBool y => Bool.eqb x y
  | VNum x, VNum y => sameValueZero x y
  | VStr x, VStr y => String.eqb x y
  | VArr l1, VArr l2 =>
      (fix equalArrays (l1 l2 : list value) {struct l1} : bool :=
         match l1, l2 with
         | [], [] => true
         | x :: l1', y :: l2' => isEqual x y && equalArrays l1' l2'
         | _, _ => false
         end) l1 l2
  | VObj m1, VObj m2 =>
      Nat.eqb (size m1) (size m2)
      && map_fold (λ k x acc,
                     acc && match m2 !! k with
                            | Some y => isEqual x y
                            | None => false
                            end) true m1
  | _, _ => false
  end.

(** The number of nodes of a tree, to reason by induction on values. *)
Fixpoint nodes (v : value) : nat :=
  match v with
  | VArr l => S (foldr (λ x acc, nodes x + acc) 0 l)
  | VObj m => S (map_fold (λ _ x acc, nodes x + acc) 0 m)
  | _ => 1
  end.

(** ** [MigrateCommand.action] *)

Record Args : Type := {
  configPaths : option (list string);
}.

Record Opts : Type := {
  root : string;
  write : bool;
}.

Record UpdatedConfig : Type := {
  path : string;
  specs : list value;
}.

(** What the command needs besides the files it reads:
    [findConfigPathsInPath] of [util/fs] for a root directory, the standard
    output of [git ls-files -m --others --exclude-standard <path>] run in a
    directory, [safeDump] of [js-yaml], and whether [writeFile] gets
    through.  [None] is a rejection or an exception. *)
Record CommandHost : Type := {
  files : Host;
  findConfigPathsInPath : string → option (list string);
  gitLsFiles : string → string → option string;
  safeDump : value → option string;
  writeFile : string → string → bool;
}.

(** What the command does that can be seen from outside: the lines it
    hands to [log.info] and the files it writes. *)
Inductive Effect : Type :=
  | LogInfo (msg : string)
  | Written (path out : string).

(** What ends the command early: the [ConfigurationError] for a directory
    that is no project, a failed scan for config files, a config file that
    cannot be read or parsed, an exception of a rewriter, a failed call of
    git, the [RuntimeError] for dirty config files, and a failed dump or
    write. *)
Inductive CommandError : Type :=
  | NotAProjectDirectory (root : string)
  | ScanFailed
  | CouldNotRead (path : string) (failure : readFailure)
  | SpecError (e : error)
  | GitFailed
  | DirtyConfigs (dirtyConfigs : list string)
  | DumpFailed
  | WriteFailed (path : string).

Definition newline : string := String (ascii_of_nat 10) EmptyString.

(** [dumpSpec]: dump JSON specs to YAML, joined by [---]. *)
Definition dumpSpec (host : CommandHost) (specs : list value) : option string :=
  dumped ← mapM (safeDump host) specs;
  Some (String.concat (newline +:+ "---" +:+ newline +:+ newline) dumped).

(** One turn of the loop over [configPaths]: the entry that is pushed to
    [updatedConfigs], if one is. *)
Definition migrateConfig (host : CommandHost) (configPath : string)
    : CommandError + option UpdatedConfig :=
  match readYaml (files host) configPath with
  | inl failure => inl (CouldNotRead configPath failure)
  | inr rawSpecs =>
      let original := cloneDeep (VArr rawSpecs) in
      match visitAll configPath rawSpecs with
      | Throw e => inl (SpecError e)
      | Ok (updatedSpecs, rawSpecs') =>
          if isEqual (VArr rawSpecs') original then inr None
          else inr (Some {| path := configPath; specs := updatedSpecs |})
      end
  end.

Fixpoint migrateConfigs (host : CommandHost) (configPaths : list string)
    : CommandError + list UpdatedConfig :=
  match configPaths with
  | [] => inr []
  | configPath :: rest =>
      match migrateConfig host configPath with
      | inl e => inl e
      | inr updated =>
          match migrateConfigs host rest with
          | inl e => inl e
          | inr updatedConfigs => inr (option_list updated ++ updatedConfigs)
          end
      end
  end.

(** The check for modified files: [Bluebird.map] over [updatedConfigs], a
    path for a file of which git lists something, [null] otherwise, and
    [.filter(Boolean)] on the result. *)
Fixpoint modifiedPaths (host : CommandHost) (root : string)
    (updatedConfigs : list UpdatedConfig) : option (list value) :=
  match updatedConfigs with
  | [] => Some []
  | c :: rest =>
      stdout ← gitLsFiles host root (path c);
      others ← modifiedPaths host root rest;
      Some ((if truthy (VStr stdout) then VStr (path c) else VNull) :: others)
  end.

Definition pathsOf (l : list value) : list string :=
  omap (λ v, match v with VStr p => Some p | _ => None end) l.

Definition findDirtyConfigs (host : CommandHost) (root : string)
    (updatedConfigs : list UpdatedConfig) : option (list string) :=
  modified ← modifiedPaths host root updatedConfigs;
  Some (pathsOf (filter (λ v, truthy v = true) modified)).

(** The loop that prints or writes; it stops at the first dump or write
    that fails. *)
Fixpoint output (host : CommandHost) (opts : Opts) (configPaths : list string)
    (updatedConfigs : list UpdatedConfig) : list Effect * option CommandError :=
  match updatedConfigs with
  | [] => ([], None)
  | c :: rest =>
      match dumpSpec host (specs c) with
      | None => ([], Some DumpFailed)
      | Some out =>
          if write opts then
            if writeFile host (path c) out then
              let later := output host opts configPaths rest in
              (LogInfo ("Updating file at path " +:+ path c) :: Written (path c) out
                 :: later.1, later.2)
            else ([LogInfo ("Updating file at path " +:+ path c)], Some (WriteFailed (path c)))
          else
            let later := output host opts configPaths rest in
            ((if bool_decide (0 < length configPaths)
              then [LogInfo ("# Updated config at path " +:+ path c)] else [])
             ++ LogInfo out :: later.1, later.2)
      end
  end.

(** [action]; [fuel] is the fuel of [findRoot], and [None] means it was
    used up. *)
Definition action (host : CommandHost) (fuel : nat) (args : Args) (opts : Opts)
    : option (list Effect * (CommandError + list UpdatedConfig)) :=
  found ← findRoot (files host) fuel (root opts);
  match found with
  | None => Some ([], inl (NotAProjectDirectory (root opts)))
  | Some root =>
      let given := default [] (configPaths args) in
      let scanned :=
        if bool_decide (0 < length given)
        then Some ((λ path, resolve (cwd (files host)) [root; path]) <$> given)
        else findConfigPathsInPath host root in
      match scanned with
      | None => Some ([], inl ScanFailed)
      | Some configPaths =>
          match migrateConfigs host configPaths with
          | inl e => Some ([], inl e)
          | inr updatedConfigs =>
              let dirty :=
                if write opts then findDirtyConfigs host root updatedConfigs
                else Some [] in
              match dirty with
              | None => Some ([], inl GitFailed)
              | Some dirtyConfigs =>
                  if bool_decide (0 < length dirtyConfigs)
                  then Some ([], inl (DirtyConfigs dirtyConfigs))
                  else
                    let printed := output host opts configPaths updatedConfigs in
                    Some (printed.1,
                          match printed.2 with
                          | Some e => inl e
                          | None => inr updatedConfigs
                          end)
              end
          end
      end
  end.

(** ** What the command is compared with *)

(** The loop over [rawSpecs] as a function on trees. *)
Fixpoint migrateAll (configPath : string) (rawSpecs : list value) : outcome (list value) :=
  match rawSpecs with
  | [] => Ok []
  | rawSpec :: rest =>
      migrated <~ migrateSpec configPath rawSpec;;
      others <~ migrateAll configPath rest;;
      Ok (migrated :: others)
  end.

(** The element of [rawSpecs] after its turn. *)
Definition leftBehind (configPath : string) (rawSpec : value) : value :=
  match applyFlatStyle rawSpec, migrateSpec configPath rawSpec with
  | Ok flat, Ok migrated => rawAfter rawSpec flat migrated
  | _, _ => rawSpec
  end.

(** A spec in wrapper style, [project: ...] or [module: ...]. *)
Definition isWrapped (rawSpec : value) : bool :=
  truthy (field "project" rawSpec) || truthy (field "module" rawSpec).

(** A spec in wrapper style in which the rename finds no provider to
    rename: what is wrapped is no project, or its environments and
    providers are settled. *)
Definition wrappedUnrenamed (rawSpec : value) : bool :=
  isWrapped rawSpec
  && match applyFlatStyle rawSpec with
     | Ok flat =>
         negb (strictEqStr (field "kind" flat) "Project")
         || settledEnvironments (field "environments" flat)
            && settledProviders (field "providers" flat)
     | Throw _ => false
     end.

(** A module of type [local-openfaas] and a project with
    [environmentDefaults], both in wrapper style, and a module in flat style
    that needs no change. *)
Definition nestedLegacyModule : value :=
  obj [("module", obj [("name", VStr "fn"); ("type", VStr "local-openfaas")])].

Definition nestedLegacyProject : value :=
  obj [("project",
        obj [("name", VStr "demo");
             ("environmentDefaults", obj [("variables", obj [("tier", VStr "dev")])]);
             ("environments", VArr [obj [("name", VStr "local")]])])].

Definition currentModule : value :=
  obj [("kind", VStr "Module"); ("name", VStr "api"); ("type", VStr "container")].

(** A machine with four projects: [/work/nested], in wrapper style, with
    its module [fn]; [/work/flat] and [/work/clean], which hold
    [legacyProject], the first with the module [api]; and [/work/broken],
    whose project has no [environments].  Git lists [/work/flat/garden.yml]
    as modified. *)
Definition commandFiles : Host :=
  {| cwd := "/work";
     getConfigFilePath := λ path, path +:+ "/garden.yml";
     readFile := λ path,
       if String.eqb path "/work/nested/garden.yml" then Some "nested project"
       else if String.eqb path "/work/nested/fn/garden.yml" then Some "nested module"
       else if String.eqb path "/work/flat/garden.yml" then Some "flat project"
       else if String.eqb path "/work/flat/api/garden.yml" then Some "flat module"
       else if String.eqb path "/work/broken/garden.yml" then Some "bare project"
       else if String.eqb path "/work/clean/garden.yml" then Some "flat project"
       else None;
     safeLoadAll := λ text,
       if String.eqb text "nested project" then Some [nestedLegacyProject]
       else if String.eqb text "nested module" then Some [nestedLegacyModule]
       else if String.eqb text "flat project" then Some [legacyProject]
       else if String.eqb text "flat module" then Some [currentModule]
       else if String.eqb text "bare project" then Some [bareProject]
       else None |}.

Definition commandHost : CommandHost :=
  {| files := commandFiles;
     findConfigPathsInPath := λ root,
       if String.eqb root "/work/nested"
       then Some ["/work/nested/garden.yml"; "/work/nested/fn/garden.yml"]
       else if String.eqb root "/work/flat"
       then Some ["/work/flat/garden.yml"; "/work/flat/api/garden.yml"]
       else if String.eqb root "/work/broken"
       then Some ["/work/broken/garden.yml"]
       else if String.eqb root "/work/clean"
       then Some ["/work/clean/garden.yml"]
       else None;
     gitLsFiles := λ root path,
       if String.eqb path "/work/flat/garden.yml" then Some "garden.yml" else Some "";
     safeDump := λ spec,
       match field "name" spec with
       | VStr name => Some ("name: " +:+ name)
       | _ => None
       end;
     writeFile := λ path out, true |}.
(** ** Reading and running the monad *)

Lemma getProp_field k v : isNullish v = false → getProp k v = Ok (field k v).
Proof. by destruct v. Qed.

Lemma truthy_not_nullish v : truthy v = true → isNullish v = false.
Proof. by destruct v. Qed.

Lemma truthy_field_obj k v :
  truthy (field k v) = true → ∃ m, v = VObj m.
Proof. destruct v; try discriminate; eauto. Qed.

Lemma field_setField k x m : field k (setField k x (VObj m)) = x.
Proof. cbn. by rewrite lookup_insert_eq. Qed.

Lemma field_setField_ne k k' x v : k ≠ k' → field k' (setField k x v) = field k' v.
Proof. intros Hne. destruct v; try done. cbn. by rewrite lookup_insert_ne. Qed.

Lemma field_deleteField_ne k k' v : k ≠ k' → field k' (deleteField k v) = field k' v.
Proof. intros Hne. destruct v; try done. cbn. by rewrite lookup_delete_ne. Qed.

Lemma hasKey_deleteField k v : hasKey k (deleteField k v) = false.
Proof.
  destruct v; try done. cbn. rewrite lookup_delete_eq.
  apply bool_decide_eq_false. by intros [? ?].
Qed.

Lemma field_hoistVarfile k spec :
  k ≠ "varfile" → field k (hoistVarfile spec) = field k spec.
Proof.
  intros Hk. unfold hoistVarfile. case_match; [|done].
  by apply field_setField_ne.
Qed.

Lemma field_hoistVariables k spec :
  k ≠ "variables" → field k (hoistVariables spec) = field k spec.
Proof.
  intros Hk. unfold hoistVariables. case_match; [|done].
  by apply field_setField_ne.
Qed.

Lemma field_hoistProviders k spec :
  k ≠ "providers" → field k (hoistProviders spec) = field k spec.
Proof.
  intros Hk. unfold hoistProviders. repeat case_match; try done.
  by apply field_setField_ne.
Qed.

(** [removeEnvironmentDefaults] on an object, step by step. *)
Lemma removeEnvironmentDefaults_falsy path spec :
  isNullish spec = false →
  truthy (field "environmentDefaults" spec) = false →
  removeEnvironmentDefaults path spec = (Ok tt, spec).
Proof.
  intros Hn Hed. unfold removeEnvironmentDefaults, bind, readProp.
  rewrite getProp_field by done. by rewrite Hed.
Qed.

Lemma bind_ret {A B} (a : A) (k : A → M B) spec : bind (ret a) k spec = k a spec.
Proof. done. Qed.

Lemma bind_throw {A B} e (k : A → M B) spec : bind (throw e) k spec = (Throw e, spec).
Proof. done. Qed.

Lemma bind_lift_Ok {A B} (a : A) (k : A → M B) spec : bind (lift (Ok a)) k spec = k a spec.
Proof. done. Qed.

Lemma bind_lift_Throw {A B} e (k : A → M B) spec :
  bind (lift (Throw e)) k spec = (Throw e, spec).
Proof. done. Qed.

Lemma bind_assign {B} k x (f : unit → M B) spec :
  bind (assign k x) f spec = f tt (setField k x spec).
Proof. done. Qed.

Lemma bind_modify {B} g (f : unit → M B) spec :
  bind (modify g) f spec = f tt (g spec).
Proof. done. Qed.

Lemma bind_readProp {B} k (f : value → M B) spec :
  isNullish spec = false → bind (readProp k) f spec = f (field k spec) spec.
Proof. intros Hn. unfold bind, readProp. by rewrite getProp_field. Qed.

Lemma bind_readProp2 {B} k1 k2 (f : value → M B) spec :
  isNullish (field k1 spec) = false →
  bind (readProp2 k1 k2) f spec = f (field k2 (field k1 spec)) spec.
Proof.
  intros Hn. assert (isNullish spec = false) by by destruct spec.
  unfold readProp2, bind at 1. rewrite bind_readProp by done.
  unfold lift. by rewrite getProp_field.
Qed.

Lemma bind_bind {A B C} (m : M A) (f : A → M B) (g : B → M C) spec :
  bind (bind m f) g spec = bind m (λ a, bind (f a) g) spec.
Proof. unfold bind. destruct (m spec) as [[a|e] s']; done. Qed.

Lemma isNullish_setField k x v : isNullish (setField k x v) = isNullish v.
Proof. by destruct v. Qed.

Lemma run_assign k x spec : assign k x spec = (Ok tt, setField k x spec).
Proof. done. Qed.
Lemma run_deleteProp k spec : deleteProp k spec = (Ok tt, deleteField k spec).
Proof. done. Qed.
Lemma run_ret {A} (a : A) spec : ret a spec = (Ok a, spec).
Proof. done. Qed.
Lemma run_throw {A} e spec : @throw A e spec = (Throw e, spec).
Proof. done. Qed.

Ltac run_side :=
  rewrite ?isNullish_setField;
  first [ done | assumption | by apply truthy_not_nullish | congruence ].

Ltac run_step :=
  first
    [ rewrite bind_ret
    | rewrite bind_throw
    | rewrite bind_lift_Ok
    | rewrite bind_lift_Throw
    | rewrite bind_assign
    | rewrite bind_modify
    | rewrite bind_readProp by run_side
    | rewrite bind_readProp2 by run_side
    | rewrite bind_bind
    | rewrite run_assign
    | rewrite run_deleteProp
    | rewrite run_ret
    | rewrite run_throw ].

Lemma removeEnvironmentDefaults_conflict path spec :
  varfileConflict spec = true →
  removeEnvironmentDefaults path spec = (Throw (ConfigurationError path), spec).
Proof.
  unfold varfileConflict. intros [Hd Hv]%andb_prop.
  assert (Hed : truthy (field "environmentDefaults" spec) = true).
  { apply truthy_field_obj in Hd as [ed ->]. done. }
  pose proof (truthy_not_nullish _ Hed) as Hn.
  assert (Hs : isNullish spec = false).
  { by apply truthy_field_obj in Hv as [m ->]. }
  unfold removeEnvironmentDefaults.
  run_step. rewrite Hed. run_step. rewrite Hd. do 2 run_step. rewrite Hv.
  by run_step.
Qed.

Lemma iterate_Throw v e : iterate v = Throw e → e = TypeError.
Proof. destruct v; cbn; congruence. Qed.

Lemma isNullish_hoistVarfile spec : isNullish (hoistVarfile spec) = isNullish spec.
Proof. unfold hoistVarfile. case_match; by rewrite ?isNullish_setField. Qed.

Lemma isNullish_hoistVariables spec : isNullish (hoistVariables spec) = isNullish spec.
Proof. unfold hoistVariables. case_match; by rewrite ?isNullish_setField. Qed.

Lemma removeEnvironmentDefaults_run path spec :
  truthy (field "environmentDefaults" spec) = true →
  varfileConflict spec = false →
  removeEnvironmentDefaults path spec =
    if providersMergeable spec then (Ok tt, hoisted spec)
    else (Throw TypeError, hoistVariables (hoistVarfile spec)).
Proof.
  intros Hed Hc.
  pose proof (truthy_not_nullish _ Hed) as Hn.
  assert (Hs : isNullish spec = false).
  { by apply truthy_field_obj in Hed as [m ->]. }
  unfold removeEnvironmentDefaults, hoisted.
  run_step. rewrite Hed. run_step.
  (* the varfile block *)
  unfold bind at 1.
  replace ((if truthy (field "varfile" (field "environmentDefaults" spec))
            then _ else ret ()) spec) with (@Ok unit tt, hoistVarfile spec); last first.
  { unfold hoistVarfile, varfileConflict in *.
    destruct (truthy (field "varfile" (field "environmentDefaults" spec))); [|done].
    cbn in Hc. run_step. rewrite Hc. by do 2 run_step. }
  assert (He1 : field "environmentDefaults" (hoistVarfile spec)
                = field "environmentDefaults" spec) by by apply field_hoistVarfile.
  assert (Hp1 : field "providers" (hoistVarfile spec) = field "providers" spec)
    by by apply field_hoistVarfile.
  pose proof (isNullish_hoistVarfile spec) as Hs1. rewrite Hs in Hs1.
  set (s1 := hoistVarfile spec) in *.
  (* the variables block *)
  run_step. unfold bind at 1.
  replace ((if truthy (field "variables" (field "environmentDefaults" s1))
            then _ else ret ()) s1) with (@Ok unit tt, hoistVariables s1); last first.
  { unfold hoistVariables.
    destruct (truthy (field "variables" (field "environmentDefaults" s1))); [|done].
    do 2 run_step. by run_step. }
  assert (He2 : field "environmentDefaults" (hoistVariables s1)
                = field "environmentDefaults" spec) by by rewrite field_hoistVariables.
  assert (Hp2 : field "providers" (hoistVariables s1) = field "providers" spec)
    by by rewrite field_hoistVariables.
  pose proof (isNullish_hoistVariables s1) as Hs2. rewrite Hs1 in Hs2.
  set (s2 := hoistVariables s1) in *.
  (* the providers block *)
  run_step. unfold providersMergeable, hoistProviders. 
  rewrite He2, Hp2.
  destruct (truthy (field "providers" (field "environmentDefaults" spec))); cbn [negb orb].
  - repeat run_step. rewrite Hp2.
    destruct (iterate (orElse _ _)) as [own|e] eqn:Hown; cbn [andb].
    + repeat run_step. rewrite He2.
      destruct (iterate (field _ _)) as [hoisted|e] eqn:Hh.
      * by repeat run_step.
      * repeat run_step. by rewrite (iterate_Throw _ _ Hh).
    + repeat run_step. by rewrite (iterate_Throw _ _ Hown).
  - by repeat run_step.
Qed.

(** ** [removeEnvironmentDefaults]: varfile, providers, variables *)

(** C1.  For every spec whose [environmentDefaults] section holds a varfile:
    if the spec has a top-level [varfile] too, [removeEnvironmentDefaults]
    throws a [ConfigurationError] and leaves the spec as it was (nothing is
    merged); if it has none, the varfile of the defaults is assigned to the
    top-level [varfile] field, and the function then completes unless the
    merge of the provider lists meets a value that cannot be spread. *)
Theorem removeEnvironmentDefaults_varfile (path : string) (spec : value) :
  truthy (field "varfile" (field "environmentDefaults" spec)) = true →
  (truthy (field "varfile" spec) = true →
     removeEnvironmentDefaults path spec = (Throw (ConfigurationError path), spec)) ∧
  (truthy (field "varfile" spec) = false →
     ∃ out spec',
       removeEnvironmentDefaults path spec = (out, spec') ∧
       field "varfile" spec' = field "varfile" (field "environmentDefaults" spec) ∧
       out = if providersMergeable spec then Ok tt else Throw TypeError).
Proof.
  intros Hd.
  assert (Hed : truthy (field "environmentDefaults" spec) = true).
  { apply truthy_field_obj in Hd as [ed ->]. done. }
  destruct (truthy_field_obj _ _ Hed) as [m ->].
  split; intros Hv.
  - apply removeEnvironmentDefaults_conflict. unfold varfileConflict. by rewrite Hd, Hv.
  - rewrite removeEnvironmentDefaults_run; [|done|unfold varfileConflict; by rewrite Hd, Hv].
    assert (Hset : field "varfile" (hoistVarfile (VObj m))
                   = field "varfile" (field "environmentDefaults" (VObj m))).
    { unfold hoistVarfile. rewrite Hd. apply field_setField. }
    destruct (providersMergeable (VObj m)); eexists _, _; (split; [done|split; [|done]]).
    + unfold hoisted. rewrite field_deleteField_ne, field_hoistProviders,
        field_hoistVariables by done. done.
    + by rewrite field_hoistVariables.
Qed.

Lemma removeEnvironmentDefaults_varfile_witness :
  (truthy (field "varfile" conflictingProject) = true →
     removeEnvironmentDefaults "garden.yml" conflictingProject
     = (Throw (ConfigurationError "garden.yml"), conflictingProject)) ∧
  (truthy (field "varfile" conflictingProject) = false →
     ∃ out spec',
       removeEnvironmentDefaults "garden.yml" conflictingProject = (out, spec') ∧
       field "varfile" spec' = field "varfile" (field "environmentDefaults" conflictingProject) ∧
       out = if providersMergeable conflictingProject then Ok tt else Throw TypeError).
Proof.
  apply (removeEnvironmentDefaults_varfile "garden.yml" conflictingProject).
  vm_compute. reflexivity.
Defined.

Lemma isObject_setField k x v : isObject (setField k x v) = isObject v.
Proof. by destruct v. Qed.

Lemma isObject_hoistVarfile spec : isObject (hoistVarfile spec) = isObject spec.
Proof. unfold hoistVarfile. case_match; by rewrite ?isObject_setField. Qed.

Lemma isObject_hoistVariables spec : isObject (hoistVariables spec) = isObject spec.
Proof. unfold hoistVariables. case_match; by rewrite ?isObject_setField. Qed.

Lemma field_setField_eq k x v : isObject v = true → field k (setField k x v) = x.
Proof. destruct v; try done. intros _. apply field_setField. Qed.

Lemma providersNamed_app name l1 l2 :
  providersNamed name (l1 ++ l2) = providersNamed name l1 + providersNamed name l2.
Proof. unfold providersNamed. by rewrite filter_app, length_app. Qed.

(** C2.  For every spec whose [environmentDefaults.providers] is a list and
    whose top-level [providers] is a list or missing, the rewrite never
    raises an error in the merge: it throws only the [ConfigurationError] of
    a varfile conflict, and otherwise completes with the top-level
    [providers] set to the original list (empty if missing) followed by the
    list of the defaults; providers of one name are all kept, so their
    numbers add up. *)
Theorem removeEnvironmentDefaults_providers (path : string) (spec : value)
    (own defaults : list value) :
  field "providers" (field "environmentDefaults" spec) = VArr defaults →
  field "providers" spec = VArr own
  ∨ (truthy (field "providers" spec) = false ∧ own = []) →
  ∃ out spec',
    removeEnvironmentDefaults path spec = (out, spec') ∧
    out = (if varfileConflict spec then Throw (ConfigurationError path) else Ok tt) ∧
    (out = Ok tt →
       field "providers" spec' = VArr (own ++ defaults) ∧
       ∀ name, providersNamed name (own ++ defaults)
               = providersNamed name own + providersNamed name defaults).
Proof.
  intros Hd Hown.
  assert (Hed : truthy (field "environmentDefaults" spec) = true).
  { destruct (field "environmentDefaults" spec); try done. }
  destruct (truthy_field_obj _ _ Hed) as [m ->].
  assert (Hor : orElse (field "providers" (VObj m)) (VArr []) = VArr own).
  { unfold orElse. destruct Hown as [-> | [-> ->]]; done. }
  destruct (varfileConflict (VObj m)) eqn:Hc.
  - rewrite removeEnvironmentDefaults_conflict by done. eexists _, _. done.
  - rewrite removeEnvironmentDefaults_run by done.
    assert (Hm : providersMergeable (VObj m) = true).
    { unfold providersMergeable. by rewrite Hd, Hor. }
    rewrite Hm. eexists _, _. split; [done|]. split; [done|]. intros _.
    split; [|intros name; apply providersNamed_app].
    unfold hoisted. rewrite field_deleteField_ne by done.
    unfold hoistProviders.
    rewrite !field_hoistVariables, !field_hoistVarfile by done.
    rewrite Hd, Hor. cbn [truthy iterate].
    apply field_setField_eq. by rewrite isObject_hoistVariables, isObject_hoistVarfile.
Qed.

Lemma removeEnvironmentDefaults_providers_witness :
  ∃ out spec',
    removeEnvironmentDefaults "garden.yml" legacyProject = (out, spec') ∧
    out = (if varfileConflict legacyProject
           then Throw (ConfigurationError "garden.yml") else Ok tt) ∧
    (out = Ok tt →
       field "providers" spec'
       = VArr ([provider "local-openfaas"; provider "container"]
               ++ [provider "container"; provider "local-kubernetes"]) ∧
       ∀ name,
         providersNamed name ([provider "local-openfaas"; provider "container"]
                              ++ [provider "container"; provider "local-kubernetes"])
         = providersNamed name [provider "local-openfaas"; provider "container"]
           + providersNamed name [provider "container"; provider "local-kubernetes"]).
Proof.
  apply (removeEnvironmentDefaults_providers "garden.yml" legacyProject).
  - vm_compute. reflexivity.
  - left. vm_compute. reflexivity.
Defined.


Lemma lookup_spread2 a b k :
  spread2 a b !! k = match ownProps b !! k with
                     | Some v => Some v
                     | None => ownProps a !! k
                     end.
Proof. unfold spread2. rewrite lookup_union. by destruct (ownProps b !! k), (ownProps a !! k). Qed.

(** C5.  For every spec with a truthy [environmentDefaults] section on which
    [removeEnvironmentDefaults] completes, the [environmentDefaults] key is
    gone afterwards, and if the section had variables, the top-level
    [variables] is an object that holds, under every key, the value of the
    defaults if they have the key and the original top-level value (none if
    the field was missing) otherwise. *)
Theorem removeEnvironmentDefaults_variables (path : string) (spec spec' : value) :
  truthy (field "environmentDefaults" spec) = true →
  removeEnvironmentDefaults path spec = (Ok tt, spec') →
  hasKey "environmentDefaults" spec' = false ∧
  (truthy (field "variables" (field "environmentDefaults" spec)) = true →
   ∃ merged,
     field "variables" spec' = VObj merged ∧
     ∀ k, merged !! k =
          match ownProps (field "variables" (field "environmentDefaults" spec)) !! k with
          | Some v => Some v
          | None => ownProps (orElse (field "variables" spec) (VObj ∅)) !! k
          end).
Proof.
  intros Hed Hrun.
  destruct (truthy_field_obj _ _ Hed) as [m ->].
  destruct (varfileConflict (VObj m)) eqn:Hc.
  { by rewrite removeEnvironmentDefaults_conflict in Hrun. }
  rewrite removeEnvironmentDefaults_run in Hrun by done.
  destruct (providersMergeable (VObj m)); [|done].
  injection Hrun as <-. split; [apply hasKey_deleteField|].
  intros Hv. eexists. split; [|intros k; apply lookup_spread2].
  unfold hoisted. rewrite field_deleteField_ne, field_hoistProviders by done.
  unfold hoistVariables. rewrite !field_hoistVarfile by done. rewrite Hv.
  apply field_setField_eq. by rewrite isObject_hoistVarfile.
Qed.

Lemma removeEnvironmentDefaults_variables_witness :
  hasKey "environmentDefaults" (hoisted legacyProject) = false ∧
  (truthy (field "variables" (field "environmentDefaults" legacyProject)) = true →
   ∃ merged,
     field "variables" (hoisted legacyProject) = VObj merged ∧
     ∀ k, merged !! k =
          match ownProps (field "variables" (field "environmentDefaults" legacyProject)) !! k with
          | Some v => Some v
          | None => ownProps (orElse (field "variables" legacyProject) (VObj ∅)) !! k
          end).
Proof.
  apply (removeEnvironmentDefaults_variables "garden.yml" legacyProject (hoisted legacyProject));
    vm_compute; reflexivity.
Defined.

(** On the example project the defaults win on [tier], and [owner] and
    [region] are both kept. *)
Example removeEnvironmentDefaults_legacyProject :
  ∃ spec',
    removeEnvironmentDefaults "garden.yml" legacyProject = (Ok tt, spec') ∧
    hasKey "environmentDefaults" spec' = false ∧
    field "varfile" spec' = VStr "defaults.env" ∧
    field "variables" spec'
    = obj [("region", VStr "eu"); ("tier", VStr "dev"); ("owner", VStr "ops")].
Proof.
  eexists. split; [vm_compute; reflexivity|]. split; [vm_compute; reflexivity|].
  split; vm_compute; reflexivity.
Qed.

(** ** [applyFlatStyle] and the rewrite of a spec *)

Lemma lookup_flattened (wrapper : value) (kind : string) k :
  (ownProps wrapper ∪ {["kind" := VStr kind]}) !! k =
  match ownProps wrapper !! k with
  | Some v => Some v
  | None => if decide (k = "kind") then Some (VStr kind) else None
  end.
Proof.
  rewrite lookup_union. destruct (ownProps wrapper !! k) as [v|].
  - by destruct ({["kind" := VStr kind]} !! k).
  - rewrite left_id by apply _. case_decide as Hk.
    + subst k. apply lookup_singleton_eq.
    + by apply lookup_singleton_ne.
Qed.

(** C3, amended.  For every raw spec (anything but [null] and [undefined]),
    [applyFlatStyle] returns: if the [project] field is truthy, an object that
    holds every own property of that wrapper and, unless the wrapper has a
    [kind] of its own, [kind: "Project"]; if [project] is missing or falsy and
    the [module] field is truthy, the same with the [module] wrapper and
    [kind: "Module"]; and the spec itself when neither field is truthy. *)
Theorem applyFlatStyle_spec (spec : value) :
  isNullish spec = false →
  ∃ flat,
    applyFlatStyle spec = Ok flat ∧
    (truthy (field "project" spec) = true →
     ∃ fields, flat = VObj fields ∧
       ∀ k, fields !! k =
            match ownProps (field "project" spec) !! k with
            | Some v => Some v
            | None => if decide (k = "kind") then Some (VStr "Project") else None
            end) ∧
    (truthy (field "project" spec) = false →
     truthy (field "module" spec) = true →
     ∃ fields, flat = VObj fields ∧
       ∀ k, fields !! k =
            match ownProps (field "module" spec) !! k with
            | Some v => Some v
            | None => if decide (k = "kind") then Some (VStr "Module") else None
            end) ∧
    (truthy (field "project" spec) = false →
     truthy (field "module" spec) = false →
     flat = spec).
Proof.
  intros Hn. unfold applyFlatStyle.
  rewrite !getProp_field by done. cbn [bindO].
  destruct (truthy (field "project" spec)) eqn:Hp.
  - eexists. split; [done|]. split; [|done].
    intros _. eexists. split; [done|]. apply lookup_flattened.
  - cbn [bindO]. destruct (truthy (field "module" spec)) eqn:Hm.
    + eexists. split; [done|]. split; [done|]. split; [|done].
      intros _ _. eexists. split; [done|]. apply lookup_flattened.
    + eexists. done.
Qed.

Lemma applyFlatStyle_spec_witness :
  ∃ flat,
    applyFlatStyle wrappedProject = Ok flat ∧
    (truthy (field "project" wrappedProject) = true →
     ∃ fields, flat = VObj fields ∧
       ∀ k, fields !! k =
            match ownProps (field "project" wrappedProject) !! k with
            | Some v => Some v
            | None => if decide (k = "kind") then Some (VStr "Project") else None
            end) ∧
    (truthy (field "project" wrappedProject) = false →
     truthy (field "module" wrappedProject) = true →
     ∃ fields, flat = VObj fields ∧
       ∀ k, fields !! k =
            match ownProps (field "module" wrappedProject) !! k with
            | Some v => Some v
            | None => if decide (k = "kind") then Some (VStr "Module") else None
            end) ∧
    (truthy (field "project" wrappedProject) = false →
     truthy (field "module" wrappedProject) = false →
     flat = wrappedProject).
Proof. apply (applyFlatStyle_spec wrappedProject). reflexivity. Defined.

(** C3 as stated fails: a [project] wrapper with a [kind] of its own is
    mapped to an object of that kind, not of kind ["Project"]; and a spec
    that has the [project] key with nothing under it is returned as it is,
    without a kind. *)
Lemma applyFlatStyle_counterexample :
  (∃ flat, applyFlatStyle wrapperWithKind = Ok flat ∧
           field "kind" flat = VStr "Module" ∧ field "kind" flat ≠ VStr "Project") ∧
  (hasKey "project" emptyWrapper = true ∧
   applyFlatStyle emptyWrapper = Ok emptyWrapper ∧
   field "kind" emptyWrapper ≠ VStr "Project").
Proof.
  split.
  - eexists. split; [reflexivity|]. split; [vm_compute; reflexivity|].
    vm_compute. discriminate.
  - split; [vm_compute; reflexivity|]. split; [vm_compute; reflexivity|].
    vm_compute. discriminate.
Qed.

Example applyFlatStyle_wrappedProject :
  applyFlatStyle wrappedProject
  = Ok (obj [("kind", VStr "Project"); ("name", VStr "demo");
             ("providers", VArr [provider "local-openfaas"])]).
Proof. vm_compute. reflexivity. Qed.

(** C10.  For every spec that is, after [applyFlatStyle], of kind ["Project"]
    and without an [environments] field, [removeLocalOpenFaas] throws a
    [TypeError] (the call of [entries] on [undefined]), and so the rewrite of
    the spec ends with that [TypeError]: it neither completes nor reaches
    the [ConfigurationError] of [removeEnvironmentDefaults]. *)
Theorem migrateSpec_project_without_environments (path : string) (spec flat : value) :
  applyFlatStyle spec = Ok flat →
  field "kind" flat = VStr "Project" →
  hasKey "environments" flat = false →
  (∃ spec', removeLocalOpenFaas flat = (Throw TypeError, spec')) ∧
  migrateSpec path spec = Throw TypeError.
Proof.
  intros Hflat Hkind Henv.
  assert (Hrun : ∃ spec', removeLocalOpenFaas flat = (Throw TypeError, spec')).
  { destruct flat as [| | | | | |m]; try discriminate.
    assert (He : m !! "environments" = None).
    { cbn in Henv. apply bool_decide_eq_false in Henv.
      by apply eq_None_not_Some. }
    unfold removeLocalOpenFaas.
    do 2 run_step. rewrite Hkind. cbn [strictEqStr String.eqb Ascii.eqb Bool.eqb].
    destruct (strictEqStr (field "type" (VObj m)) "local-openfaas");
      repeat run_step; cbn [field setField];
      rewrite ?lookup_insert_ne by done; rewrite He; cbn [default entries];
      run_step; eauto. }
  split; [done|]. destruct Hrun as [spec' Hrun].
  unfold migrateSpec. rewrite Hflat. cbn [bindO].
  unfold bind at 1. by rewrite Hrun.
Qed.

Lemma migrateSpec_project_without_environments_witness :
  (∃ spec', removeLocalOpenFaas bareProject = (Throw TypeError, spec')) ∧
  migrateSpec "garden.yml" wrappedProject = Throw TypeError.
Proof.
  apply (migrateSpec_project_without_environments "garden.yml" wrappedProject bareProject);
    vm_compute; reflexivity.
Defined.

(** ** The analytics handler *)

Section AnalyticsProperties.

Variable hasha : value → outcome string.

Lemma basic_projectId this :
  getBasicAnalyticsProperties this !! "projectId" = Some (VStr (projectId this)).
Proof. unfold getBasicAnalyticsProperties. by simplify_map_eq. Qed.

Lemma basic_taskName this : getBasicAnalyticsProperties this !! "taskName" = None.
Proof. unfold getBasicAnalyticsProperties. by simplify_map_eq. Qed.

Lemma track_Some this ev sent :
  track this ev = Some sent →
  segmentProperties sent = properties ev ∪ getBasicAnalyticsProperties this.
Proof. unfold track. case_match; [|done]. by intros [= <-]. Qed.

Lemma track_projectId this ev sent :
  properties ev !! "projectId" = Some (VStr (projectId this)) →
  track this ev = Some sent →
  segmentProperties sent !! "projectId" = Some (VStr (projectId this)).
Proof.
  intros Hp Hs. rewrite (track_Some _ _ _ Hs), lookup_union, Hp, basic_projectId. done.
Qed.

Lemma perform_projectId this call sent :
  perform hasha this call = Ok (Some sent) →
  segmentProperties sent !! "projectId" = Some (VStr (projectId this)).
Proof.
  destruct call; cbn [perform].
  - intros [= Hs]. revert Hs. apply track_projectId. cbn.
    rewrite lookup_union, basic_projectId. by simplify_map_eq.
  - unfold trackTask. destruct (hasha taskName); [|done]. cbn [bindO].
    intros [= Hs]. revert Hs. apply track_projectId. cbn.
    rewrite lookup_insert_ne by done. rewrite lookup_union, basic_projectId.
    by simplify_map_eq.
  - unfold trackApi. destruct (getProp "command" body); [|done]. cbn [bindO].
    intros [= Hs]. revert Hs. apply track_projectId. cbn.
    rewrite lookup_union, basic_projectId. by simplify_map_eq.
  - intros [= Hs]. revert Hs. apply track_projectId. cbn.
    rewrite lookup_insert_ne by done. apply basic_projectId.
  - intros [= Hs]. revert Hs. apply track_projectId. cbn.
    rewrite lookup_insert_ne by done. apply basic_projectId.
  - intros [= Hs]. revert Hs. apply track_projectId. cbn.
    rewrite lookup_insert_ne by done. apply basic_projectId.
Qed.

Lemma trackTask_taskName this batchId taskName taskType taskStatus sent :
  trackTask hasha this batchId taskName taskType taskStatus = Ok (Some sent) →
  ∃ digest, hasha taskName = Ok digest ∧
            segmentProperties sent !! "taskName" = Some (VStr digest).
Proof.
  unfold trackTask. destruct (hasha taskName) as [digest|]; [|done]. cbn [bindO].
  intros [= Hs]. exists digest. split; [done|].
  rewrite (track_Some _ _ _ Hs). cbn.
  rewrite lookup_union, lookup_insert_ne by done.
  rewrite lookup_union, !basic_taskName. by simplify_map_eq.
Qed.

Lemma initialize_projectId this inputs this' effects :
  initialize hasha this inputs = Ok (this', effects) →
  (truthy (originNameFirst inputs) = false ∧ projectId this' = "unset")
  ∨ (truthy (originNameFirst inputs) = true ∧
     hasha (originNameSecond inputs) = Ok (projectId this')).
Proof.
  unfold initialize. destruct (truthy (originNameFirst inputs)).
  - destruct (hasha (originNameSecond inputs)) as [digest|]; [|done].
    cbn [bindO]. intros [= <- _]. by right.
  - cbn [bindO]. intros [= <- _]. by left.
Qed.

Lemma isSupportedEvent_elem name payload :
  isSupportedEvent name payload = true
  ↔ name ∈ ["taskPending"; "taskProcessing"; "taskComplete"; "taskError"].
Proof.
  unfold isSupportedEvent, supportedEventsKeys. rewrite existsb_exists. split.
  - intros (x & Hin & Heq%String.eqb_eq). subst x. by apply list_elem_of_In.
  - intros Hin. exists name. split; [by apply list_elem_of_In|apply String.eqb_refl].
Qed.

(** C7.  Every task event that is sent carries, as [taskName], the digest
    that [hasha] gives for the task name, and the name reaches the event
    only through that digest: two names with the same digest give the
    same event.  This holds for the events [processEvent] sends for the
    bus, whose task name is the [name] of the payload: two payloads that
    agree on batch id and type and on the digest of the name are treated
    alike.  The [projectId] of every event a handler sends after
    [initialize] is ["unset"] or the digest of the origin name, and
    [initialize] depends on the origin name only through whether it is
    there and through its digest. *)
Theorem analytics_sends_digests :
  (∀ this batchId taskName taskType taskStatus sent,
     trackTask hasha this batchId taskName taskType taskStatus = Ok (Some sent) →
     ∃ digest, hasha taskName = Ok digest ∧
               segmentProperties sent !! "taskName" = Some (VStr digest)) ∧
  (∀ this batchId taskName taskName' taskType taskStatus,
     hasha taskName = hasha taskName' →
     trackTask hasha this batchId taskName taskType taskStatus
     = trackTask hasha this batchId taskName' taskType taskStatus) ∧
  (∀ this name payload sent,
     processEvent hasha this name payload = Ok (Some sent) →
     ∃ digest, hasha (field "name" payload) = Ok digest ∧
               segmentProperties sent !! "taskName" = Some (VStr digest)) ∧
  (∀ this name payload payload',
     getProp "batchId" payload = getProp "batchId" payload' →
     getProp "type" payload = getProp "type" payload' →
     (taskName <~ getProp "name" payload;; hasha taskName)
     = (taskName <~ getProp "name" payload';; hasha taskName) →
     processEvent hasha this name payload = processEvent hasha this name payload') ∧
  (∀ this0 inputs this effects call sent,
     initialize hasha this0 inputs = Ok (this, effects) →
     perform hasha this call = Ok (Some sent) →
     ∃ id, segmentProperties sent !! "projectId" = Some (VStr id) ∧
           (id = "unset" ∨ hasha (originNameSecond inputs) = Ok id)) ∧
  (∀ this0 inputs first second first' second',
     truthy first = truthy first' →
     hasha second = hasha second' →
     initialize hasha this0 (withOriginNames inputs first second)
     = initialize hasha this0 (withOriginNames inputs first' second')).
Proof.
  split; [|split; [|split; [|split; [|split]]]].
  - apply trackTask_taskName.
  - intros this batchId taskName taskName' taskType taskStatus Heq.
    unfold trackTask. by rewrite Heq.
  - intros this name payload sent. unfold processEvent.
    destruct (isSupportedEvent name payload); [|done].
    destruct payload; try done; cbn [getProp bindO field]; apply trackTask_taskName.
  - intros this name payload payload' Hbatch Htype Hname. unfold processEvent.
    change (isSupportedEvent name payload') with (isSupportedEvent name payload).
    destruct (isSupportedEvent name payload); [|done].
    assert (Hnull : ∀ k v x, getProp k v = Ok x → isNullish v = false).
    { intros k v x. by destruct v. }
    destruct (getProp "batchId" payload') as [batchId|] eqn:Hbatch';
      [|by rewrite Hbatch].
    pose proof (Hnull _ _ _ Hbatch) as Hp. pose proof (Hnull _ _ _ Hbatch') as Hp'.
    rewrite !getProp_field in * by done. cbn [bindO] in *.
    injection Hbatch as ->. injection Htype as ->.
    unfold trackTask. by rewrite Hname.
  - intros this0 inputs this effects call sent Hinit Hsent.
    exists (projectId this). split; [by eapply perform_projectId|].
    destruct (initialize_projectId _ _ _ _ Hinit) as [[_ ->]|[_ ->]]; auto.
  - intros this0 inputs first second first' second' Ht Hh.
    unfold initialize. cbn [originNameFirst originNameSecond withOriginNames].
    by rewrite Ht, Hh.
Qed.

(** C8.  [initialize] subscribes one listener, with [onAny], and what it
    runs on an event is [processEvent], which looks at the name only: for
    one of the four names [taskPending], [taskProcessing], [taskComplete]
    and [taskError] it calls [trackTask] with the batch id, name and type
    of the payload and the event name as status; for every other name
    (that of an aborted or cancelled task too) it tracks nothing.  For a
    handler that sends and a payload whose name [hasha] takes, an event is
    sent exactly for the four names. *)
Theorem processEvent_supported_names (this : AnalyticsHandler) (name : string)
    (payload : value) :
  (name ∈ ["taskPending"; "taskProcessing"; "taskComplete"; "taskError"] →
   processEvent hasha this name payload =
     (batchId <~ getProp "batchId" payload;;
      taskName <~ getProp "name" payload;;
      taskType <~ getProp "type" payload;;
      trackTask hasha this batchId taskName taskType (VStr name))) ∧
  (name ∉ ["taskPending"; "taskProcessing"; "taskComplete"; "taskError"] →
   processEvent hasha this name payload = Ok None) ∧
  (∀ this0 inputs effects,
     initialize hasha this0 inputs = Ok (this, effects) →
     subscriptions effects = [OnAny] ∧
     deliver hasha this (subscriptions effects) name payload =
       (sent <~ processEvent hasha this name payload;; Ok (option_list sent))) ∧
  (segment this && hasOptedIn this = true →
   isNullish payload = false →
   (∃ digest, hasha (field "name" payload) = Ok digest) →
   (∃ sent, processEvent hasha this name payload = Ok (Some sent))
   ↔ name ∈ ["taskPending"; "taskProcessing"; "taskComplete"; "taskError"]).
Proof.
  pose proof (isSupportedEvent_elem name payload) as Hsup.
  split; [|split; [|split]].
  - intros Hin. unfold processEvent. by rewrite (proj2 Hsup Hin).
  - intros Hnin. unfold processEvent.
    destruct (isSupportedEvent name payload); [|done]. by destruct Hnin; apply Hsup.
  - intros this0 inputs effects Hinit.
    assert (subscriptions effects = [OnAny]) as ->.
    { revert Hinit. unfold initialize.
      destruct (if truthy _ then _ else _); [|done]. cbn [bindO]. by intros [= _ <-]. }
    split; [done|]. cbn [deliver hears].
    destruct (processEvent hasha this name payload) as [sent|]; [|done].
    cbn [bindO]. by rewrite app_nil_r.
  - intros Hsend Hpayload [digest Hdigest]. rewrite <- Hsup. unfold processEvent.
    destruct (isSupportedEvent name payload).
    + split; [done|]. intros _.
      rewrite !getProp_field by done. cbn [bindO].
      unfold trackTask. rewrite Hdigest. cbn [bindO]. unfold track. rewrite Hsend.
      eauto.
    + split; [|done]. by intros [sent [=]].
Qed.

End AnalyticsProperties.

Example processEvent_taskComplete :
  ∃ sent,
    processEvent markDigest exampleHandler "taskComplete" exampleTaskPayload = Ok (Some sent) ∧
    segmentProperties sent !! "taskName" = Some (VStr "sha256:build.api") ∧
    segmentProperties sent !! "taskStatus" = Some (VStr "taskComplete") ∧
    segmentProperties sent !! "projectId" = Some (VStr "unset").
Proof. eexists. split; [vm_compute; reflexivity|]. repeat split; vm_compute; reflexivity. Qed.

Example processEvent_taskCancelled :
  processEvent markDigest exampleHandler "taskCancelled" exampleTaskPayload = Ok None.
Proof. reflexivity. Qed.

Example initialize_example :
  ∃ this effects,
    initialize markDigest
      (newHandler {| gardenVersion := "0.10.16"; platform := "linux";
                     platformVersion := "5.4" |} false "s-1") exampleInputs
    = Ok (this, effects) ∧
    projectId this = "sha256:git@github.com:acme/shop.git" ∧
    optedIn (globalConfig this) = true ∧
    subscriptions effects = [OnAny].
Proof. eexists _, _. split; [reflexivity|]. repeat split. Qed.

(** ** The search for the project root *)

Lemma isAbsolute_nonempty p : isAbsolute p = true → String.eqb p "" = false.
Proof. by destruct p. Qed.

Lemma resolvePrefix_absolute cwd parts resolved :
  isAbsolute cwd = true → (resolvePrefix (parts ++ [cwd]) resolved).2 = true.
Proof.
  intros Habs. revert resolved. induction parts as [|p parts IH]; intros resolved; cbn.
  - by rewrite (isAbsolute_nonempty _ Habs), Habs.
  - destruct (String.eqb p ""); [apply IH|]. destruct (isAbsolute p); [done|apply IH].
Qed.

Lemma resolve_absolute cwd args :
  isAbsolute cwd = true → isAbsolute (resolve cwd args) = true.
Proof.
  intros Habs. unfold resolve.
  pose proof (resolvePrefix_absolute cwd (rev args) "" Habs) as Hp.
  destruct (resolvePrefix _ _) as [resolvedPath resolvedAbsolute].
  cbn in Hp. by subst.
Qed.

Lemma parseRoot_truthy path : truthy (VStr (parseRoot path)) = isAbsolute path.
Proof. unfold parseRoot. by destruct (isAbsolute path). Qed.

(** From an absolute path [findRoot] looks at that one directory only:
    [parse(path).root] is ["/"], which is truthy, for every absolute path,
    not only for the root of the file system. *)
Lemma findRoot_absolute host fuel path :
  isAbsolute path = true →
  findRoot host (S fuel) path
  = Some (if isProjectRootAt host path then Some path else None).
Proof.
  intros Habs. cbn [findRoot]. rewrite parseRoot_truthy, Habs.
  by destruct (isProjectRootAt host path).
Qed.

(** The search ends after at most two directories: a relative start is
    resolved against the working directory, and the result is absolute. *)
Theorem findRoot_terminates host fuel path :
  isAbsolute (cwd host) = true →
  ∃ result, findRoot host (S (S fuel)) path = Some result.
Proof.
  intros Hcwd. cbn [findRoot]. rewrite parseRoot_truthy.
  destruct (isProjectRootAt host path); [eauto|].
  destruct (isAbsolute path); [eauto|].
  rewrite parseRoot_truthy, resolve_absolute by done.
  destruct (isProjectRootAt host _); eauto.
Qed.

(** All that [findRoot] can answer: the start directory, for a relative
    start its parent, or [null]. *)
Lemma findRoot_result host fuel path :
  isAbsolute (cwd host) = true →
  findRoot host (S (S fuel)) path
  = Some (if isProjectRootAt host path then Some path
          else if isAbsolute path then None
          else if isProjectRootAt host (parentDir host path)
               then Some (parentDir host path)
               else None).
Proof.
  intros Hcwd. unfold parentDir. cbn [findRoot]. rewrite parseRoot_truthy.
  destruct (isProjectRootAt host path); [done|].
  destruct (isAbsolute path); [done|].
  rewrite parseRoot_truthy, resolve_absolute by done.
  by destruct (isProjectRootAt host _).
Qed.

Lemma findRoot_terminates_witness :
  ∃ result, findRoot exampleHost 2 "src" = Some result.
Proof. apply (findRoot_terminates exampleHost 0 "src"). reflexivity. Defined.

(** C6 on the code.  The command runs in [/work/shop/api]; its parent
    [/work/shop] is on the chain of parent directories and holds a project
    level config file, yet [findRoot] answers [null], with any amount of
    fuel: it stops at the start directory because that path is absolute. *)
Theorem findRoot_misses_parent_project :
  ancestors exampleHost 3 "/work/shop/api"
  = ["/work/shop/api"; "/work/shop"; "/work"; "/"] ∧
  isProjectRootAt exampleHost "/work/shop/api" = false ∧
  isProjectRootAt exampleHost "/work/shop" = true ∧
  ∀ fuel, findRoot exampleHost (S fuel) "/work/shop/api" = Some None.
Proof.
  split; [vm_compute; reflexivity|]. split; [vm_compute; reflexivity|].
  split; [vm_compute; reflexivity|].
  intros fuel. by rewrite findRoot_absolute.
Qed.

(** From the project directory itself, and from a relative path one level
    below it, the project is found. *)
Example findRoot_finds_start :
  findRoot exampleHost 2 "/work/shop" = Some (Some "/work/shop") ∧
  findRoot exampleHost 2 "." = Some (Some "/work/shop").
Proof. split; vm_compute; reflexivity. Qed.

(** ** The loops of [removeLocalOpenFaas] *)

Lemma alterField_compose k (g2 g1 : value → value) v :
  alterField k g2 (alterField k g1 v) = alterField k (g2 ∘ g1) v.
Proof. destruct v; try done. cbn. by rewrite alter_alter_eq. Qed.

Lemma alterIndex_compose i (g2 g1 : value → value) v :
  alterIndex i g2 (alterIndex i g1 v) = alterIndex i (g2 ∘ g1) v.
Proof. destruct v; try done. cbn. by rewrite list_alter_alter_eq. Qed.

Lemma alterField_ext k (g1 g2 : value → value) v :
  (∀ x, g1 x = g2 x) → alterField k g1 v = alterField k g2 v.
Proof. intros Hg. destruct v; try done. cbn. f_equal. apply alter_ext. auto. Qed.

Lemma alterIndex_ext i (g1 g2 : value → value) v :
  (∀ x, g1 x = g2 x) → alterIndex i g1 v = alterIndex i g2 v.
Proof. intros Hg. destruct v; try done. cbn. f_equal. apply list_alter_ext; auto. Qed.

Lemma alterField_id k v : alterField k id v = v.
Proof. destruct v; try done. cbn. f_equal. by apply alter_id. Qed.

Lemma alterIndex_id i v : alterIndex i id v = v.
Proof. destruct v; try done. cbn. f_equal. by apply list_alter_id. Qed.

(** At the field it changes, [alterField] sees only what the function does
    to the value that is there. *)
Lemma alterField_at k (g1 g2 : value → value) v :
  g1 (field k v) = g2 (field k v) → alterField k g1 v = alterField k g2 v.
Proof.
  destruct v; try done. cbn. intros Hg. f_equal. apply alter_ext.
  intros x Hx. by rewrite Hx in Hg.
Qed.

Lemma alterField_fixed k (g : value → value) v :
  g (field k v) = field k v → alterField k g v = v.
Proof.
  destruct v; try done. cbn. intros Hg. f_equal. apply alter_id.
  intros x Hx. by rewrite Hx in Hg.
Qed.

Lemma field_alterField_ne k k' g v : k ≠ k' → field k' (alterField k g v) = field k' v.
Proof. intros Hne. destruct v; try done. cbn. by rewrite lookup_alter_ne. Qed.

Lemma isNullish_alterField k g v : isNullish (alterField k g v) = isNullish v.
Proof. by destruct v. Qed.

Lemma run_modify g spec : modify g spec = (Ok tt, g spec).
Proof. done. Qed.

Section RenameLoop.

(** [F g] applies [g] to the providers array the loop works on, inside
    the spec. *)
Variable F : (value → value) → value → value.
Hypothesis F_compose : ∀ g2 g1 spec, F g2 (F g1 spec) = F (g2 ∘ g1) spec.
Hypothesis F_id : ∀ spec, F id spec = spec.

Let assignAt (i : nat) : M unit :=
  modify (F (alterIndex i (setField "name" (VStr "openfaas")))).

Lemma renameBody_run i p spec :
  isNullish p = false →
  renameBody assignAt (i, p) spec = (Ok tt, F (renameStep i p) spec).
Proof.
  intros Hp. unfold renameBody, renameStep. rewrite getProp_field by done.
  rewrite bind_lift_Ok. destruct (strictEqStr _ _); [done|].
  by rewrite run_ret, F_id.
Qed.

Lemma forOf_renameBody i l spec :
  forallb (λ p, negb (isNullish p)) l = true →
  forOf (entriesFrom i l) (renameBody assignAt) spec = (Ok tt, F (renameFrom i l) spec).
Proof.
  revert i spec. induction l as [|p l IH]; intros i spec Hl; cbn [entriesFrom forOf renameFrom].
  - by rewrite run_ret, F_id.
  - cbn in Hl. apply andb_prop in Hl as [Hp%negb_true_iff Hl].
    unfold bind. rewrite renameBody_run by done.
    by rewrite IH, F_compose.
Qed.

Lemma forOf_renameBody_fail i l spec :
  forallb (λ p, negb (isNullish p)) l = false →
  (forOf (entriesFrom i l) (renameBody assignAt) spec).1 = Throw TypeError.
Proof.
  revert i spec. induction l as [|p l IH]; intros i spec Hl; [done|].
  cbn [entriesFrom forOf]. cbn in Hl. unfold bind.
  destruct (isNullish p) eqn:Hp.
  - by destruct p.
  - rewrite renameBody_run by done. by apply IH.
Qed.

Lemma renameLoop_run providers spec :
  providerListOk providers = true →
  renameLoop providers assignAt spec = (Ok tt, F (renameAll providers) spec).
Proof.
  destruct providers as [| | | | |l|]; try done. cbn [providerListOk]. intros Hl.
  unfold renameLoop. cbn [entries renameAll]. rewrite bind_lift_Ok.
  by apply forOf_renameBody.
Qed.

Lemma renameLoop_fail providers spec :
  providerListOk providers = false →
  (renameLoop providers assignAt spec).1 = Throw TypeError.
Proof.
  unfold renameLoop. destruct providers as [| | | | |l|]; try done.
  cbn [providerListOk entries]. intros Hl.
  rewrite bind_lift_Ok. by apply forOf_renameBody_fail.
Qed.

End RenameLoop.

(** What the composed assignments do to the array they were read from. *)
Lemma renameStep_here pre p l :
  renameStep (length pre) p (VArr (pre ++ p :: l)) = VArr (pre ++ renamedProvider p :: l).
Proof.
  unfold renameStep, renamedProvider. destruct (strictEqStr _ _); [|done].
  cbn [alterIndex]. f_equal.
  replace (length pre) with (length pre + 0) by lia. by rewrite alter_app_r.
Qed.

Lemma renameFrom_here pre l :
  renameFrom (length pre) l (VArr (pre ++ l)) = VArr (pre ++ (renamedProvider <$> l)).
Proof.
  revert pre. induction l as [|p l IH]; intros pre; [done|].
  cbn [renameFrom compose fmap list_fmap]. rewrite renameStep_here.
  rewrite (cons_middle _ pre l), (cons_middle _ pre (_ <$> l)), !(assoc_L (++)).
  specialize (IH (pre ++ [renamedProvider p])).
  rewrite length_app, Nat.add_1_r in IH. exact IH.
Qed.

Lemma renameAll_here providers : renameAll providers providers = renamedProviders providers.
Proof.
  destruct providers as [| | | | |l|]; try done. exact (renameFrom_here [] l).
Qed.

Lemma renamedProviders_not_array providers :
  truthy providers = false → renamedProviders providers = providers.
Proof. by destruct providers. Qed.

Lemma renameEnvironmentStep_here pre env envs :
  renameEnvironmentStep (length pre) env (VArr (pre ++ env :: envs))
  = VArr (pre ++ renamedEnvironment env :: envs).
Proof.
  unfold renameEnvironmentStep, renamedEnvironment.
  destruct (truthy (field "providers" env)) eqn:Hp.
  - cbn [alterIndex]. f_equal.
    replace (length pre) with (length pre + 0) by lia. rewrite alter_app_r.
    cbn. do 2 f_equal. apply alterField_at, renameAll_here.
  - cbn [id]. do 3 f_equal. symmetry. apply alterField_fixed.
    by apply renamedProviders_not_array.
Qed.

Lemma renameEnvironmentsFrom_here pre envs :
  renameEnvironmentsFrom (length pre) envs (VArr (pre ++ envs))
  = VArr (pre ++ (renamedEnvironment <$> envs)).
Proof.
  revert pre. induction envs as [|env envs IH]; intros pre; [done|].
  cbn [renameEnvironmentsFrom compose fmap list_fmap]. rewrite renameEnvironmentStep_here.
  rewrite (cons_middle _ pre envs), (cons_middle _ pre (_ <$> envs)), !(assoc_L (++)).
  specialize (IH (pre ++ [renamedEnvironment env])).
  rewrite length_app, Nat.add_1_r in IH. exact IH.
Qed.

(** The two places the loop runs at. *)
Lemma providers_compose (g2 g1 : value → value) spec :
  alterField "providers" g2 (alterField "providers" g1 spec)
  = alterField "providers" (g2 ∘ g1) spec.
Proof. apply alterField_compose. Qed.

Lemma atEnvironment_compose envIdx (g2 g1 : value → value) spec :
  atEnvironment envIdx g2 (atEnvironment envIdx g1 spec)
  = atEnvironment envIdx (g2 ∘ g1) spec.
Proof.
  unfold atEnvironment. rewrite alterField_compose. apply alterField_ext. intros envs.
  cbn [compose]. rewrite alterIndex_compose. apply alterIndex_ext. intros env.
  cbn [compose]. apply alterField_compose.
Qed.

Lemma atEnvironment_id envIdx spec : atEnvironment envIdx id spec = spec.
Proof.
  unfold atEnvironment. rewrite <- (alterField_id "environments" spec) at 2.
  apply alterField_ext. intros envs. rewrite <- (alterIndex_id envIdx envs) at 2.
  apply alterIndex_ext. intros env. apply alterField_id.
Qed.

Lemma environmentBody_run i env spec :
  environmentOk env = true →
  environmentBody (i, env) spec
  = (Ok tt, alterField "environments" (renameEnvironmentStep i env) spec).
Proof.
  unfold environmentOk. intros [Hn%negb_true_iff Hp]%andb_prop.
  unfold environmentBody, renameEnvironmentStep. rewrite getProp_field by done.
  rewrite bind_lift_Ok. unfold providersOk in Hp.
  destruct (truthy (field "providers" env)); cbn [negb orb] in *.
  - apply (renameLoop_run (atEnvironment i) (atEnvironment_compose i)
             (atEnvironment_id i) _ spec Hp).
  - by rewrite run_ret, alterField_id.
Qed.

Lemma environmentBody_fail i env spec :
  environmentOk env = false → (environmentBody (i, env) spec).1 = Throw TypeError.
Proof.
  unfold environmentOk, environmentBody. destruct (isNullish env) eqn:Hn.
  - by destruct env.
  - cbn [negb andb]. intros Hp. rewrite getProp_field by done. rewrite bind_lift_Ok.
    unfold providersOk in Hp. apply orb_false_iff in Hp as [Ht%negb_false_iff Hl].
    rewrite Ht. cbn [negb].
    apply (renameLoop_fail (atEnvironment i) (atEnvironment_id i) _ spec Hl).
Qed.

Lemma forOf_environmentBody i envs spec :
  forallb environmentOk envs = true →
  forOf (entriesFrom i envs) environmentBody spec
  = (Ok tt, alterField "environments" (renameEnvironmentsFrom i envs) spec).
Proof.
  revert i spec. induction envs as [|env envs IH]; intros i spec Hl;
    cbn [entriesFrom forOf renameEnvironmentsFrom].
  - by rewrite run_ret, alterField_id.
  - cbn in Hl. apply andb_prop in Hl as [He Hl].
    unfold bind. rewrite environmentBody_run by done.
    by rewrite IH, alterField_compose.
Qed.

Lemma forOf_environmentBody_fail i envs spec :
  forallb environmentOk envs = false →
  (forOf (entriesFrom i envs) environmentBody spec).1 = Throw TypeError.
Proof.
  revert i spec. induction envs as [|env envs IH]; intros i spec Hl; [done|].
  cbn [entriesFrom forOf]. cbn in Hl. unfold bind.
  destruct (environmentOk env) eqn:He.
  - rewrite environmentBody_run by done. by apply IH.
  - pose proof (environmentBody_fail i env spec He) as Hf.
    destruct (environmentBody (i, env) spec) as [[[]|e] spec']; cbn in *; congruence.
Qed.

(** ** [removeLocalOpenFaas] as a whole *)

Lemma isNullish_renamedType spec : isNullish (renamedType spec) = isNullish spec.
Proof. unfold renamedType. case_match; by rewrite ?isNullish_setField. Qed.

Lemma field_renamedType k spec : k ≠ "type" → field k (renamedType spec) = field k spec.
Proof.
  intros Hk. unfold renamedType. case_match; [|done]. by apply field_setField_ne.
Qed.

Lemma removeLocalOpenFaas_run spec :
  renameCompletes spec = true →
  removeLocalOpenFaas spec = (Ok tt, renamedSpec spec).
Proof.
  unfold renameCompletes. intros [Hn%negb_true_iff Hok]%andb_prop.
  unfold removeLocalOpenFaas, renamedSpec. do 2 run_step. cbn zeta.
  unfold bind at 1.
  replace ((if strictEqStr (field "type" spec) "local-openfaas" then _ else ret ()) spec)
    with (@Ok unit tt, renamedType spec); last first.
  { unfold renamedType. by destruct (strictEqStr (field "type" spec) _). }
  pose proof (isNullish_renamedType spec) as Hn1. rewrite Hn in Hn1.
  destruct (strictEqStr (field "kind" spec) "Project"); [|by rewrite run_ret].
  cbn [negb orb] in Hok. apply andb_prop in Hok as [Henvs Hprov].
  run_step. rewrite field_renamedType by done.
  destruct (field "environments" spec) as [| | | | |envs|] eqn:Hfe; try done.
  cbn [environmentsOk] in Henvs. cbn [entries]. run_step.
  unfold bind at 1. rewrite forOf_environmentBody by done.
  replace (alterField "environments" (renameEnvironmentsFrom 0 envs) (renamedType spec))
    with (alterField "environments" (mapArray renamedEnvironment) (renamedType spec));
    last first.
  { apply alterField_at. rewrite field_renamedType, Hfe by done.
    symmetry. exact (renameEnvironmentsFrom_here [] envs). }
  set (spec2 := alterField "environments" _ _).
  assert (Hp2 : field "providers" spec2 = field "providers" spec).
  { unfold spec2. by rewrite field_alterField_ne, field_renamedType. }
  assert (Hn2 : isNullish spec2 = false).
  { unfold spec2. by rewrite isNullish_alterField. }
  run_step. rewrite Hp2. unfold providersOk in Hprov.
  destruct (truthy (field "providers" spec)) eqn:Ht; cbn [negb orb] in Hprov.
  - unfold assignProviderName.
    rewrite (renameLoop_run (alterField "providers") providers_compose
               (alterField_id "providers") _ spec2 Hprov).
    f_equal. apply alterField_at. rewrite Hp2. apply renameAll_here.
  - rewrite run_ret. f_equal. symmetry. apply alterField_fixed.
    rewrite Hp2. by apply renamedProviders_not_array.
Qed.

Lemma removeLocalOpenFaas_fail spec :
  renameCompletes spec = false →
  (removeLocalOpenFaas spec).1 = Throw TypeError.
Proof.
  unfold renameCompletes. destruct (isNullish spec) eqn:Hn.
  { intros _. by destruct spec. }
  cbn [negb andb]. intros Hok.
  unfold removeLocalOpenFaas. do 2 run_step. cbn zeta.
  unfold bind at 1.
  replace ((if strictEqStr (field "type" spec) "local-openfaas" then _ else ret ()) spec)
    with (@Ok unit tt, renamedType spec); last first.
  { unfold renamedType. by destruct (strictEqStr (field "type" spec) _). }
  pose proof (isNullish_renamedType spec) as Hn1. rewrite Hn in Hn1.
  destruct (strictEqStr (field "kind" spec) "Project"); [|done].
  cbn [negb orb] in Hok.
  run_step. rewrite field_renamedType by done.
  destruct (environmentsOk (field "environments" spec)) eqn:Henvs.
  - destruct (field "environments" spec) as [| | | | |envs|] eqn:Hfe; try done.
    cbn [environmentsOk] in Henvs. cbn [entries]. run_step.
    unfold bind at 1. rewrite forOf_environmentBody by done.
    set (spec2 := alterField "environments" _ _).
    assert (Hp2 : field "providers" spec2 = field "providers" spec).
    { unfold spec2. by rewrite field_alterField_ne, field_renamedType. }
    assert (Hn2 : isNullish spec2 = false).
    { unfold spec2. by rewrite isNullish_alterField. }
    run_step. rewrite Hp2. cbn [andb] in Hok. unfold providersOk in Hok.
    apply orb_false_iff in Hok as [Ht%negb_false_iff Hl]. rewrite Ht.
    apply (renameLoop_fail (alterField "providers") (alterField_id "providers") _ spec2 Hl).
  - destruct (field "environments" spec) as [| | | | |envs|] eqn:Hfe; try done.
    cbn [environmentsOk] in Henvs. cbn [entries]. run_step.
    unfold bind at 1.
    pose proof (forOf_environmentBody_fail 0 envs (renamedType spec) Henvs) as Hf.
    destruct (forOf _ _ _) as [[[]|e] spec']; cbn in *; congruence.
Qed.

(** ** What the rename leaves behind *)

Lemma field_alterField_eq k (g : value → value) v :
  g VUndefined = VUndefined → field k (alterField k g v) = g (field k v).
Proof.
  intros Hg. destruct v; try done. cbn. rewrite lookup_alter_eq.
  by destruct (m !! k).
Qed.

Lemma field_renamedSpec k spec :
  k ≠ "type" → k ≠ "environments" → k ≠ "providers" →
  field k (renamedSpec spec) = field k spec.
Proof.
  intros Ht He Hp. unfold renamedSpec. case_match.
  - by rewrite !field_alterField_ne, field_renamedType.
  - by apply field_renamedType.
Qed.

Lemma field_providers_renamedSpec spec :
  field "providers" (renamedSpec spec)
  = if strictEqStr (field "kind" spec) "Project"
    then renamedProviders (field "providers" spec) else field "providers" spec.
Proof.
  unfold renamedSpec. case_match.
  - rewrite field_alterField_eq by done.
    by rewrite field_alterField_ne, field_renamedType.
  - by apply field_renamedType.
Qed.

Lemma field_environments_renamedSpec spec :
  field "environments" (renamedSpec spec)
  = if strictEqStr (field "kind" spec) "Project"
    then mapArray renamedEnvironment (field "environments" spec)
    else field "environments" spec.
Proof.
  unfold renamedSpec. case_match.
  - rewrite field_alterField_ne by done. rewrite field_alterField_eq by done.
    by rewrite field_renamedType.
  - by apply field_renamedType.
Qed.

Lemma field_type_renamedType spec :
  strictEqStr (field "type" (renamedType spec)) "local-openfaas" = false.
Proof.
  unfold renamedType. destruct (strictEqStr (field "type" spec) _) eqn:Ht; [|done].
  destruct spec; try done. by rewrite field_setField.
Qed.

Lemma field_type_renamedSpec spec :
  strictEqStr (field "type" (renamedSpec spec)) "local-openfaas" = false.
Proof.
  unfold renamedSpec. case_match.
  - rewrite !field_alterField_ne by done. apply field_type_renamedType.
  - apply field_type_renamedType.
Qed.

Lemma isNullish_renamedSpec spec : isNullish (renamedSpec spec) = isNullish spec.
Proof.
  unfold renamedSpec. case_match;
    by rewrite ?isNullish_alterField, isNullish_renamedType.
Qed.

Lemma settledProvider_renamedProvider p :
  isNullish p = false → settledProvider (renamedProvider p) = true.
Proof.
  intros Hp. unfold settledProvider, renamedProvider.
  destruct (strictEqStr (field "name" p) "local-openfaas") eqn:Hn.
  - destruct p; try done. by rewrite field_setField.
  - by rewrite Hp, Hn.
Qed.

Lemma renamedProvider_settled p : settledProvider p = true → renamedProvider p = p.
Proof.
  unfold settledProvider, renamedProvider.
  intros [_ Hn%negb_true_iff]%andb_prop. by rewrite Hn.
Qed.

Lemma settledProvider_ok p : settledProvider p = true → negb (isNullish p) = true.
Proof. unfold settledProvider. by intros [? _]%andb_prop. Qed.

Lemma settledProviders_renamedProviders providers :
  providersOk providers = true → settledProviders (renamedProviders providers) = true.
Proof.
  unfold providersOk, settledProviders.
  destruct providers as [| | | | |l|]; try (cbn; tauto).
  cbn. intros Hl.
  apply forallb_forall. intros p' [p [<- Hp]]%in_map_iff.
    apply settledProvider_renamedProvider, negb_true_iff.
    by apply (proj1 (forallb_forall _ _) Hl).
Qed.

Lemma renamedProviders_settled providers :
  settledProviders providers = true → renamedProviders providers = providers.
Proof.
  unfold settledProviders. destruct providers as [| | | | |l|]; try done.
  cbn. intros Hl. f_equal. induction l as [|p l IH]; [done|].
  cbn in Hl. apply andb_prop in Hl as [Hp Hl]. cbn.
  by rewrite renamedProvider_settled, IH.
Qed.

Lemma providersOk_settled providers :
  settledProviders providers = true → providersOk providers = true.
Proof.
  unfold settledProviders, providersOk.
  destruct (negb (truthy providers)); [done|]. cbn.
  destruct providers as [| | | | |l|]; try done. cbn. intros Hl.
  apply forallb_forall. intros p Hp. apply settledProvider_ok.
  by apply (proj1 (forallb_forall _ _) Hl).
Qed.

Lemma isNullish_renamedEnvironment env : isNullish (renamedEnvironment env) = isNullish env.
Proof. apply isNullish_alterField. Qed.

Lemma settledEnvironment_renamedEnvironment env :
  environmentOk env = true → settledEnvironment (renamedEnvironment env) = true.
Proof.
  unfold environmentOk, settledEnvironment. intros [Hn Hp]%andb_prop.
  rewrite isNullish_renamedEnvironment, Hn. unfold renamedEnvironment.
  rewrite field_alterField_eq by done. by apply settledProviders_renamedProviders.
Qed.

Lemma renamedEnvironment_settled env :
  settledEnvironment env = true → renamedEnvironment env = env.
Proof.
  unfold settledEnvironment. intros [_ Hp]%andb_prop.
  apply alterField_fixed. by apply renamedProviders_settled.
Qed.

Lemma environmentOk_settled env :
  settledEnvironment env = true → environmentOk env = true.
Proof.
  unfold settledEnvironment, environmentOk. intros [-> Hp]%andb_prop.
  by apply providersOk_settled.
Qed.

Lemma settledEnvironments_renamed environments :
  environmentsOk environments = true →
  settledEnvironments (mapArray renamedEnvironment environments) = true.
Proof.
  destruct environments as [| | | | |l|]; try done. cbn. intros Hl.
  apply forallb_forall. intros e' [e [<- He]]%in_map_iff.
  apply settledEnvironment_renamedEnvironment.
  by apply (proj1 (forallb_forall _ _) Hl).
Qed.

Lemma renamedEnvironments_settled environments :
  settledEnvironments environments = true →
  mapArray renamedEnvironment environments = environments.
Proof.
  destruct environments as [| | | | |l|]; try done. cbn. intros Hl. f_equal.
  induction l as [|e l IH]; [done|].
  cbn in Hl. apply andb_prop in Hl as [He Hl]. cbn.
  by rewrite renamedEnvironment_settled, IH.
Qed.

Lemma environmentsOk_settled environments :
  settledEnvironments environments = true → environmentsOk environments = true.
Proof.
  destruct environments as [| | | | |l|]; try done. cbn. intros Hl.
  apply forallb_forall. intros e He. apply environmentOk_settled.
  by apply (proj1 (forallb_forall _ _) Hl).
Qed.

(** The rename leaves a settled spec, and does nothing on one. *)
Lemma settledSpec_renamedSpec spec :
  renameCompletes spec = true → settledSpec (renamedSpec spec) = true.
Proof.
  unfold renameCompletes, settledSpec. intros [Hn Hok]%andb_prop.
  rewrite isNullish_renamedSpec, Hn, field_type_renamedSpec.
  rewrite field_renamedSpec by done. cbn [negb andb].
  rewrite field_environments_renamedSpec, field_providers_renamedSpec.
  destruct (strictEqStr (field "kind" spec) "Project"); [|done].
  cbn [negb orb] in *. apply andb_prop in Hok as [He Hp].
  by rewrite settledEnvironments_renamed, settledProviders_renamedProviders.
Qed.

Lemma renamedType_settled spec :
  strictEqStr (field "type" spec) "local-openfaas" = false → renamedType spec = spec.
Proof. unfold renamedType. by intros ->. Qed.

Lemma removeLocalOpenFaas_settled spec :
  settledSpec spec = true → removeLocalOpenFaas spec = (Ok tt, spec).
Proof.
  unfold settledSpec.
  intros [[Hn Ht%negb_true_iff]%andb_prop Hok]%andb_prop.
  rewrite removeLocalOpenFaas_run.
  - f_equal. unfold renamedSpec. rewrite renamedType_settled by done.
    destruct (strictEqStr (field "kind" spec) "Project"); [|done].
    cbn [negb orb] in Hok. apply andb_prop in Hok as [He Hp].
    rewrite (alterField_fixed "environments") by by apply renamedEnvironments_settled.
    apply alterField_fixed. by apply renamedProviders_settled.
  - unfold renameCompletes. rewrite Hn. cbn [andb].
    destruct (strictEqStr (field "kind" spec) "Project"); [|done].
    cbn [negb orb] in *. apply andb_prop in Hok as [He Hp].
    by rewrite environmentsOk_settled, providersOk_settled.
Qed.

(** What [removeEnvironmentDefaults] leaves of the fields the rename looks
    at. *)
Lemma field_hoisted k spec :
  k ≠ "varfile" → k ≠ "variables" → k ≠ "providers" → k ≠ "environmentDefaults" →
  field k (hoisted spec) = field k spec.
Proof.
  intros. unfold hoisted.
  by rewrite field_deleteField_ne, field_hoistProviders, field_hoistVariables,
    field_hoistVarfile.
Qed.

Lemma isNullish_deleteField k v : isNullish (deleteField k v) = isNullish v.
Proof. by destruct v. Qed.

Lemma isNullish_hoistProviders spec : isNullish (hoistProviders spec) = isNullish spec.
Proof. unfold hoistProviders. repeat case_match; by rewrite ?isNullish_setField. Qed.

Lemma isNullish_hoisted spec : isNullish (hoisted spec) = isNullish spec.
Proof.
  unfold hoisted.
  by rewrite isNullish_deleteField, isNullish_hoistProviders, isNullish_hoistVariables,
    isNullish_hoistVarfile.
Qed.

Lemma isObject_hoistProviders spec : isObject (hoistProviders spec) = isObject spec.
Proof. unfold hoistProviders. repeat case_match; by rewrite ?isObject_setField. Qed.

Lemma field_deleteField_eq k v : field k (deleteField k v) = VUndefined.
Proof. destruct v; try done. cbn. by rewrite lookup_delete_eq. Qed.

Lemma settledProviders_hoisted spec :
  truthy (field "environmentDefaults" spec) = true →
  settledProviders (field "providers" spec) = true →
  match iterate (field "providers" (field "environmentDefaults" spec)) with
  | Ok l => forallb settledProvider l
  | Throw _ => true
  end = true →
  providersMergeable spec = true →
  settledProviders (field "providers" (hoisted spec)) = true.
Proof.
  intros Hed Hown Hdef Hm.
  destruct (truthy_field_obj _ _ Hed) as [m ->].
  unfold hoisted. rewrite field_deleteField_ne by done.
  unfold hoistProviders. rewrite !field_hoistVariables, !field_hoistVarfile by done.
  unfold providersMergeable in Hm.
  destruct (truthy (field "providers" (field "environmentDefaults" (VObj m)))).
  - cbn [negb orb] in Hm.
    destruct (iterate (orElse _ _)) as [own|] eqn:Hi; [|done].
    destruct (iterate (field "providers" _)) as [defaults|]; [|done].
    rewrite field_setField_eq
      by by rewrite isObject_hoistVariables, isObject_hoistVarfile.
    unfold settledProviders. cbn [truthy negb orb]. rewrite forallb_app, Hdef, andb_true_r.
    revert Hi Hown. unfold orElse, settledProviders.
    destruct (truthy (field "providers" (VObj m))); cbn [negb orb].
    + destruct (field "providers" (VObj m)); try done. by intros [= ->].
    + by intros [= <-].
  - by rewrite field_hoistVariables, field_hoistVarfile.
Qed.

(** A settled spec without wrapper and without defaults is a fixed point of
    the rewrite. *)
Lemma migrateSpec_fixed path spec :
  settledSpec spec = true →
  truthy (field "project" spec) = false →
  truthy (field "module" spec) = false →
  truthy (field "environmentDefaults" spec) = false →
  migrateSpec path spec = Ok spec.
Proof.
  intros Hs Hp Hm Hed.
  assert (Hn : isNullish spec = false).
  { unfold settledSpec in Hs. by destruct (isNullish spec). }
  unfold migrateSpec, applyFlatStyle.
  rewrite !getProp_field by done. cbn [bindO]. rewrite Hp. cbn [bindO]. rewrite Hm.
  cbn [bindO]. unfold bind. rewrite removeLocalOpenFaas_settled by done.
  by rewrite removeEnvironmentDefaults_falsy.
Qed.

Lemma settledSpec_hoisted spec :
  truthy (field "environmentDefaults" spec) = true →
  settledSpec spec = true →
  hoistedProvidersSettled spec = true →
  providersMergeable spec = true →
  settledSpec (hoisted spec) = true.
Proof.
  unfold settledSpec, hoistedProvidersSettled.
  intros Hed [[Hn Ht]%andb_prop Hok]%andb_prop Hdef Hm.
  rewrite isNullish_hoisted, Hn, !field_hoisted by done. rewrite Ht. cbn [andb].
  destruct (strictEqStr (field "kind" spec) "Project"); [|done].
  cbn [negb orb] in *. apply andb_prop in Hok as [He Hp]. rewrite He. cbn [andb].
  by apply settledProviders_hoisted.
Qed.

(** C9, amended.  For every spec on which the rewrite succeeds, whose flat
    form has no truthy [project] or [module] field of its own and, if it is
    a project, whose [environmentDefaults.providers] holds no [null] entry
    and no provider named [local-openfaas], the rewrite of the result
    succeeds and returns it unchanged. *)
Theorem migrateSpec_idempotent (path : string) (spec flat migrated : value) :
  applyFlatStyle spec = Ok flat →
  migrateSpec path spec = Ok migrated →
  truthy (field "project" flat) = false →
  truthy (field "module" flat) = false →
  hoistedProvidersSettled flat = true →
  migrateSpec path migrated = Ok migrated.
Proof.
  intros Hflat Hmig Hproject Hmodule Hdef.
  unfold migrateSpec in Hmig. rewrite Hflat in Hmig. cbn [bindO] in Hmig.
  unfold bind at 1 in Hmig.
  destruct (renameCompletes flat) eqn:Hrc; last first.
  { pose proof (removeLocalOpenFaas_fail flat Hrc) as Hf.
    destruct (removeLocalOpenFaas flat) as [[[]|e] s]; cbn in Hf; done. }
  rewrite removeLocalOpenFaas_run in Hmig by done.
  pose proof (settledSpec_renamedSpec flat Hrc) as Hs.
  assert (Hp1 : truthy (field "project" (renamedSpec flat)) = false)
    by by rewrite field_renamedSpec.
  assert (Hm1 : truthy (field "module" (renamedSpec flat)) = false)
    by by rewrite field_renamedSpec.
  assert (Hd1 : hoistedProvidersSettled (renamedSpec flat) = true).
  { unfold hoistedProvidersSettled in *. by rewrite !field_renamedSpec. }
  assert (Hn1 : isNullish (renamedSpec flat) = false).
  { unfold settledSpec in Hs. by destruct (isNullish (renamedSpec flat)). }
  set (spec1 := renamedSpec flat) in *.
  destruct (truthy (field "environmentDefaults" spec1)) eqn:Hed.
  - destruct (varfileConflict spec1) eqn:Hc.
    { by rewrite removeEnvironmentDefaults_conflict in Hmig. }
    rewrite removeEnvironmentDefaults_run in Hmig by done.
    destruct (providersMergeable spec1) eqn:Hmerge; [|done].
    injection Hmig as <-. apply migrateSpec_fixed.
    + by apply settledSpec_hoisted.
    + by rewrite field_hoisted.
    + by rewrite field_hoisted.
    + unfold hoisted. by rewrite field_deleteField_eq.
  - rewrite removeEnvironmentDefaults_falsy in Hmig by done.
    injection Hmig as <-. by apply migrateSpec_fixed.
Qed.

Lemma migrateSpec_idempotent_witness :
  migrateSpec "garden.yml" (hoisted (renamedSpec legacyProject))
  = Ok (hoisted (renamedSpec legacyProject)).
Proof.
  apply (migrateSpec_idempotent "garden.yml" legacyProject legacyProject);
    vm_compute; reflexivity.
Defined.

(** C9 as stated fails: a [module] wrapper inside a [module] wrapper is
    flattened one level by each run, so the second run changes the result
    of the first. *)
Lemma migrateSpec_not_idempotent :
  ∃ once twice,
    migrateSpec "garden.yml" nestedWrapper = Ok once ∧
    migrateSpec "garden.yml" once = Ok twice ∧
    field "name" once = VUndefined ∧
    field "name" twice = VStr "demo" ∧
    once ≠ twice.
Proof.
  eexists _, _. split; [vm_compute; reflexivity|]. split; [vm_compute; reflexivity|].
  split; [vm_compute; reflexivity|]. split; [vm_compute; reflexivity|].
  intros Heq. apply (f_equal (field "name")) in Heq. vm_compute in Heq. discriminate.
Qed.

(** Not covered by the theorem above: a [local-openfaas] provider under
    [environmentDefaults] is hoisted after the rename has run, so it keeps
    its name in the first run and loses it in the second. *)
Example migrateSpec_legacy_default_twice :
  ∃ once twice,
    migrateSpec "garden.yml" projectWithLegacyDefault = Ok once ∧
    migrateSpec "garden.yml" once = Ok twice ∧
    field "providers" once = VArr [provider "local-openfaas"] ∧
    field "providers" twice = VArr [provider "openfaas"].
Proof.
  eexists _, _. split; [vm_compute; reflexivity|]. split; [vm_compute; reflexivity|].
  split; vm_compute; reflexivity.
Qed.

(** ** The rename on the code *)

(** C4 on the code.  A flat v0.10 project that has top-level providers and
    no [environments]: [removeLocalOpenFaas] throws a [TypeError] at
    [spec.environments.entries()] and leaves the top-level provider named
    [local-openfaas], where the rename has it named [openfaas]. *)
Theorem removeLocalOpenFaas_bareProject :
  ∃ spec',
    removeLocalOpenFaas bareProject = (Throw TypeError, spec') ∧
    field "providers" spec' = VArr [provider "local-openfaas"] ∧
    field "providers" (renamedSpec bareProject) = VArr [provider "openfaas"] ∧
    migrateSpec "garden.yml" bareProject = Throw TypeError.
Proof.
  eexists. split; [vm_compute; reflexivity|]. split; [vm_compute; reflexivity|].
  split; vm_compute; reflexivity.
Qed.



Example removeLocalOpenFaas_legacyProject :
  ∃ spec',
    removeLocalOpenFaas legacyProject = (Ok tt, spec') ∧
    field "providers" spec' = VArr [provider "openfaas"; provider "container"] ∧
    field "environments" spec'
    = VArr [obj [("name", VStr "local");
                 ("providers", VArr [provider "local-kubernetes"; provider "openfaas"])];
            obj [("name", VStr "staging")]] ∧
    field "environmentDefaults" spec' = field "environmentDefaults" legacyProject.
Proof.
  eexists. split; [vm_compute; reflexivity|]. split; [vm_compute; reflexivity|].
  split; vm_compute; reflexivity.
Qed.

(** * Further properties of the rewriters *)

(** ** [removeEnvironmentDefaults] on every spec *)

Lemma removeEnvironmentDefaults_nullish path spec :
  isNullish spec = true → removeEnvironmentDefaults path spec = (Throw TypeError, spec).
Proof. by destruct spec. Qed.

(** How [removeEnvironmentDefaults] ends, on every spec: a [TypeError] on
    [null] and [undefined]; nothing to do without truthy
    [environmentDefaults]; the [ConfigurationError], with the path of the
    config file, on a varfile conflict; otherwise it completes, unless the
    provider lists cannot be spread, which is a [TypeError]. *)
Theorem removeEnvironmentDefaults_outcome (path : string) (spec : value) :
  (removeEnvironmentDefaults path spec).1 =
    if isNullish spec then Throw TypeError
    else if negb (truthy (field "environmentDefaults" spec)) then Ok tt
    else if varfileConflict spec then Throw (ConfigurationError path)
    else if providersMergeable spec then Ok tt
    else Throw TypeError.
Proof.
  destruct (isNullish spec) eqn:Hn.
  { by rewrite removeEnvironmentDefaults_nullish. }
  destruct (truthy (field "environmentDefaults" spec)) eqn:Hed; cbn [negb].
  - destruct (varfileConflict spec) eqn:Hc.
    + by rewrite removeEnvironmentDefaults_conflict.
    + rewrite removeEnvironmentDefaults_run by done.
      by destruct (providersMergeable spec).
  - by rewrite removeEnvironmentDefaults_falsy.
Qed.

(** Whatever the outcome, [removeEnvironmentDefaults] leaves every field
    other than [varfile], [variables], [providers] and
    [environmentDefaults] as it was. *)
Theorem removeEnvironmentDefaults_frame (path : string) (spec : value) (k : string) :
  k ≠ "varfile" → k ≠ "variables" → k ≠ "providers" → k ≠ "environmentDefaults" →
  field k (removeEnvironmentDefaults path spec).2 = field k spec.
Proof.
  intros H1 H2 H3 H4.
  destruct (isNullish spec) eqn:Hn.
  { by rewrite removeEnvironmentDefaults_nullish. }
  destruct (truthy (field "environmentDefaults" spec)) eqn:Hed.
  - destruct (varfileConflict spec) eqn:Hc.
    + by rewrite removeEnvironmentDefaults_conflict.
    + rewrite removeEnvironmentDefaults_run by done.
      destruct (providersMergeable spec); cbn [snd].
      * by apply field_hoisted.
      * by rewrite field_hoistVariables, field_hoistVarfile.
  - by rewrite removeEnvironmentDefaults_falsy.
Qed.

Lemma removeEnvironmentDefaults_frame_witness :
  field "name" (removeEnvironmentDefaults "garden.yml" legacyProject).2
  = field "name" legacyProject.
Proof.
  apply (removeEnvironmentDefaults_frame "garden.yml" legacyProject "name");
    discriminate.
Defined.

(** ** The rewrite of a spec as a whole *)

Lemma varfileConflict_renamedSpec spec :
  varfileConflict (renamedSpec spec) = varfileConflict spec.
Proof. unfold varfileConflict. by rewrite !field_renamedSpec. Qed.

Lemma iterate_renamedProviders providers :
  match iterate (orElse (renamedProviders providers) (VArr [])) with
  | Ok _ => true
  | Throw _ => false
  end
  = match iterate (orElse providers (VArr [])) with
    | Ok _ => true
    | Throw _ => false
    end.
Proof. by destruct providers. Qed.

Lemma providersMergeable_renamedSpec spec :
  providersMergeable (renamedSpec spec) = providersMergeable spec.
Proof.
  unfold providersMergeable. rewrite !field_renamedSpec by done.
  rewrite field_providers_renamedSpec.
  destruct (strictEqStr (field "kind" spec) "Project"); [|done].
  by rewrite iterate_renamedProviders.
Qed.

Lemma migrateSpec_outcome path spec flat :
  applyFlatStyle spec = Ok flat →
  migrateSpec path spec =
    if negb (renameCompletes flat) then Throw TypeError
    else if negb (truthy (field "environmentDefaults" flat)) then Ok (renamedSpec flat)
    else if varfileConflict flat then Throw (ConfigurationError path)
    else if providersMergeable flat then Ok (hoisted (renamedSpec flat))
    else Throw TypeError.
Proof.
  intros Hflat. unfold migrateSpec. rewrite Hflat. cbn [bindO]. unfold bind at 1.
  destruct (renameCompletes flat) eqn:Hrc; cbn [negb].
  - rewrite removeLocalOpenFaas_run by done.
    assert (Hn : isNullish flat = false).
    { unfold renameCompletes in Hrc. by destruct (isNullish flat). }
    destruct (truthy (field "environmentDefaults" flat)) eqn:Hed; cbn [negb] in *.
    + destruct (varfileConflict flat) eqn:Hc.
      * rewrite removeEnvironmentDefaults_conflict; [done|].
        by rewrite varfileConflict_renamedSpec.
      * rewrite removeEnvironmentDefaults_run;
          rewrite ?varfileConflict_renamedSpec, ?field_renamedSpec by done; try done.
        rewrite providersMergeable_renamedSpec.
        by destruct (providersMergeable flat).
    + rewrite removeEnvironmentDefaults_falsy; [done| |].
      * by rewrite isNullish_renamedSpec.
      * by rewrite field_renamedSpec.
  - pose proof (removeLocalOpenFaas_fail flat Hrc) as Hf.
    destruct (removeLocalOpenFaas flat) as [[[]|e] s]; cbn in Hf; congruence.
Qed.

Lemma applyFlatStyle_nullish spec :
  isNullish spec = true → applyFlatStyle spec = Throw TypeError.
Proof. by destruct spec. Qed.

Lemma applyFlatStyle_Ok spec :
  isNullish spec = false → ∃ flat, applyFlatStyle spec = Ok flat.
Proof.
  intros Hn. unfold applyFlatStyle. rewrite !getProp_field by done. cbn [bindO].
  destruct (truthy (field "project" spec)); [eauto|]. cbn [bindO].
  destruct (truthy (field "module" spec)); eauto.
Qed.

(** The rewrite of a spec ends with a [ConfigurationError] exactly when the
    rename has run through on the flat spec and that spec has a truthy
    [varfile] both at top level and under truthy [environmentDefaults]; the
    error carries the path of the config file. *)
Theorem migrateSpec_configuration_error (path p : string) (spec : value) :
  migrateSpec path spec = Throw (ConfigurationError p)
  ↔ p = path ∧
    ∃ flat, applyFlatStyle spec = Ok flat ∧
            renameCompletes flat = true ∧
            varfileConflict flat = true.
Proof.
  destruct (isNullish spec) eqn:Hn.
  { unfold migrateSpec. rewrite applyFlatStyle_nullish by done. split; [done|].
    by intros (_ & flat & [=] & _). }
  destruct (applyFlatStyle_Ok spec Hn) as [flat Hflat].
  rewrite (migrateSpec_outcome path spec flat Hflat). split.
  - intros Hthrow. destruct (renameCompletes flat) eqn:Hrc; cbn [negb] in Hthrow; [|done].
    destruct (truthy (field "environmentDefaults" flat)); cbn [negb] in Hthrow; [|done].
    destruct (varfileConflict flat) eqn:Hc.
    + injection Hthrow as ->. split; [done|]. by exists flat.
    + by destruct (providersMergeable flat).
  - intros (-> & flat' & Hflat' & Hrc & Hc). rewrite Hflat in Hflat'.
    injection Hflat' as <-. rewrite Hrc. cbn [negb].
    assert (Hed : truthy (field "environmentDefaults" flat) = true).
    { unfold varfileConflict in Hc. apply andb_prop in Hc as [Hc _].
      by apply truthy_field_obj in Hc as [ed ->]. }
    by rewrite Hed, Hc.
Qed.

Lemma providersNamed_settled l :
  forallb settledProvider l = true → providersNamed "local-openfaas" l = 0.
Proof.
  unfold providersNamed. induction l as [|p l IH]; [done|]. cbn [forallb].
  intros [Hp Hl]%andb_prop. rewrite filter_cons.
  unfold settledProvider in Hp. apply andb_prop in Hp as [_ Hp%negb_true_iff].
  rewrite decide_False by by rewrite Hp. by apply IH.
Qed.

Lemma settledProviders_named l :
  settledProviders (VArr l) = true → providersNamed "local-openfaas" l = 0.
Proof. unfold settledProviders. cbn. apply providersNamed_settled. Qed.

Lemma migrateSpec_settled path spec flat migrated :
  applyFlatStyle spec = Ok flat →
  migrateSpec path spec = Ok migrated →
  hoistedProvidersSettled flat = true →
  settledSpec migrated = true ∧ truthy (field "environmentDefaults" migrated) = false.
Proof.
  intros Hflat Hmig Hdef. rewrite (migrateSpec_outcome _ _ _ Hflat) in Hmig.
  destruct (renameCompletes flat) eqn:Hrc; cbn [negb] in Hmig; [|done].
  pose proof (settledSpec_renamedSpec flat Hrc) as Hs.
  destruct (truthy (field "environmentDefaults" flat)) eqn:Hed; cbn [negb] in Hmig.
  - destruct (varfileConflict flat); [done|].
    destruct (providersMergeable flat) eqn:Hm; [|done]. injection Hmig as <-.
    split.
    + apply settledSpec_hoisted; rewrite ?field_renamedSpec by done; try done.
      * unfold hoistedProvidersSettled in *. by rewrite !field_renamedSpec.
      * by rewrite providersMergeable_renamedSpec.
    + unfold hoisted. by rewrite field_deleteField_eq.
  - injection Hmig as <-. split; [done|]. by rewrite field_renamedSpec.
Qed.

(** After a successful rewrite, of a spec whose hoisted providers are
    settled, no truthy [environmentDefaults] is left, the type is not
    [local-openfaas], and in a project no provider named [local-openfaas]
    is left, neither at top level nor in an environment. *)
Theorem migrateSpec_leaves_no_legacy_name (path : string) (spec flat migrated : value) :
  applyFlatStyle spec = Ok flat →
  migrateSpec path spec = Ok migrated →
  hoistedProvidersSettled flat = true →
  truthy (field "environmentDefaults" migrated) = false ∧
  field "type" migrated ≠ VStr "local-openfaas" ∧
  (field "kind" migrated = VStr "Project" →
   (∀ l, field "providers" migrated = VArr l → providersNamed "local-openfaas" l = 0) ∧
   (∀ envs env l,
      field "environments" migrated = VArr envs → env ∈ envs →
      field "providers" env = VArr l → providersNamed "local-openfaas" l = 0)).
Proof.
  intros Hflat Hmig Hdef.
  destruct (migrateSpec_settled _ _ _ _ Hflat Hmig Hdef) as [Hs Hed].
  split; [done|]. unfold settledSpec in Hs.
  apply andb_prop in Hs as [[_ Ht%negb_true_iff]%andb_prop Hp].
  split; [by intros Heq; rewrite Heq in Ht|].
  intros Hk. rewrite Hk in Hp. cbn in Hp. apply andb_prop in Hp as [Hes Hps]. split.
  - intros l Hl. rewrite Hl in Hps. by apply settledProviders_named.
  - intros envs env l Hl Hin Hpl. rewrite Hl in Hes. cbn in Hes.
    apply list_elem_of_In in Hin.
    pose proof (proj1 (forallb_forall _ _) Hes env Hin) as He.
    unfold settledEnvironment in He. apply andb_prop in He as [_ He].
    rewrite Hpl in He. by apply settledProviders_named.
Qed.

Lemma migrateSpec_leaves_no_legacy_name_witness :
  truthy (field "environmentDefaults" (hoisted (renamedSpec legacyProject))) = false ∧
  field "type" (hoisted (renamedSpec legacyProject)) ≠ VStr "local-openfaas" ∧
  (field "kind" (hoisted (renamedSpec legacyProject)) = VStr "Project" →
   (∀ l, field "providers" (hoisted (renamedSpec legacyProject)) = VArr l →
         providersNamed "local-openfaas" l = 0) ∧
   (∀ envs env l,
      field "environments" (hoisted (renamedSpec legacyProject)) = VArr envs → env ∈ envs →
      field "providers" env = VArr l → providersNamed "local-openfaas" l = 0)).
Proof.
  apply (migrateSpec_leaves_no_legacy_name "garden.yml" legacyProject legacyProject);
    vm_compute; reflexivity.
Defined.



(** A spec without truthy wrapper is returned unchanged by the rewrite
    exactly when it is settled and has no truthy [environmentDefaults]. *)
Theorem migrateSpec_unchanged_iff (path : string) (spec : value) :
  truthy (field "project" spec) = false →
  truthy (field "module" spec) = false →
  migrateSpec path spec = Ok spec
  ↔ settledSpec spec = true ∧ truthy (field "environmentDefaults" spec) = false.
Proof.
  intros Hp Hm. split.
  - intros Hmig.
    assert (Hn : isNullish spec = false).
    { destruct spec; try done; by vm_compute in Hmig. }
    assert (Hflat : applyFlatStyle spec = Ok spec).
    { unfold applyFlatStyle. rewrite !getProp_field by done. cbn [bindO].
      rewrite Hp. cbn [bindO]. by rewrite Hm. }
    rewrite (migrateSpec_outcome _ _ _ Hflat) in Hmig.
    destruct (renameCompletes spec) eqn:Hrc; cbn [negb] in Hmig; [|done].
    destruct (truthy (field "environmentDefaults" spec)) eqn:Hed; cbn [negb] in Hmig.
    + destruct (varfileConflict spec); [done|].
      destruct (providersMergeable spec); [|done]. injection Hmig as Heq.
      apply (f_equal (field "environmentDefaults")) in Heq.
      unfold hoisted in Heq. rewrite field_deleteField_eq in Heq.
      by rewrite <- Heq in Hed.
    + injection Hmig as Heq. split; [|done].
      rewrite <- Heq. by apply settledSpec_renamedSpec.
  - intros [Hs Hed]. by apply migrateSpec_fixed.
Qed.

Lemma migrateSpec_unchanged_iff_witness :
  migrateSpec "garden.yml" (hoisted (renamedSpec legacyProject))
  = Ok (hoisted (renamedSpec legacyProject))
  ↔ settledSpec (hoisted (renamedSpec legacyProject)) = true ∧
    truthy (field "environmentDefaults" (hoisted (renamedSpec legacyProject))) = false.
Proof.
  apply (migrateSpec_unchanged_iff "garden.yml" (hoisted (renamedSpec legacyProject)));
    vm_compute; reflexivity.
Defined.

(** ** The rename keeps the providers *)

Lemma strictEqStr_eq v s : strictEqStr v s = true ↔ v = VStr s.
Proof.
  destruct v; cbn; try (split; [done|discriminate]).
  rewrite String.eqb_eq. split; [by intros ->|by intros [= ->]].
Qed.

Lemma named_renamedProvider_legacy p :
  strictEqStr (field "name" (renamedProvider p)) "local-openfaas" = false.
Proof.
  unfold renamedProvider. destruct (strictEqStr (field "name" p) _) eqn:Hn; [|done].
  destruct p; try done. by rewrite field_setField.
Qed.

Lemma named_renamedProvider_openfaas p :
  strictEqStr (field "name" (renamedProvider p)) "openfaas"
  = strictEqStr (field "name" p) "openfaas" || strictEqStr (field "name" p) "local-openfaas".
Proof.
  unfold renamedProvider. destruct (strictEqStr (field "name" p) "local-openfaas") eqn:Hn.
  - destruct p; try done. rewrite field_setField. cbn. by rewrite orb_true_r.
  - by rewrite orb_false_r.
Qed.

Lemma named_renamedProvider_other p n :
  n ≠ "openfaas" → n ≠ "local-openfaas" →
  strictEqStr (field "name" (renamedProvider p)) n = strictEqStr (field "name" p) n.
Proof.
  intros Hn1 Hn2. unfold renamedProvider.
  destruct (strictEqStr (field "name" p) "local-openfaas") eqn:Hn; [|done].
  apply strictEqStr_eq in Hn. rewrite Hn. destruct p; try done.
  rewrite field_setField. cbn [strictEqStr].
  rewrite !(proj2 (String.eqb_neq _ _)); congruence.
Qed.

Lemma providersNamed_cons n p l :
  providersNamed n (p :: l)
  = (if strictEqStr (field "name" p) n then 1 else 0) + providersNamed n l.
Proof.
  unfold providersNamed. rewrite filter_cons.
  destruct (strictEqStr (field "name" p) n).
  - by rewrite decide_True.
  - by rewrite decide_False.
Qed.

Lemma providersNamed_renamed l :
  providersNamed "local-openfaas" (renamedProvider <$> l) = 0 ∧
  providersNamed "openfaas" (renamedProvider <$> l)
  = providersNamed "openfaas" l + providersNamed "local-openfaas" l ∧
  ∀ n, n ≠ "openfaas" → n ≠ "local-openfaas" →
       providersNamed n (renamedProvider <$> l) = providersNamed n l.
Proof.
  induction l as [|p l (IH1 & IH2 & IH3)]; [done|].
  rewrite fmap_cons, !providersNamed_cons. split; [|split].
  - by rewrite named_renamedProvider_legacy, IH1.
  - rewrite named_renamedProvider_openfaas, IH2.
    destruct (strictEqStr (field "name" p) "openfaas") eqn:H1,
             (strictEqStr (field "name" p) "local-openfaas") eqn:H2; cbn; try lia.
    apply strictEqStr_eq in H1, H2. congruence.
  - intros n Hn1 Hn2. rewrite !providersNamed_cons.
    by rewrite named_renamedProvider_other, IH3.
Qed.

Lemma removeLocalOpenFaas_Ok spec spec' :
  removeLocalOpenFaas spec = (Ok tt, spec') →
  renameCompletes spec = true ∧ spec' = renamedSpec spec.
Proof.
  intros Hrun. destruct (renameCompletes spec) eqn:Hrc.
  - rewrite removeLocalOpenFaas_run in Hrun by done. by injection Hrun as <-.
  - pose proof (removeLocalOpenFaas_fail spec Hrc) as Hf. by rewrite Hrun in Hf.
Qed.

(** A completed rename of a project keeps the length of the top-level
    provider list; afterwards no provider is named [local-openfaas], the
    providers named [openfaas] are those that were named [openfaas] or
    [local-openfaas], and every other name is carried by as many providers
    as before. *)
Theorem removeLocalOpenFaas_conserves_providers (spec spec' : value) (l : list value) :
  removeLocalOpenFaas spec = (Ok tt, spec') →
  field "kind" spec = VStr "Project" →
  field "providers" spec = VArr l →
  ∃ l',
    field "providers" spec' = VArr l' ∧
    length l' = length l ∧
    providersNamed "local-openfaas" l' = 0 ∧
    providersNamed "openfaas" l'
    = providersNamed "openfaas" l + providersNamed "local-openfaas" l ∧
    ∀ n, n ≠ "openfaas" → n ≠ "local-openfaas" →
         providersNamed n l' = providersNamed n l.
Proof.
  intros [_ ->]%removeLocalOpenFaas_Ok Hk Hl.
  exists (renamedProvider <$> l).
  rewrite field_providers_renamedSpec, Hk, Hl. cbn [strictEqStr].
  rewrite String.eqb_refl. split; [done|]. split; [by rewrite length_fmap|].
  apply providersNamed_renamed.
Qed.

Lemma removeLocalOpenFaas_conserves_providers_witness :
  ∃ l',
    field "providers" (renamedSpec legacyProject) = VArr l' ∧
    length l' = length [provider "local-openfaas"; provider "container"] ∧
    providersNamed "local-openfaas" l' = 0 ∧
    providersNamed "openfaas" l'
    = providersNamed "openfaas" [provider "local-openfaas"; provider "container"]
      + providersNamed "local-openfaas" [provider "local-openfaas"; provider "container"] ∧
    ∀ n, n ≠ "openfaas" → n ≠ "local-openfaas" →
         providersNamed n l'
         = providersNamed n [provider "local-openfaas"; provider "container"].
Proof.
  apply (removeLocalOpenFaas_conserves_providers legacyProject (renamedSpec legacyProject));
    vm_compute; reflexivity.
Defined.

(** ** The probe of a directory *)

Lemma isProjectSpec_truthy spec :
  truthy spec = true →
  isProjectSpec spec
  = Ok (truthy (field "project" spec) || strictEqStr (field "kind" spec) "Project").
Proof.
  intros Hs. unfold isProjectSpec.
  rewrite !getProp_field by by apply truthy_not_nullish. cbn [bindO].
  by destruct (truthy (field "project" spec)).
Qed.

Lemma findSpec_isProjectSpec specs :
  Forall (λ spec, truthy spec = true) specs →
  ∃ found,
    findSpec isProjectSpec specs = Ok found ∧
    (truthy found = true
     ↔ ∃ spec, spec ∈ specs ∧
               (truthy (field "project" spec) = true ∨ field "kind" spec = VStr "Project")).
Proof.
  induction 1 as [|spec specs Hspec Hspecs (found & Hfound & IH)].
  - exists VUndefined. split; [done|]. split; [done|]. intros (spec & Hin & _).
    by apply elem_of_nil in Hin.
  - cbn [findSpec]. rewrite isProjectSpec_truthy by done. cbn [bindO].
    destruct (truthy (field "project" spec) || strictEqStr (field "kind" spec) "Project")
      eqn:Hmatch.
    + exists spec. split; [done|]. split; [|done]. intros _. exists spec.
      split; [left|]. apply orb_prop in Hmatch as [?|?%strictEqStr_eq]; auto.
    + exists found. split; [done|]. rewrite IH. apply orb_false_iff in Hmatch as [Hp Hk].
      split.
      * intros (s & Hin & Hs). exists s. split; [by right|done].
      * intros (s & [->|Hin]%elem_of_cons & Hs); [|by exists s].
        destruct Hs as [Hs|Hs%strictEqStr_eq]; congruence.
Qed.

(** A directory passes the probe of [findRoot] exactly when its config file
    can be read and parsed and one of its documents has a truthy [project]
    field or the kind ["Project"]; empty documents are dropped before they
    are looked at, so they neither match nor make the probe fail. *)
Theorem isProjectRootAt_iff (host : Host) (path : string) :
  isProjectRootAt host path = true
  ↔ ∃ fileData docs spec,
      readFile host (getConfigFilePath host path) = Some fileData ∧
      safeLoadAll host fileData = Some docs ∧
      spec ∈ docs ∧
      (truthy (field "project" spec) = true ∨ field "kind" spec = VStr "Project").
Proof.
  unfold isProjectRootAt, readYaml.
  destruct (readFile host (getConfigFilePath host path)) as [fileData|]; last first.
  { split; [done|]. by intros (? & ? & ? & [=] & _). }
  destruct (safeLoadAll host fileData) as [docs|] eqn:Hload; last first.
  { split; [done|]. intros (? & ? & ? & [= <-] & Hl & _). congruence. }
  destruct (findSpec_isProjectSpec (filter (λ spec, truthy spec = true) docs))
    as (found & -> & Hfound).
  { apply Forall_forall. by intros spec [? _]%list_elem_of_filter. }
  rewrite Hfound. split.
  - intros (spec & [_ Hin]%list_elem_of_filter & Hs). by exists fileData, docs, spec.
  - intros (? & docs' & spec & [= <-] & Hl & Hin & Hs).
    assert (docs' = docs) as -> by congruence. exists spec. split; [|done].
    apply list_elem_of_filter. split; [|done].
    destruct Hs as [Hs|Hs].
    + by apply truthy_field_obj in Hs as [m ->].
    + by destruct spec.
Qed.
(** * Further properties of the analytics handler *)

Section MoreAnalytics.

Variable hasha : value → outcome string.

Lemma track_None this ev : hasOptedIn this = false → track this ev = None.
Proof. unfold track. intros ->. by rewrite andb_false_r. Qed.

Lemma track_sends this ev :
  segment this = true → hasOptedIn this = true → ∃ sent, track this ev = Some sent.
Proof. unfold track. intros -> ->. eauto. Qed.

Lemma perform_eventOf this call :
  perform hasha this call = (ev <~ eventOf hasha this call;; Ok (track this ev)).
Proof.
  destruct call; cbn [perform eventOf bindO]; try done.
  - unfold trackTask. by destruct (hasha taskName).
  - unfold trackApi. by destruct (getProp "command" body).
Qed.

Lemma dom_basic this : dom (getBasicAnalyticsProperties this) = basicKeys.
Proof.
  unfold getBasicAnalyticsProperties, basicKeys.
  rewrite !dom_insert_L, dom_empty_L. set_solver.
Qed.

Lemma eventOf_type this call ev :
  eventOf hasha this call = Ok ev → type ev = callType call.
Proof.
  destruct call; cbn [eventOf callType].
  - by intros [= <-].
  - destruct (hasha taskName); [|done]. by intros [= <-].
  - destruct (getProp "command" body); [|done]. by intros [= <-].
  - by intros [= <-].
  - by intros [= <-].
  - by intros [= <-].
Qed.

Lemma eventOf_dom this call ev :
  eventOf hasha this call = Ok ev → dom (properties ev) = basicKeys ∪ callKeys call.
Proof.
  destruct call; cbn [eventOf callKeys].
  - intros [= <-]. cbn [properties].
    rewrite dom_union_L, dom_singleton_L, dom_basic. done.
  - destruct (hasha taskName); [|done]. intros [= <-]. cbn [properties bindO].
    rewrite dom_insert_L, dom_union_L, !dom_insert_L, dom_empty_L, dom_basic.
    set_solver.
  - destruct (getProp "command" body); [|done]. intros [= <-]. cbn [properties bindO].
    rewrite dom_union_L, !dom_insert_L, dom_empty_L, dom_basic. set_solver.
  - intros [= <-]. cbn [properties]. rewrite dom_insert_L, dom_basic. set_solver.
  - intros [= <-]. cbn [properties]. rewrite dom_insert_L, dom_basic. set_solver.
  - intros [= <-]. cbn [properties]. rewrite dom_insert_L, dom_basic. set_solver.
Qed.

Lemma basic_lookup this k :
  k ∈ basicKeys → is_Some (getBasicAnalyticsProperties this !! k).
Proof. rewrite <- (dom_basic this). apply elem_of_dom. Qed.

(** No call shadows a basic property with one of its own. *)
Lemma eventOf_basic this call ev k :
  eventOf hasha this call = Ok ev → k ∈ basicKeys →
  (properties ev ∪ getBasicAnalyticsProperties this) !! k
  = getBasicAnalyticsProperties this !! k.
Proof.
  intros Hev Hk. destruct (basic_lookup this k Hk) as [v Hv].
  rewrite Hv. apply lookup_union_Some_raw.
  assert (Hne : ∀ k', k' ∉ basicKeys → k' ≠ k).
  { intros k' Hk' ->. done. }
  destruct call; cbn [eventOf] in Hev.
  - injection Hev as <-. cbn [properties]. left. by apply lookup_union_Some_l.
  - destruct (hasha taskName); [|done]. injection Hev as <-. cbn [properties]. left.
    rewrite lookup_insert_ne.
    + by apply lookup_union_Some_l.
    + apply Hne. by apply (bool_decide_unpack _); vm_compute.
  - destruct (getProp "command" body); [|done]. injection Hev as <-.
    cbn [properties]. left. by apply lookup_union_Some_l.
  - injection Hev as <-. cbn [properties]. left. rewrite lookup_insert_ne; [done|].
    apply Hne. by apply (bool_decide_unpack _); vm_compute.
  - injection Hev as <-. cbn [properties]. left. rewrite lookup_insert_ne; [done|].
    apply Hne. by apply (bool_decide_unpack _); vm_compute.
  - injection Hev as <-. cbn [properties]. left. rewrite lookup_insert_ne; [done|].
    apply Hne. by apply (bool_decide_unpack _); vm_compute.
Qed.

Lemma perform_sent this call sent :
  perform hasha this call = Ok (Some sent) →
  ∃ ev, eventOf hasha this call = Ok ev ∧ track this ev = Some sent.
Proof.
  rewrite perform_eventOf. destruct (eventOf hasha this call) as [ev|]; [|done].
  cbn [bindO]. intros [= Hs]. eauto.
Qed.

Lemma perform_opted_out this call sent :
  hasOptedIn this = false → perform hasha this call ≠ Ok (Some sent).
Proof.
  intros Hout Hs. apply perform_sent in Hs as (ev & _ & Hs).
  by rewrite track_None in Hs.
Qed.

Lemma processEvent_opted_out this name payload sent :
  hasOptedIn this = false → processEvent hasha this name payload ≠ Ok (Some sent).
Proof.
  intros Hout. unfold processEvent. destruct (isSupportedEvent name payload); [|done].
  destruct (getProp "batchId" payload) as [b|]; [|done].
  destruct (getProp "name" payload) as [n|]; [|done].
  destruct (getProp "type" payload) as [t|]; [|done]. cbn [bindO].
  apply (perform_opted_out this (CallTask b n t (VStr name)) sent Hout).
Qed.

Lemma deliver_opted_out this subs name payload sent :
  hasOptedIn this = false →
  deliver hasha this subs name payload = Ok sent → sent = [].
Proof.
  intros Hout. revert sent. induction subs as [|s subs IH]; intros sent; cbn [deliver].
  - by intros [= <-].
  - destruct (hears s name).
    + destruct (processEvent hasha this name payload) as [[e|]|] eqn:Hp; [| |done].
      * by apply processEvent_opted_out in Hp.
      * cbn [bindO]. destruct (deliver hasha this subs name payload); [|done].
        cbn [bindO option_list app]. intros [= <-]. by apply IH.
    + cbn [bindO]. destruct (deliver hasha this subs name payload); [|done].
      cbn [bindO option_list app]. intros [= <-]. by apply IH.
Qed.

(** What goes to Segment.  Every event that any of the [track...] methods
    sends carries the user id of the global config and the type of its
    method; its properties are the five basic ones and the ones of the
    method, nothing else; and the basic ones have the values of
    [getBasicAnalyticsProperties], whatever the caller passed: no argument
    of a method shadows a basic property. *)
Theorem sent_event_shape (this : AnalyticsHandler) (call : TrackCall)
    (sent : SegmentEvent) :
  perform hasha this call = Ok (Some sent) →
  segmentUserId sent = userId (globalConfig this) ∧
  event sent = callType call ∧
  dom (segmentProperties sent) = basicKeys ∪ callKeys call ∧
  ∀ k, k ∈ basicKeys →
       segmentProperties sent !! k = getBasicAnalyticsProperties this !! k.
Proof.
  intros (ev & Hev & Hs)%perform_sent.
  unfold track in Hs. destruct (segment this && hasOptedIn this); [|done].
  injection Hs as <-. cbn [segmentUserId event segmentProperties] in *.
  split; [done|]. split; [by eapply eventOf_type|]. split.
  - rewrite dom_union_L, dom_basic, (eventOf_dom _ _ _ Hev).
    by rewrite (comm_L (∪) _ basicKeys), (assoc_L (∪)), union_idemp_L.
  - intros k Hk. by eapply eventOf_basic.
Qed.

(** [setAnalyticsOptIn] writes the [optedIn] key of the store and nothing
    else; after [setAnalyticsOptIn(false)] no method sends an event and no
    event of the bus is tracked, whatever the subscriptions; after
    [setAnalyticsOptIn(true)] every method that does not throw sends its
    event. *)
Theorem setAnalyticsOptIn_switches (this : AnalyticsHandler) :
  (setAnalyticsOptIn this false).2 = WriteOptedIn false ∧
  (setAnalyticsOptIn this true).2 = WriteOptedIn true ∧
  (∀ call sent, perform hasha (setAnalyticsOptIn this false).1 call ≠ Ok (Some sent)) ∧
  (∀ subs name payload sent,
     deliver hasha (setAnalyticsOptIn this false).1 subs name payload = Ok sent →
     sent = []) ∧
  (segment this = true →
   ∀ call, perform hasha (setAnalyticsOptIn this true).1 call ≠ Ok None).
Proof.
  split; [done|]. split; [done|]. split; [|split].
  - intros call sent. by apply perform_opted_out.
  - intros subs name payload sent. by apply deliver_opted_out.
  - intros Hseg call. rewrite perform_eventOf.
    destruct (eventOf _ _ call) as [ev|]; [|done]. cbn [bindO].
    destruct (track_sends (setAnalyticsOptIn this true).1 ev) as [sent ->]; done.
Qed.

End MoreAnalytics.

Lemma sent_event_shape_witness :
  ∃ sent,
    perform markDigest exampleHandler
      (CallApi "POST" (VStr "/api") exampleTaskPayload) = Ok (Some sent) ∧
    segmentUserId sent = "u-1" ∧
    dom (segmentProperties sent)
    = basicKeys ∪ callKeys (CallApi "POST" (VStr "/api") exampleTaskPayload).
Proof.
  eexists. split; [vm_compute; reflexivity|].
  edestruct (sent_event_shape markDigest exampleHandler
               (CallApi "POST" (VStr "/api") exampleTaskPayload))
    as (Hu & _ & Hd & _); [vm_compute; reflexivity|].
  split; [exact Hu|exact Hd].
Defined.

Section InitProps.

Variable hasha : value → outcome string.

Lemma initialize_Ok this0 inputs this effects :
  initialize hasha this0 inputs = Ok (this, effects) →
  let merged := mergeGlobalConfig (globalConfig this0) (globalConfAnalytics inputs) in
  let prompt := firstRun merged || showOptInMessage merged in
  globalConfig this =
    (if prompt then
       {| firstRun := false;
          userId := if truthy (VStr (userId merged)) then userId merged
                    else freshUserId inputs;
          optedIn := true;
          showOptInMessage := false |}
     else merged) ∧
  segment this = segment this0 ∧
  warningPrinted effects = prompt && negb (isCI this0) ∧
  configWritten effects = (if prompt then Some (globalConfig this) else None) ∧
  identified effects =
    (if prompt && segment this0 then Some (userId (globalConfig this)) else None).
Proof.
  unfold initialize. cbn zeta.
  generalize (mergeGlobalConfig (globalConfig this0) (globalConfAnalytics inputs)).
  intros merged. destruct (if truthy _ then _ else _); [|done]. cbn [bindO].
  intros [= <- <-].
  cbn [globalConfig segment warningPrinted configWritten identified].
  destruct (firstRun merged || showOptInMessage merged); cbn [andb optedIn]; [|done].
  by destruct (segment this0).
Qed.

Lemma truthy_VStr s : s ≠ "" → truthy (VStr s) = true.
Proof. by destruct s. Qed.

(** [initialize] never replaces a user id that the store holds: the handler
    keeps it, and what is written back to the store and what is identified
    to Segment, if anything, is that id. *)
Theorem initialize_keeps_user_id (this0 this : AnalyticsHandler) (inputs : InitInputs)
    (effects : InitEffects) (u : string) :
  storedUserId (globalConfAnalytics inputs) = Some u →
  u ≠ "" →
  initialize hasha this0 inputs = Ok (this, effects) →
  userId (globalConfig this) = u ∧
  (∀ c, configWritten effects = Some c → userId c = u) ∧
  (∀ id, identified effects = Some id → id = u).
Proof.
  intros Hu Hne (Hconf & _ & _ & Hw & Hi)%initialize_Ok. cbn zeta in *.
  assert (Hid : userId (globalConfig this) = u).
  { rewrite Hconf. unfold mergeGlobalConfig at 3 4 5. cbn [userId]. rewrite Hu. cbn [default].
    rewrite truthy_VStr by done. by destruct (_ || _); cbn; rewrite ?Hu. }
  split; [done|]. split.
  - intros c. rewrite Hw. destruct (_ || _); [|done]. by intros [= <-].
  - intros id. rewrite Hi. destruct (_ && _); [|done]. by intros [= <-].
Qed.

(** A user who has seen the message ([firstRun] and [showOptInMessage] are
    both stored as false) and is not stored as opted in stays opted out:
    [initialize] prints nothing, writes nothing to the store, identifies
    nobody, and the handler it returns sends no event afterwards, neither
    from a [track...] method nor for an event of the bus. *)
Theorem initialize_respects_opt_out (system : SystemInfo) (ci : bool) (session : string)
    (inputs : InitInputs) (this : AnalyticsHandler) (effects : InitEffects) :
  storedFirstRun (globalConfAnalytics inputs) = Some false →
  storedShowOptInMessage (globalConfAnalytics inputs) = Some false →
  storedOptedIn (globalConfAnalytics inputs) ≠ Some true →
  initialize hasha (newHandler system ci session) inputs = Ok (this, effects) →
  warningPrinted effects = false ∧
  configWritten effects = None ∧
  identified effects = None ∧
  hasOptedIn this = false ∧
  (∀ call sent, perform hasha this call ≠ Ok (Some sent)) ∧
  (∀ name payload sent,
     deliver hasha this (subscriptions effects) name payload = Ok sent → sent = []).
Proof.
  intros Hf Hs Ho (Hconf & _ & Hw & Hc & Hi)%initialize_Ok. cbn zeta in *.
  unfold mergeGlobalConfig in *. cbn [firstRun showOptInMessage] in *.
  rewrite Hf, Hs in *. cbn [default orb andb] in *.
  assert (Hout : hasOptedIn this = false).
  { unfold hasOptedIn. rewrite Hconf. cbn.
    destruct (storedOptedIn _) as [[]|]; cbn; congruence. }
  repeat split; try done.
  - intros call sent. by apply perform_opted_out.
  - intros name payload sent. by apply deliver_opted_out.
Qed.


(** Whenever the store does not hold both [firstRun] and [showOptInMessage]
    as false, [initialize] opts the user in, also one whom the store holds
    as opted out: the new config has [optedIn] true and the stored user id
    (a fresh one if there is none or it is empty), it is written to the
    store, the user is identified to Segment, the message is printed unless
    the run is in CI, and afterwards every method that does not throw sends
    its event. *)
Theorem initialize_prompt_opts_in (system : SystemInfo) (ci : bool) (session : string)
    (inputs : InitInputs) (this : AnalyticsHandler) (effects : InitEffects) :
  storedFirstRun (globalConfAnalytics inputs) ≠ Some false
  ∨ storedShowOptInMessage (globalConfAnalytics inputs) ≠ Some false →
  initialize hasha (newHandler system ci session) inputs = Ok (this, effects) →
  globalConfig this =
    {| firstRun := false;
       userId := match storedUserId (globalConfAnalytics inputs) with
                 | Some u => if String.eqb u "" then freshUserId inputs else u
                 | None => freshUserId inputs
                 end;
       optedIn := true;
       showOptInMessage := false |} ∧
  hasOptedIn this = true ∧
  warningPrinted effects = negb ci ∧
  configWritten effects = Some (globalConfig this) ∧
  identified effects = Some (userId (globalConfig this)) ∧
  ∀ call, perform hasha this call ≠ Ok None.
Proof.
  intros Hprompt Hinit.
  pose proof (initialize_Ok _ _ _ _ Hinit) as (Hconf & Hseg & Hw & Hc & Hi).
  cbn zeta in *.
  assert (Hp : firstRun (mergeGlobalConfig (globalConfig (newHandler system ci session))
                           (globalConfAnalytics inputs))
               || showOptInMessage (mergeGlobalConfig
                                      (globalConfig (newHandler system ci session))
                                      (globalConfAnalytics inputs)) = true).
  { unfold mergeGlobalConfig. cbn.
    destruct (storedFirstRun _) as [[]|], (storedShowOptInMessage _) as [[]|];
      cbn; try done. by destruct Hprompt. }
  rewrite Hp in *. cbn [andb] in *.
  assert (Hconf' : globalConfig this =
    {| firstRun := false;
       userId := match storedUserId (globalConfAnalytics inputs) with
                 | Some u => if String.eqb u "" then freshUserId inputs else u
                 | None => freshUserId inputs
                 end;
       optedIn := true;
       showOptInMessage := false |}).
  { rewrite Hconf. f_equal. unfold mergeGlobalConfig. cbn.
    destruct (storedUserId _) as [[|a u]|]; done. }
  assert (Hin : hasOptedIn this = true).
  { unfold hasOptedIn. by rewrite Hconf'. }
  split; [done|]. split; [done|]. split; [done|]. split; [done|]. split.
  - rewrite Hi. by cbn.
  - intros call. rewrite perform_eventOf.
    destruct (eventOf _ _ call) as [ev|]; [|done]. cbn [bindO].
    destruct (track_sends this ev) as [sent ->]; try done.
Qed.


(** [init] sets the static instance and returns it; [getInstance] then
    returns the same handler, and every further [init] returns it as well
    without running [initialize] again, whatever it is called with.
    [initialize] runs (and has its effects) exactly when no instance was
    there. *)
Theorem init_once (instance : option AnalyticsHandler) (system : SystemInfo) (ci : bool)
    (session : string) (inputs : InitInputs) (handler : AnalyticsHandler)
    (effects : option InitEffects) (instance' : option AnalyticsHandler) :
  init hasha instance system ci session inputs = Ok (handler, effects, instance') →
  instance' = Some handler ∧
  getInstance instance' = inr handler ∧
  (∀ system' ci' session' inputs',
     init hasha instance' system' ci' session' inputs' = Ok (handler, None, instance')) ∧
  (effects = None ↔ instance = Some handler) ∧
  (instance = None →
   ∃ e, initialize hasha (newHandler system ci session) inputs = Ok (handler, e) ∧
        effects = Some e).
Proof.
  unfold init. destruct instance as [h|].
  - intros [= <- <- <-]. repeat split; try done.
  - destruct (initialize _ _ _) as [[h e]|]; [|done]. cbn [bindO fst snd].
    intros [= <- <- <-]. repeat split; try done. intros _. eauto.
Qed.


End InitProps.

Lemma initialize_respects_opt_out_witness :
  ∃ this effects,
    initialize markDigest (newHandler exampleSystem false "s-1")
      (withStore exampleInputs optedOutStore) = Ok (this, effects) ∧
    configWritten effects = None ∧
    ∀ call sent, perform markDigest this call ≠ Ok (Some sent).
Proof.
  edestruct (initialize_respects_opt_out markDigest exampleSystem false "s-1"
               (withStore exampleInputs optedOutStore))
    as (_ & Hc & _ & _ & Hp & _);
    [reflexivity|reflexivity|discriminate|vm_compute; reflexivity|].
  eexists _, _. split; [vm_compute; reflexivity|]. split; [exact Hc|exact Hp].
Defined.

Lemma initialize_prompt_opts_in_witness :
  ∃ this effects,
    initialize markDigest (newHandler exampleSystem false "s-1")
      (withStore exampleInputs
         unseenMessageStore)
    = Ok (this, effects) ∧
    hasOptedIn this = true ∧ userId (globalConfig this) = "u-7".
Proof.
  edestruct (initialize_prompt_opts_in markDigest exampleSystem false "s-1"
               (withStore exampleInputs
                  unseenMessageStore))
    as (Hc & Hin & _); [right; discriminate|vm_compute; reflexivity|].
  eexists _, _. split; [vm_compute; reflexivity|]. split; [exact Hin|].
  rewrite Hc. reflexivity.
Defined.

Lemma init_once_witness :
  ∃ handler effects instance',
    init markDigest None exampleSystem false "s-1" exampleInputs
    = Ok (handler, effects, instance') ∧
    getInstance instance' = inr handler ∧
    init markDigest instance' exampleSystem true "s-2" (withStore exampleInputs optedOutStore)
    = Ok (handler, None, instance').
Proof.
  edestruct (init_once markDigest None exampleSystem false "s-1" exampleInputs)
    as (_ & Hg & Hi & _); [vm_compute; reflexivity|].
  eexists _, _, _. split; [vm_compute; reflexivity|]. split; [exact Hg|apply Hi].
Defined.

Lemma initialize_keeps_user_id_witness :
  ∃ this effects,
    initialize markDigest (newHandler exampleSystem false "s-1")
      (withStore exampleInputs unseenMessageStore) = Ok (this, effects) ∧
    userId (globalConfig this) = "u-7".
Proof.
  edestruct (initialize_keeps_user_id markDigest)
    with (this0 := newHandler exampleSystem false "s-1")
         (inputs := withStore exampleInputs unseenMessageStore) (u := "u-7")
    as (Hu & _); [reflexivity|discriminate|vm_compute; reflexivity|].
  eexists _, _. split; [vm_compute; reflexivity|exact Hu].
Defined.

(** ** The project metadata *)

Lemma uniqueStrings_elem seen l t :
  t ∈ uniqueStrings seen l ↔ t ∈ l ∧ t ∉ seen.
Proof.
  revert seen. induction l as [|s l IH]; intros seen; cbn [uniqueStrings].
  - split; [by intros ?%elem_of_nil|by intros [?%elem_of_nil _]].
  - case_bool_decide as Hs.
    + rewrite IH, elem_of_cons. split; [tauto|]. intros [[->|?] ?]; tauto.
    + rewrite !elem_of_cons, IH, elem_of_cons. split.
      * intros [->|[? ?]]; [tauto|]. split; [tauto|]. tauto.
      * intros [[->|?] ?]; [tauto|]. destruct (decide (t = s)); [tauto|]. right.
        split; [done|]. tauto.
Qed.

Lemma uniqueStrings_NoDup seen l : NoDup (uniqueStrings seen l).
Proof.
  revert seen. induction l as [|s l IH]; intros seen; cbn [uniqueStrings].
  - constructor.
  - case_bool_decide; [apply IH|]. constructor; [|apply IH].
    rewrite uniqueStrings_elem, elem_of_cons. tauto.
Qed.

Lemma length_concat_sum {A} (ls : list (list A)) :
  length (concat ls) = sum_list (length <$> ls).
Proof. induction ls as [|l ls IH]; [done|]. cbn. by rewrite length_app, IH. Qed.

(** The project metadata names each module type once, and only types of
    modules of the graph; the number of tests is the sum over the modules. *)
Theorem projectMetadata_module_types (i : InitInputs) :
  ∃ types,
    field "modulesTypes" (computeProjectMetadata i) = VArr (VStr <$> types) ∧
    NoDup types ∧
    (∀ t, t ∈ types ↔ ∃ m, m ∈ graphModules i ∧ moduleType m = t) ∧
    field "numberOfModules" (computeProjectMetadata i) = numValue (length (graphModules i)) ∧
    field "numberOfTests" (computeProjectMetadata i)
    = numValue (sum_list ((λ m, length (testConfigs m)) <$> graphModules i)).
Proof.
  exists (uniqueStrings [] (moduleType <$> graphModules i)).
  split; [done|]. split; [apply uniqueStrings_NoDup|]. split; [|split; [done|]].
  - intros t. rewrite uniqueStrings_elem, list_elem_of_fmap. split.
    + intros [(m & -> & Hm) _]. eauto.
    + intros (m & Hm & <-). split; [eauto|]. by intros ?%elem_of_nil.
  - unfold computeProjectMetadata, field. simplify_map_eq.
    by rewrite length_concat_sum, <- list_fmap_compose.
Qed.

(** The project metadata is made of the module types and of counts only:
    two config graphs with the same list of module types, the same total of
    tests and the same numbers of tasks and services give the same
    metadata, whatever their modules, tests, tasks and services are
    called. *)
Theorem projectMetadata_counts_only (i i' : InitInputs) :
  moduleType <$> graphModules i = moduleType <$> graphModules i' →
  sum_list ((λ m, length (testConfigs m)) <$> graphModules i)
  = sum_list ((λ m, length (testConfigs m)) <$> graphModules i') →
  length (graphTasks i) = length (graphTasks i') →
  length (graphServices i) = length (graphServices i') →
  computeProjectMetadata i = computeProjectMetadata i'.
Proof.
  intros Htypes Htests Htasks Hservices. unfold computeProjectMetadata.
  rewrite !length_concat_sum, <- !list_fmap_compose.
  change (length ∘ testConfigs) with (λ m, length (testConfigs m)).
  rewrite Htypes, Htests, Htasks, Hservices.
  by rewrite <- (length_fmap moduleType (graphModules i)), Htypes, length_fmap.
Qed.

Lemma projectMetadata_counts_only_witness :
  computeProjectMetadata exampleInputs = computeProjectMetadata otherTestsInputs.
Proof. apply (projectMetadata_counts_only exampleInputs otherTestsInputs); reflexivity. Defined.

(** * The loop of the command and the objects it shares *)

Lemma simulates_ret {A} (a : A) : simulates (mret a) (ret a).
Proof. by intros st Hwf. Qed.

Lemma simulates_throw {A} e : simulates (@throwL A e) (throw e).
Proof. by intros st Hwf. Qed.

Lemma simulates_lift {A} (o : outcome A) : simulates (liftL o) (lift o).
Proof. by intros st Hwf. Qed.

Lemma simulates_bind {A B} (h : L A) (m : M A) (k : A → L B) (k' : A → M B) :
  simulates h m → (∀ a, simulates (k a) (k' a)) → simulates (h ≫= k) (bind m k').
Proof.
  intros Hh Hk st Hwf. destruct (Hh st Hwf) as (Hwf' & Ho & Hc).
  unfold mbind, L_bind, bind.
  destruct (h st) as [[a|e] st'], (m (contents st)) as [o spec']; cbn in *; subst.
  - by apply Hk.
  - done.
Qed.

Lemma simulates_read k : simulates (readL k) (readProp k).
Proof. by intros st Hwf. Qed.

Lemma simulates_read2 k1 k2 : simulates (readL2 k1 k2) (readProp2 k1 k2).
Proof.
  apply simulates_bind; [apply simulates_read|]. intros o. apply simulates_lift.
Qed.

Lemma simulates_forOf {A} (xs : list A) (b : A → L unit) (b' : A → M unit) :
  (∀ x, simulates (b x) (b' x)) → simulates (forOfL xs b) (forOf xs b').
Proof.
  intros Hb. induction xs as [|x xs IH]; cbn [forOfL forOf].
  - apply simulates_ret.
  - apply simulates_bind; [apply Hb|]. by intros _.
Qed.

Lemma simulates_assign k x : simulates (assignL k x) (assign k x).
Proof.
  intros st Hwf. unfold assignL, assign, contents, wellLinked in *. cbn.
  destruct (bound st) as [|w cells]; cbn; [done|]. split; [|split; [done|]].
  - intros k' Hk'. apply Hwf. destruct (decide (k = k')) as [->|].
    + by rewrite lookup_insert_eq in Hk'.
    + by rewrite lookup_insert_ne in Hk'.
  - by rewrite map_imap_insert.
Qed.

Lemma simulates_delete k : simulates (deleteL k) (deleteProp k).
Proof.
  intros st Hwf. unfold deleteL, deleteProp, contents, wellLinked in *. cbn.
  destruct (bound st) as [|w cells]; cbn; [done|]. split; [|split; [done|]].
  - intros k' Hk'. apply Hwf. by apply lookup_delete_Some in Hk' as [_ ?].
  - by rewrite map_imap_delete.
Qed.

Lemma hasKey_alterField k k' f v : hasKey k' (alterField k f v) = hasKey k' v.
Proof.
  destruct v; try done. cbn. apply bool_decide_ext.
  destruct (decide (k = k')) as [->|].
  - rewrite lookup_alter_eq. by rewrite fmap_is_Some.
  - by rewrite lookup_alter_ne.
Qed.

Lemma hasKey_field k v : hasKey k v = true → ∃ m x, v = VObj m ∧ m !! k = Some x.
Proof.
  destruct v; try done. cbn. intros [x Hx]%bool_decide_eq_true. eauto.
Qed.

Lemma simulates_mutate k f : simulates (mutateL k f) (modify (alterField k f)).
Proof.
  intros st Hwf. unfold mutateL, modify, contents, wellLinked in *. cbn.
  destruct st as [r [|w cells]]; cbn in *; [done|].
  destruct (cells !! k) as [[v|]|] eqn:Hk; cbn.
  - split; [|split; [done|]].
    + intros k' Hk'. apply Hwf. destruct (decide (k = k')) as [->|].
      * by rewrite lookup_insert_eq in Hk'.
      * by rewrite lookup_insert_ne in Hk'.
    + rewrite map_imap_insert. f_equal. apply map_eq. intros k'.
      destruct (decide (k = k')) as [<-|].
      * by rewrite lookup_insert_eq, lookup_alter_eq, map_lookup_imap, Hk.
      * by rewrite lookup_insert_ne, lookup_alter_ne.
  - destruct (hasKey_field _ _ (Hwf k Hk)) as (m & x & Hm & Hx).
    destruct (hasKey_field w r) as (rm & y & -> & Hy).
    { destruct r; try done. cbn in *. destruct (m0 !! w); [|done].
      by apply bool_decide_eq_true. }
    cbn in Hm. rewrite Hy in Hm. cbn in Hm. subst y.
    cbn. rewrite lookup_alter_eq, Hy. cbn.
    split; [|split; [done|]].
    + intros k' Hk'. specialize (Hwf k' Hk'). cbn in Hwf. rewrite Hy in Hwf. cbn in *.
      apply bool_decide_eq_true. apply bool_decide_eq_true in Hwf.
      destruct (decide (k = k')) as [->|].
      * rewrite lookup_alter_eq. by rewrite fmap_is_Some.
      * by rewrite lookup_alter_ne.
    + f_equal. apply map_eq. intros k'. rewrite map_lookup_imap.
      destruct (decide (k = k')) as [<-|].
      * rewrite lookup_alter_eq, map_lookup_imap, Hk. cbn.
        by rewrite lookup_alter_eq, Hx.
      * rewrite lookup_alter_ne, map_lookup_imap by done.
        destruct (cells !! k') as [[v|]|]; cbn; try done.
        by rewrite lookup_alter_ne.
  - split; [done|]. split; [done|]. cbn. f_equal. apply map_eq. intros k'.
    destruct (decide (k = k')) as [<-|].
    + by rewrite lookup_alter_eq, map_lookup_imap, Hk.
    + by rewrite lookup_alter_ne.
Qed.

Lemma simulates_renameLoop providers (a : nat → L unit) (a' : nat → M unit) :
  (∀ i, simulates (a i) (a' i)) →
  simulates (renameLoopL providers a) (renameLoop providers a').
Proof.
  intros Ha. apply simulates_bind; [apply simulates_lift|]. intros es.
  apply simulates_forOf. intros [i p]. apply simulates_bind; [apply simulates_lift|].
  intros name. destruct (strictEqStr name "local-openfaas"); [apply Ha|apply simulates_ret].
Qed.

Lemma simulates_removeLocalOpenFaas : simulates removeLocalOpenFaasL removeLocalOpenFaas.
Proof.
  apply simulates_bind; [apply simulates_read|]. intros kind.
  apply simulates_bind; [apply simulates_read|]. intros type.
  apply simulates_bind.
  { destruct (strictEqStr type _); [apply simulates_assign|apply simulates_ret]. }
  intros _. destruct (strictEqStr kind "Project"); [|apply simulates_ret].
  apply simulates_bind; [apply simulates_read|]. intros environments.
  apply simulates_bind; [apply simulates_lift|]. intros envs.
  apply simulates_bind.
  { apply simulates_forOf. intros [i env].
    apply simulates_bind; [apply simulates_lift|]. intros providers.
    destruct (negb (truthy providers)); [apply simulates_ret|].
    apply simulates_renameLoop. intros j. apply simulates_mutate. }
  intros _. apply simulates_bind; [apply simulates_read|]. intros providers.
  destruct (truthy providers); [|apply simulates_ret].
  apply simulates_renameLoop. intros j. apply simulates_mutate.
Qed.

Lemma simulates_removeEnvironmentDefaults path :
  simulates (removeEnvironmentDefaultsL path) (removeEnvironmentDefaults path).
Proof.
  apply simulates_bind; [apply simulates_read|]. intros environmentDefaults.
  destruct (truthy environmentDefaults); [|apply simulates_ret].
  apply simulates_bind; [apply simulates_read2|]. intros defaultVarfile.
  apply simulates_bind.
  { destruct (truthy defaultVarfile); [|apply simulates_ret].
    apply simulates_bind; [apply simulates_read|]. intros varfile.
    destruct (truthy varfile); [apply simulates_throw|].
    apply simulates_bind; [apply simulates_read2|]. intros v. apply simulates_assign. }
  intros _. apply simulates_bind; [apply simulates_read2|]. intros defaultVariables.
  apply simulates_bind.
  { destruct (truthy defaultVariables); [|apply simulates_ret].
    apply simulates_bind; [apply simulates_read|]. intros variables.
    apply simulates_bind; [apply simulates_read2|]. intros merged.
    apply simulates_assign. }
  intros _. apply simulates_bind; [apply simulates_read2|]. intros defaultProviders.
  apply simulates_bind.
  { destruct (truthy defaultProviders); [|apply simulates_ret].
    apply simulates_bind; [apply simulates_read|]. intros providers.
    apply simulates_bind; [apply simulates_lift|]. intros own.
    apply simulates_bind; [apply simulates_read2|]. intros defaults.
    apply simulates_bind; [apply simulates_lift|]. intros hoisted.
    apply simulates_assign. }
  intros _. apply simulates_delete.
Qed.

(** ** What the loop body does to the raw spec *)

Lemma preserves_ret {A} I (a : A) : preserves I (mret a).
Proof. by intros st. Qed.

Lemma preserves_throw {A} I e : preserves I (@throwL A e).
Proof. by intros st. Qed.

Lemma preserves_lift {A} I (o : outcome A) : preserves I (liftL o).
Proof. by intros st. Qed.

Lemma preserves_read I k : preserves I (readL k).
Proof. by intros st. Qed.

Lemma preserves_bind {A B} I (h : L A) (k : A → L B) :
  preserves I h → (∀ a, preserves I (k a)) → preserves I (h ≫= k).
Proof.
  intros Hh Hk st Hst. specialize (Hh st Hst). unfold mbind, L_bind.
  destruct (h st) as [[a|e] st']; cbn in *; [by apply Hk|done].
Qed.

Lemma preserves_read2 I k1 k2 : preserves I (readL2 k1 k2).
Proof. apply preserves_bind; [apply preserves_read|]. intros o. apply preserves_lift. Qed.

Lemma preserves_forOf {A} I (xs : list A) (b : A → L unit) :
  (∀ x, preserves I (b x)) → preserves I (forOfL xs b).
Proof.
  intros Hb. induction xs as [|x xs IH]; cbn [forOfL].
  - apply preserves_ret.
  - apply preserves_bind; [apply Hb|]. by intros _.
Qed.

Lemma preserves_renameLoop I providers (a : nat → L unit) :
  (∀ i, preserves I (a i)) → preserves I (renameLoopL providers a).
Proof.
  intros Ha. apply preserves_bind; [apply preserves_lift|]. intros es.
  apply preserves_forOf. intros [i p]. apply preserves_bind; [apply preserves_lift|].
  intros name. destruct (strictEqStr name "local-openfaas"); [apply Ha|apply preserves_ret].
Qed.

(** [removeLocalOpenFaas] writes to [spec.type] and inside
    [spec.environments] and [spec.providers], [removeEnvironmentDefaults]
    to properties of [spec] only. *)
Lemma preserves_removeLocalOpenFaas I :
  (∀ x, preserves I (assignL "type" x)) →
  (∀ f, preserves I (mutateL "environments" f)) →
  (∀ f, preserves I (mutateL "providers" f)) →
  preserves I removeLocalOpenFaasL.
Proof.
  intros Hassign Henv Hprov.
  apply preserves_bind; [apply preserves_read|]. intros kind.
  apply preserves_bind; [apply preserves_read|]. intros type.
  apply preserves_bind.
  { destruct (strictEqStr type _); [apply Hassign|apply preserves_ret]. }
  intros _. destruct (strictEqStr kind "Project"); [|apply preserves_ret].
  apply preserves_bind; [apply preserves_read|]. intros environments.
  apply preserves_bind; [apply preserves_lift|]. intros envs.
  apply preserves_bind.
  { apply preserves_forOf. intros [i env].
    apply preserves_bind; [apply preserves_lift|]. intros providers.
    destruct (negb (truthy providers)); [apply preserves_ret|].
    apply preserves_renameLoop. intros j. apply Henv. }
  intros _. apply preserves_bind; [apply preserves_read|]. intros providers.
  destruct (truthy providers); [|apply preserves_ret].
  apply preserves_renameLoop. intros j. apply Hprov.
Qed.

Lemma preserves_removeEnvironmentDefaults I path :
  (∀ k x, preserves I (assignL k x)) →
  (∀ k, preserves I (deleteL k)) →
  preserves I (removeEnvironmentDefaultsL path).
Proof.
  intros Hassign Hdelete.
  apply preserves_bind; [apply preserves_read|]. intros environmentDefaults.
  destruct (truthy environmentDefaults); [|apply preserves_ret].
  apply preserves_bind; [apply preserves_read2|]. intros defaultVarfile.
  apply preserves_bind.
  { destruct (truthy defaultVarfile); [|apply preserves_ret].
    apply preserves_bind; [apply preserves_read|]. intros varfile.
    destruct (truthy varfile); [apply preserves_throw|].
    apply preserves_bind; [apply preserves_read2|]. intros v. apply Hassign. }
  intros _. apply preserves_bind; [apply preserves_read2|]. intros defaultVariables.
  apply preserves_bind.
  { destruct (truthy defaultVariables); [|apply preserves_ret].
    apply preserves_bind; [apply preserves_read|]. intros variables.
    apply preserves_bind; [apply preserves_read2|]. intros merged.
    apply Hassign. }
  intros _. apply preserves_bind; [apply preserves_read2|]. intros defaultProviders.
  apply preserves_bind.
  { destruct (truthy defaultProviders); [|apply preserves_ret].
    apply preserves_bind; [apply preserves_read|]. intros providers.
    apply preserves_bind; [apply preserves_lift|]. intros own.
    apply preserves_bind; [apply preserves_read2|]. intros defaults.
    apply preserves_bind; [apply preserves_lift|]. intros hoisted.
    apply Hassign. }
  intros _. apply Hdelete.
Qed.

Lemma isSame_contents st : isSame st → contents st = raw st.
Proof. unfold isSame, contents. by intros ->. Qed.

Lemma isSame_body path : preserves isSame (removeLocalOpenFaasL;; removeEnvironmentDefaultsL path).
Proof.
  apply preserves_bind; [|intros _].
  - apply preserves_removeLocalOpenFaas.
    + intros x st. unfold isSame, assignL. cbn. by intros ->.
    + intros f st. unfold isSame, mutateL. cbn. by intros ->.
    + intros f st. unfold isSame, mutateL. cbn. by intros ->.
  - apply preserves_removeEnvironmentDefaults.
    + intros k x st. unfold isSame, assignL. cbn. by intros ->.
    + intros k st. unfold isSame, deleteL. cbn. by intros ->.
Qed.

Lemma freshOver_removeEnvironmentDefaults w r path :
  preserves (freshOver w r) (removeEnvironmentDefaultsL path).
Proof.
  apply preserves_removeEnvironmentDefaults.
  - intros k x st [Hr [cells Hb]]. unfold freshOver, assignL. cbn. rewrite Hb. cbn. eauto.
  - intros k st [Hr [cells Hb]]. unfold freshOver, deleteL. cbn. rewrite Hb. cbn. eauto.
Qed.

Lemma inPlace_mutate w rm0 m0 k f :
  k = "environments" ∨ k = "providers" →
  preserves (inPlace w rm0 m0) (mutateL k f).
Proof.
  intros Hk st (m & cells & Hr & Hb & Hdom & Hm & Hc). unfold mutateL. cbn.
  rewrite Hb. rewrite (Hc k Hk).
  destruct (m0 !! k) as [x0|] eqn:Hx0; cbn.
  - exists (alter f k m), cells. rewrite Hr. cbn.
    split; [|split; [done|split; [|split; [|done]]]].
    + f_equal. apply map_eq. intros k'. destruct (decide (w = k')) as [<-|].
      * by rewrite lookup_alter_eq, !lookup_insert_eq.
      * by rewrite lookup_alter_ne, !lookup_insert_ne.
    + by rewrite dom_alter_L.
    + intros k' He Hp. rewrite lookup_alter_ne; [by apply Hm|].
      intros ->. by destruct Hk.
  - exists m, cells. by rewrite Hb.
Qed.

Lemma inPlace_assign w rm0 m0 k x :
  k ≠ "environments" → k ≠ "providers" →
  preserves (inPlace w rm0 m0) (assignL k x).
Proof.
  intros He Hp st (m & cells & Hr & Hb & Hdom & Hm & Hc). unfold assignL. cbn.
  rewrite Hb. exists m, (<[k := Own x]> cells). cbn.
  split; [done|]. split; [done|]. split; [done|]. split; [done|].
  intros k' Hk'. rewrite lookup_insert_ne; [by apply Hc|]. intros ->. by destruct Hk'.
Qed.

Lemma inPlace_removeLocalOpenFaas w rm0 m0 :
  preserves (inPlace w rm0 m0) removeLocalOpenFaasL.
Proof.
  apply preserves_removeLocalOpenFaas.
  - intros x. by apply inPlace_assign.
  - intros f. apply inPlace_mutate. by left.
  - intros f. apply inPlace_mutate. by right.
Qed.

Lemma unshared_assign w r k x : preserves (unshared w r) (assignL k x).
Proof.
  intros st (Hr & cells & Hb & Hc). unfold assignL, unshared. cbn. rewrite Hb. cbn.
  split; [done|]. eexists. split; [done|]. intros k'.
  destruct (decide (k = k')) as [<-|].
  - by rewrite lookup_insert_eq.
  - by rewrite lookup_insert_ne.
Qed.

Lemma unshared_mutate w r k f : preserves (unshared w r) (mutateL k f).
Proof.
  intros st (Hr & cells & Hb & Hc). unfold mutateL, unshared. cbn. rewrite Hb.
  destruct (cells !! k) as [[v|]|] eqn:Hk; cbn.
  - split; [done|]. eexists. split; [done|]. intros k'.
    destruct (decide (k = k')) as [<-|].
    + by rewrite lookup_insert_eq.
    + by rewrite lookup_insert_ne.
  - by destruct (Hc k).
  - rewrite Hb. eauto.
Qed.

Lemma unshared_removeLocalOpenFaas w r : preserves (unshared w r) removeLocalOpenFaasL.
Proof.
  apply preserves_removeLocalOpenFaas.
  - intros x. apply unshared_assign.
  - intros f. apply unshared_mutate.
  - intros f. apply unshared_mutate.
Qed.

Lemma contents_flatCells w kind rawSpec wrapped :
  field w rawSpec = wrapped →
  contents {| raw := rawSpec; bound := Fresh w (flatCells kind wrapped) |}
  = VObj (ownProps wrapped ∪ {["kind" := VStr kind]}).
Proof.
  intros Hw. unfold contents. cbn. rewrite Hw. f_equal. apply map_eq. intros k.
  rewrite map_lookup_imap.
  assert (Hkind : ∀ (P : gmap string value) (g : value → cell),
            (∀ x, P !! k = Some x → cellValue wrapped k (g x) = x) →
            ((g <$> P) ∪ {["kind" := Own (VStr kind)]}) !! k
              ≫= (λ c, Some (cellValue wrapped k c))
            = (P ∪ {["kind" := VStr kind]}) !! k).
  { intros P g Hg. rewrite !lookup_union, lookup_fmap.
    destruct (P !! k) as [x|] eqn:Hx; cbn.
    - destruct (({["kind" := Own (VStr kind)]} : gmap string cell) !! k),
               (({["kind" := VStr kind]} : gmap string value) !! k);
        cbn; by rewrite (Hg x eq_refl).
    - destruct (decide (k = "kind")) as [->|Hne].
      + by rewrite !lookup_singleton_eq.
      + by rewrite !lookup_singleton_ne. }
  unfold flatCells. destruct wrapped as [| | | | | |m]; try (by apply Hkind).
  apply (Hkind m). intros x Hx. cbn. by rewrite Hx.
Qed.

Lemma wellLinked_flatCells w kind rawSpec wrapped :
  field w rawSpec = wrapped →
  wellLinked {| raw := rawSpec; bound := Fresh w (flatCells kind wrapped) |}.
Proof.
  intros Hw k. cbn. rewrite Hw. unfold flatCells.
  destruct wrapped as [| | | | | |m]; rewrite lookup_union, lookup_fmap.
  all: try (destruct (ownProps _ !! k); cbn;
            [by destruct (({["kind" := Own (VStr kind)]} : gmap string cell) !! k)|];
            destruct (decide (k = "kind")) as [->|Hne];
            [by rewrite lookup_singleton_eq|by rewrite lookup_singleton_ne]).
  cbn. destruct (m !! k) as [x|] eqn:Hx; cbn.
  - done.
  - destruct (decide (k = "kind")) as [->|Hne].
    + by rewrite lookup_singleton_eq.
    + by rewrite lookup_singleton_ne.
Qed.

(** [spec = applyFlatStyle(spec)] binds [spec] to an object that holds what
    [applyFlatStyle] returns. *)
Lemma bindFlatStyle_applyFlatStyle rawSpec :
  match bindFlatStyle rawSpec with
  | Ok st => applyFlatStyle rawSpec = Ok (contents st) ∧ wellLinked st ∧ raw st = rawSpec
  | Throw e => applyFlatStyle rawSpec = Throw e
  end.
Proof.
  unfold bindFlatStyle, applyFlatStyle.
  destruct (isNullish rawSpec) eqn:Hn; [by destruct rawSpec|].
  rewrite !getProp_field by done. cbn [bindO].
  destruct (truthy (field "project" rawSpec)).
  { rewrite contents_flatCells by done. split; [done|]. split; [|done].
    by apply wellLinked_flatCells. }
  destruct (truthy (field "module" rawSpec)).
  { rewrite contents_flatCells by done. split; [done|]. split; [|done].
    by apply wellLinked_flatCells. }
  done.
Qed.

Lemma simulates_body path :
  simulates (removeLocalOpenFaasL;; removeEnvironmentDefaultsL path)
            (removeLocalOpenFaas;;; removeEnvironmentDefaults path).
Proof.
  apply simulates_bind; [apply simulates_removeLocalOpenFaas|].
  intros _. apply simulates_removeEnvironmentDefaults.
Qed.

(** The spec that is pushed is the one [migrateSpec] gives. *)
Lemma visit_pushed path rawSpec :
  match visit path rawSpec with
  | Ok visited => migrateSpec path rawSpec = Ok visited.1
  | Throw e => migrateSpec path rawSpec = Throw e
  end.
Proof.
  unfold visit, migrateSpec. pose proof (bindFlatStyle_applyFlatStyle rawSpec) as Hb.
  destruct (bindFlatStyle rawSpec) as [st|e]; cbn [bindO]; [|by rewrite Hb].
  destruct Hb as (-> & Hwf & _). cbn [bindO].
  destruct (simulates_body path st Hwf) as (_ & Ho & Hc).
  destruct ((removeLocalOpenFaasL;; removeEnvironmentDefaultsL path) st) as [[[]|e] st'];
    destruct ((removeLocalOpenFaas;;; removeEnvironmentDefaults path) (contents st))
      as [[[]|e'] spec']; cbn in *; congruence.
Qed.

Lemma body_split path st st' :
  (removeLocalOpenFaasL;; removeEnvironmentDefaultsL path) st = (Ok tt, st') →
  ∃ st1, removeLocalOpenFaasL st = (Ok tt, st1) ∧
         removeEnvironmentDefaultsL path st1 = (Ok tt, st').
Proof.
  unfold mbind, L_bind. destruct (removeLocalOpenFaasL st) as [[[]|e] st1]; [eauto|done].
Qed.

Lemma removeLocalOpenFaas_Ok_renamed flat spec' :
  removeLocalOpenFaas flat = (Ok tt, spec') → spec' = renamedSpec flat.
Proof.
  intros Hrun. destruct (renameCompletes flat) eqn:Hc.
  - rewrite removeLocalOpenFaas_run in Hrun by done. congruence.
  - apply removeLocalOpenFaas_fail in Hc. rewrite Hrun in Hc. done.
Qed.

Lemma field_flat k m kind :
  k ≠ "kind" → field k (VObj (m ∪ {["kind" := VStr kind]})) = field k (VObj m).
Proof.
  intros Hk. cbn. rewrite lookup_union, lookup_singleton_ne by done.
  by destruct (m !! k).
Qed.

Lemma truthy_field_present w rawSpec :
  truthy (field w rawSpec) = true →
  ∃ rm0 wrapped, rawSpec = VObj rm0 ∧ rm0 !! w = Some wrapped.
Proof.
  destruct rawSpec as [| | | | | |rm0]; try (cbn; discriminate). cbn.
  destruct (rm0 !! w) as [wrapped|] eqn:Hw; [eauto|cbn; discriminate].
Qed.

Lemma flatCells_shared kind m0 k :
  k ≠ "kind" → flatCells kind (VObj m0) !! k = (λ _, Shared) <$> m0 !! k.
Proof.
  intros Hk. unfold flatCells. rewrite lookup_union, lookup_fmap.
  destruct (m0 !! k); cbn; [|by rewrite lookup_singleton_ne].
  by destruct (({["kind" := Own (VStr kind)]} : gmap string cell) !! k).
Qed.

Lemma flatCells_unshared kind wrapped k :
  isObject wrapped = false → flatCells kind wrapped !! k ≠ Some Shared.
Proof.
  intros Hobj. unfold flatCells.
  assert (∀ P : gmap string value,
            ((Own <$> P) ∪ {["kind" := Own (VStr kind)]}) !! k ≠ Some Shared) as HP.
  { intros P. rewrite lookup_union, lookup_fmap.
    destruct (P !! k); cbn.
    - by destruct (({["kind" := Own (VStr kind)]} : gmap string cell) !! k).
    - destruct (decide (k = "kind")) as [->|Hne].
      + by rewrite lookup_singleton_eq.
      + by rewrite lookup_singleton_ne. }
  destruct wrapped; try apply HP. discriminate.
Qed.

Lemma inPlace_start w kind rm0 m0 :
  rm0 !! w = Some (VObj m0) →
  inPlace w rm0 m0 {| raw := VObj rm0; bound := Fresh w (flatCells kind (VObj m0)) |}.
Proof.
  intros Hw. exists m0, (flatCells kind (VObj m0)). cbn [raw bound].
  split; [by rewrite insert_id|]. split; [done|]. split; [done|]. split; [done|].
  intros k Hk. apply flatCells_shared. by destruct Hk as [->| ->].
Qed.

Lemma unshared_start w kind r wrapped :
  isObject wrapped = false →
  unshared w r {| raw := r; bound := Fresh w (flatCells kind wrapped) |}.
Proof.
  intros Hobj. split; [done|]. eexists. split; [done|].
  intros k. by apply flatCells_unshared.
Qed.

(** The wrapper after [removeLocalOpenFaas] has run on the new object. *)
Lemma renamed_wrapper w rm0 m0 flat st1 :
  inPlace w rm0 m0 st1 →
  (∀ k, k ≠ "kind" → field k flat = field k (VObj m0)) →
  contents st1 = renamedSpec flat →
  raw st1 = alterField w (renamedInPlace flat) (VObj (<[w := VObj m0]> rm0)).
Proof.
  intros (m1 & cells & Hr & Hb & Hdom & Hm & Hcells) Hflat Hcontents.
  rewrite Hr. cbn [alterField]. f_equal. apply map_eq. intros k.
  destruct (decide (w = k)) as [<-|Hne]; last first.
  { by rewrite lookup_alter_ne, !lookup_insert_ne. }
  rewrite lookup_alter_eq, !lookup_insert_eq. cbn [fmap option_fmap option_map]. f_equal.
  assert (Hshared : ∀ k x0, k = "environments" ∨ k = "providers" →
            m0 !! k = Some x0 → m1 !! k = Some (field k (renamedSpec flat))).
  { intros k x0 Hk Hx0. rewrite <- Hcontents. unfold contents. rewrite Hb, Hr.
    cbn [field]. rewrite lookup_insert_eq. cbn [default field].
    rewrite map_lookup_imap, (Hcells k Hk), Hx0. cbn.
    assert (is_Some (m1 !! k)) as [y ->]; [|done].
    apply elem_of_dom. rewrite Hdom. apply elem_of_dom. eauto. }
  assert (Hnone : ∀ k, m0 !! k = None → m1 !! k = None).
  { intros k Hk. apply not_elem_of_dom. rewrite Hdom. by apply not_elem_of_dom. }
  assert (Hat : ∀ k x0, k = "environments" ∨ k = "providers" →
            m0 !! k = Some x0 → field k flat = x0).
  { intros k x0 Hk Hx0. rewrite Hflat; [cbn; by rewrite Hx0|]. by destruct Hk as [->| ->]. }
  unfold renamedInPlace.
  destruct (strictEqStr (field "kind" flat) "Project") eqn:Hkind.
  - cbn [alterField]. f_equal. apply map_eq. intros k.
    destruct (decide (k = "providers")) as [->|Hp].
    { rewrite lookup_alter_eq, lookup_alter_ne by done.
      destruct (m0 !! "providers") as [x0|] eqn:Hx0.
      - rewrite (Hshared "providers" x0) by auto.
        rewrite field_providers_renamedSpec, Hkind.
        by rewrite (Hat "providers" x0) by auto.
      - by rewrite Hnone. }
    rewrite lookup_alter_ne by done.
    destruct (decide (k = "environments")) as [->|He].
    { rewrite lookup_alter_eq.
      destruct (m0 !! "environments") as [x0|] eqn:Hx0.
      - rewrite (Hshared "environments" x0) by auto.
        rewrite field_environments_renamedSpec, Hkind.
        by rewrite (Hat "environments" x0) by auto.
      - by rewrite Hnone. }
    rewrite lookup_alter_ne by done. by apply Hm.
  - f_equal. apply map_eq. intros k.
    destruct (decide (k = "providers")) as [->|Hp].
    { destruct (m0 !! "providers") as [x0|] eqn:Hx0.
      - rewrite (Hshared "providers" x0) by auto.
        rewrite field_providers_renamedSpec, Hkind.
        by rewrite (Hat "providers" x0) by auto.
      - by rewrite Hnone. }
    destruct (decide (k = "environments")) as [->|He].
    { destruct (m0 !! "environments") as [x0|] eqn:Hx0.
      - rewrite (Hshared "environments" x0) by auto.
        rewrite field_environments_renamedSpec, Hkind.
        by rewrite (Hat "environments" x0) by auto.
      - by rewrite Hnone. }
    by apply Hm.
Qed.

Lemma renamedInPlace_not_object flat wrapped :
  isObject wrapped = false → renamedInPlace flat wrapped = wrapped.
Proof. unfold renamedInPlace. intros Hobj. case_match; [|done]. by destruct wrapped. Qed.

(** The raw spec after a turn in which [spec] was bound to a new object. *)
Lemma body_fresh path w kind rawSpec st st' :
  truthy (field w rawSpec) = true →
  st = {| raw := rawSpec; bound := Fresh w (flatCells kind (field w rawSpec)) |} →
  (removeLocalOpenFaasL;; removeEnvironmentDefaultsL path) st = (Ok tt, st') →
  raw st' = alterField w (renamedInPlace (contents st)) rawSpec.
Proof.
  intros (rm0 & wrapped & -> & Hw)%truthy_field_present Hst (st1 & H1 & H2)%body_split.
  assert (Hfw : field w (VObj rm0) = wrapped) by (cbn; by rewrite Hw).
  rewrite Hfw in Hst.
  assert (Hwf : wellLinked st) by (subst st; by apply wellLinked_flatCells).
  assert (Hflat : contents st = VObj (ownProps wrapped ∪ {["kind" := VStr kind]})).
  { subst st. by apply contents_flatCells. }
  destruct (simulates_removeLocalOpenFaas st Hwf) as (_ & Ho1 & Hc1).
  rewrite H1 in Ho1, Hc1. cbn [fst snd] in Ho1, Hc1.
  assert (Hcontents : contents st1 = renamedSpec (contents st)).
  { apply removeLocalOpenFaas_Ok_renamed. rewrite Hc1, Ho1.
    by destruct (removeLocalOpenFaas (contents st)) as [[[]|e] spec']. }
  assert (raw st1 = alterField w (renamedInPlace (contents st)) (VObj rm0)
          ∧ ∃ cells, bound st1 = Fresh w cells) as [Hraw1 Hfresh].
  { destruct (isObject wrapped) eqn:Hobj.
    - destruct wrapped as [| | | | | |m0]; try discriminate.
      pose proof (inPlace_removeLocalOpenFaas w rm0 m0 st) as Hin.
      rewrite H1 in Hin. cbn [snd] in Hin.
      assert (Hin1 : inPlace w rm0 m0 st1).
      { apply Hin. subst st. by apply inPlace_start. }
      split.
      + rewrite (renamed_wrapper w rm0 m0 (contents st) st1 Hin1); [by rewrite insert_id| |done].
        intros k Hk. rewrite Hflat. by apply field_flat.
      + destruct Hin1 as (m1 & cells & _ & Hb & _). eauto.
    - pose proof (unshared_removeLocalOpenFaas w (VObj rm0) st) as Hun.
      rewrite H1 in Hun. cbn [snd] in Hun.
      destruct Hun as (Hr & cells & Hb & _).
      { subst st. by apply unshared_start. }
      split; [|eauto]. rewrite Hr. symmetry. apply alterField_fixed.
      rewrite Hfw. by apply renamedInPlace_not_object. }
  pose proof (freshOver_removeEnvironmentDefaults w (raw st1) path st1) as Hkeep.
  rewrite H2 in Hkeep. cbn [snd] in Hkeep. destruct Hkeep as [Hr _]; [done|].
  by rewrite Hr.
Qed.

(** One turn of the loop: the spec that is pushed is the one [migrateSpec]
    gives, and the raw spec is left as [rawAfter] says. *)
Lemma visit_outcome path rawSpec :
  visit path rawSpec =
    (flat <~ applyFlatStyle rawSpec;;
     migrated <~ migrateSpec path rawSpec;;
     Ok (migrated, rawAfter rawSpec flat migrated)).
Proof.
  pose proof (visit_pushed path rawSpec) as Hpushed.
  pose proof (bindFlatStyle_applyFlatStyle rawSpec) as Hbind.
  unfold visit in *.
  destruct (bindFlatStyle rawSpec) as [st|e] eqn:Hst; cbn [bindO] in *;
    [|by rewrite Hbind].
  destruct Hbind as (Hflat & Hwf & Hraw). rewrite Hflat. cbn [bindO].
  destruct ((removeLocalOpenFaasL;; removeEnvironmentDefaultsL path) st)
    as [[[]|e] st'] eqn:Hbody; [|by rewrite Hpushed].
  cbn [fst] in Hpushed. rewrite Hpushed. cbn [bindO]. do 2 f_equal.
  unfold bindFlatStyle, rawAfter in *.
  destruct (isNullish rawSpec) eqn:Hn; [by destruct rawSpec|].
  rewrite !getProp_field in Hst by done. cbn [bindO] in Hst.
  destruct (truthy (field "project" rawSpec)) eqn:Hp.
  { injection Hst as Hst. eapply body_fresh; [done|by symmetry|done]. }
  destruct (truthy (field "module" rawSpec)) eqn:Hm.
  { injection Hst as Hst. eapply body_fresh; [done|by symmetry|done]. }
  injection Hst as Hst.
  pose proof (isSame_body path st) as Hsame. rewrite Hbody in Hsame. cbn [snd] in Hsame.
  symmetry. apply isSame_contents, Hsame. by subst st.
Qed.

(** ** Deep equality *)

Lemma map_fold_all {A} (g : string → A → bool) (m : gmap string A) :
  map_fold (λ k x acc, acc && g k x) true m = true
  ↔ ∀ k x, m !! k = Some x → g k x = true.
Proof.
  apply (map_fold_weak_ind
           (λ r m, r = true ↔ ∀ k x, m !! k = Some x → g k x = true)).
  - split; [|done]. intros _ k x. by rewrite lookup_empty.
  - intros i x m' r Hi IH. rewrite andb_true_iff, IH. split.
    + intros [Hm Hx] k y. destruct (decide (i = k)) as [<-|Hne].
      * rewrite lookup_insert_eq. by intros [= <-].
      * rewrite lookup_insert_ne by done. apply Hm.
    + intros Hall. split.
      * intros k y Hk. apply Hall. rewrite lookup_insert_ne; [done|]. by intros <-; simplify_eq.
      * apply Hall. by rewrite lookup_insert_eq.
Qed.

Lemma isEqual_VObj m1 m2 :
  isEqual (VObj m1) (VObj m2) = true
  ↔ size m1 = size m2 ∧
    ∀ k x, m1 !! k = Some x → ∃ y, m2 !! k = Some y ∧ isEqual x y = true.
Proof.
  cbn [isEqual]. rewrite andb_true_iff, Nat.eqb_eq, map_fold_all.
  split; intros [Hsize Hall]; (split; [done|]); intros k x Hx; specialize (Hall k x Hx).
  - destruct (m2 !! k) as [y|]; [eauto|done].
  - by destruct Hall as (y & -> & Hy).
Qed.

Lemma isEqual_VArr l1 l2 :
  isEqual (VArr l1) (VArr l2) = true ↔ Forall2 (λ x y, isEqual x y = true) l1 l2.
Proof.
  cbn [isEqual]. revert l2. induction l1 as [|x l1 IH]; intros [|y l2].
  - split; [constructor|done].
  - split; [done|]. intros H. inversion H.
  - split; [done|]. intros H. inversion H.
  - rewrite andb_true_iff, IH. split.
    + intros [Hx Hl]. by constructor.
    + intros H. inversion H. by subst.
Qed.

Lemma nodes_lookup m k x : m !! k = Some x → nodes x < nodes (VObj m).
Proof.
  intros Hk. cbn [nodes]. rewrite (map_fold_delete_L _ _ k x m); [lia| |done].
  intros. lia.
Qed.

Lemma nodes_elem l x : x ∈ l → nodes x < nodes (VArr l).
Proof.
  cbn [nodes]. induction 1 as [x l|x y l Hin IH]; cbn [foldr]; lia.
Qed.

(** Induction on values: a property of the elements of an array carries
    over to the array, one of the values of an object to the object. *)
Lemma value_induction (P : value → Prop) :
  P VUndefined → P VNull → (∀ b, P (VBool b)) → (∀ x, P (VNum x)) → (∀ s, P (VStr s)) →
  (∀ l, Forall P l → P (VArr l)) →
  (∀ m, map_Forall (λ _, P) m → P (VObj m)) →
  ∀ v, P v.
Proof.
  intros Hu Hn Hb Hx Hs Ha Ho v.
  remember (nodes v) as n eqn:Hn'. revert v Hn'.
  induction n as [n IH] using lt_wf_ind. intros v ->.
  destruct v as [| | | | |l|m]; try done.
  - apply Ha, Forall_forall. intros x Hin. eapply IH; [|done]. by apply nodes_elem.
  - apply Ho. intros k x Hk. eapply IH; [|done]. by eapply nodes_lookup.
Qed.

Lemma sameValueZero_refl x : sameValueZero x x = true.
Proof. unfold sameValueZero. by destruct (PrimFloat.eqb x x). Qed.

Lemma isEqual_refl v : isEqual v v = true.
Proof.
  induction v as [| |b|x|s|l IH|m IH] using value_induction; try done.
  - by destruct b.
  - apply sameValueZero_refl.
  - apply String.eqb_refl.
  - apply isEqual_VArr. induction IH; by constructor.
  - apply isEqual_VObj. split; [done|]. intros k x Hk. exists x. split; [done|].
    by apply (IH k).
Qed.

Lemma isEqual_dom m1 m2 : isEqual (VObj m1) (VObj m2) = true → dom m1 = dom m2.
Proof.
  intros [Hsize Hall]%isEqual_VObj.
  apply set_subseteq_size_eq.
  - intros k [x Hx]%elem_of_dom. destruct (Hall k x Hx) as (y & Hy & _).
    apply elem_of_dom. eauto.
  - rewrite !size_dom. lia.
Qed.

(** Equal values have equal fields, and as many keys. *)
Lemma isEqual_field k a b : isEqual a b = true → isEqual (field k a) (field k b) = true.
Proof.
  destruct a as [| | | | | |m1], b as [| | | | | |m2]; try done.
  intros Heq. pose proof (isEqual_dom _ _ Heq) as Hdom.
  apply isEqual_VObj in Heq as [_ Hall]. cbn.
  destruct (m1 !! k) as [x|] eqn:Hx.
  - destruct (Hall k x Hx) as (y & -> & Hy). done.
  - assert (m2 !! k = None) as ->; [|done].
    apply not_elem_of_dom. rewrite <- Hdom. by apply not_elem_of_dom.
Qed.

Lemma isEqual_hasKey k a b : isEqual a b = true → hasKey k a = hasKey k b.
Proof.
  destruct a as [| | | | | |m1], b as [| | | | | |m2]; try done.
  intros Hdom%isEqual_dom. cbn. apply bool_decide_ext.
  by rewrite <- !elem_of_dom, Hdom.
Qed.

(** ** The loop over the documents of a file *)

Lemma migrateSpec_applyFlatStyle_Throw path rawSpec e :
  applyFlatStyle rawSpec = Throw e → migrateSpec path rawSpec = Throw e.
Proof. unfold migrateSpec. by intros ->. Qed.

Lemma visit_leftBehind path rawSpec :
  visit path rawSpec =
    (migrated <~ migrateSpec path rawSpec;; Ok (migrated, leftBehind path rawSpec)).
Proof.
  rewrite visit_outcome. unfold leftBehind.
  destruct (applyFlatStyle rawSpec) as [flat|e] eqn:Hflat; cbn [bindO].
  - by destruct (migrateSpec path rawSpec).
  - by rewrite (migrateSpec_applyFlatStyle_Throw _ _ _ Hflat).
Qed.

Lemma visitAll_outcome path rawSpecs :
  visitAll path rawSpecs =
    (migrated <~ migrateAll path rawSpecs;; Ok (migrated, leftBehind path <$> rawSpecs)).
Proof.
  induction rawSpecs as [|rawSpec rest IH]; [done|].
  cbn [visitAll migrateAll]. rewrite visit_leftBehind, IH.
  destruct (migrateSpec path rawSpec) as [migrated|e]; [|done]. cbn [bindO].
  by destruct (migrateAll path rest).
Qed.

Lemma migrateAll_Forall2 path rawSpecs migrated :
  migrateAll path rawSpecs = Ok migrated
  ↔ Forall2 (λ rawSpec spec, migrateSpec path rawSpec = Ok spec) rawSpecs migrated.
Proof.
  revert migrated. induction rawSpecs as [|rawSpec rest IH]; intros migrated.
  - cbn. split; [intros [= <-]; constructor|]. by intros ->%Forall2_nil_inv_l.
  - cbn [migrateAll]. split.
    + destruct (migrateSpec path rawSpec) as [spec|] eqn:Hs; [|done]. cbn [bindO].
      destruct (migrateAll path rest) as [others|]; [|done]. cbn [bindO].
      intros [= <-]. constructor; [done|]. by apply IH.
    + intros (spec & others & Hs & Ho & ->)%Forall2_cons_inv_l.
      rewrite Hs. cbn [bindO]. apply IH in Ho as ->. done.
Qed.

Lemma renamedInPlace_settled flat wrapped :
  (∀ k, k ≠ "kind" → field k flat = field k wrapped) →
  negb (strictEqStr (field "kind" flat) "Project")
  || settledEnvironments (field "environments" flat)
     && settledProviders (field "providers" flat) = true →
  renamedInPlace flat wrapped = wrapped.
Proof.
  intros Hflat Hs. unfold renamedInPlace.
  destruct (strictEqStr (field "kind" flat) "Project"); [|done].
  cbn [negb orb] in Hs. apply andb_prop in Hs as [He Hp].
  rewrite Hflat in He, Hp by done.
  rewrite (alterField_fixed "environments") by by apply renamedEnvironments_settled.
  apply alterField_fixed. by apply renamedProviders_settled.
Qed.

Lemma field_ownProps_flat k wrapped kind :
  k ≠ "kind" → isObject wrapped = true →
  field k (VObj (ownProps wrapped ∪ {["kind" := VStr kind]})) = field k wrapped.
Proof. intros Hk Hobj. destruct wrapped; try done. by apply field_flat. Qed.

(** A spec in wrapper style in which nothing is renamed is left as it
    was read. *)
Lemma leftBehind_wrappedUnrenamed path rawSpec :
  wrappedUnrenamed rawSpec = true → leftBehind path rawSpec = rawSpec.
Proof.
  unfold wrappedUnrenamed, isWrapped, leftBehind.
  intros [Hw Hs]%andb_prop.
  destruct (applyFlatStyle rawSpec) as [flat|] eqn:Hflat; [|done].
  destruct (migrateSpec path rawSpec) as [migrated|]; [|done].
  assert (Hn : isNullish rawSpec = false) by by destruct rawSpec.
  unfold applyFlatStyle in Hflat. rewrite !getProp_field in Hflat by done.
  cbn [bindO] in Hflat. unfold rawAfter.
  assert (Hfix : ∀ w kind, flat = VObj (ownProps (field w rawSpec) ∪ {["kind" := VStr kind]}) →
            alterField w (renamedInPlace flat) rawSpec = rawSpec).
  { intros w kind ->. apply alterField_fixed.
    destruct (isObject (field w rawSpec)) eqn:Hobj.
    - apply renamedInPlace_settled; [|done]. intros k Hk. by apply field_ownProps_flat.
    - by apply renamedInPlace_not_object. }
  destruct (truthy (field "project" rawSpec)).
  { injection Hflat as <-. by eapply Hfix. }
  cbn [orb] in Hw. rewrite Hw in *. injection Hflat as <-. by eapply Hfix.
Qed.

(** A spec in flat style is left as the spec that is pushed. *)
Lemma leftBehind_flat path rawSpec migrated :
  isWrapped rawSpec = false →
  migrateSpec path rawSpec = Ok migrated →
  leftBehind path rawSpec = migrated.
Proof.
  unfold isWrapped, leftBehind. intros [Hp Hm]%orb_false_elim Hmig. rewrite Hmig.
  destruct (applyFlatStyle rawSpec) as [flat|e] eqn:Hflat.
  - unfold rawAfter. by rewrite Hp, Hm.
  - by rewrite (migrateSpec_applyFlatStyle_Throw _ _ _ Hflat) in Hmig.
Qed.

Lemma leftBehind_all_flat path rawSpecs migrated :
  Forall (λ rawSpec, isWrapped rawSpec = false) rawSpecs →
  migrateAll path rawSpecs = Ok migrated →
  leftBehind path <$> rawSpecs = migrated.
Proof.
  intros Hflat Hmig%migrateAll_Forall2.
  induction Hmig as [|rawSpec spec rest others Hs Hmig IH]; [done|].
  apply Forall_cons in Hflat as [Hf Hflat]. cbn.
  by rewrite (leftBehind_flat _ _ _ Hf Hs), IH.
Qed.

Lemma applyFlatStyle_flat rawSpec :
  isNullish rawSpec = false → isWrapped rawSpec = false →
  applyFlatStyle rawSpec = Ok rawSpec.
Proof.
  unfold isWrapped, applyFlatStyle. intros Hn [Hp Hm]%orb_false_elim.
  rewrite !getProp_field by done. cbn [bindO]. by rewrite Hp, Hm.
Qed.

(** The environment defaults of a spec in flat style are gone from the
    spec that is pushed. *)
Lemma migrateSpec_flat_defaults path rawSpec migrated :
  isWrapped rawSpec = false →
  truthy (field "environmentDefaults" rawSpec) = true →
  migrateSpec path rawSpec = Ok migrated →
  hasKey "environmentDefaults" migrated = false.
Proof.
  intros Hf Hed Hmig.
  assert (Hn : isNullish rawSpec = false) by by destruct rawSpec.
  rewrite (migrateSpec_outcome _ _ _ (applyFlatStyle_flat _ Hn Hf)) in Hmig.
  destruct (renameCompletes rawSpec); [|done]. cbn [negb] in Hmig.
  rewrite Hed in Hmig. cbn [negb] in Hmig.
  destruct (varfileConflict rawSpec); [done|].
  destruct (providersMergeable rawSpec); [|done].
  injection Hmig as <-. apply hasKey_deleteField.
Qed.

Lemma truthy_field_hasKey k v : truthy (field k v) = true → hasKey k v = true.
Proof.
  destruct v; try done. cbn. destruct (m !! k); [|done]. intros _.
  by apply bool_decide_eq_true.
Qed.

(** The loop over the documents of a file, as a function on trees: the
    specs that are pushed are those [migrateSpec] gives, and the file is
    updated unless [isEqual] finds the raw specs, as the loop leaves them,
    equal to the copy taken before. *)
Theorem migrateConfig_outcome (host : CommandHost) (configPath : string)
    (rawSpecs : list value) :
  readYaml (files host) configPath = inr rawSpecs →
  migrateConfig host configPath =
    match migrateAll configPath rawSpecs with
    | Throw e => inl (SpecError e)
    | Ok migrated =>
        if isEqual (VArr (leftBehind configPath <$> rawSpecs)) (VArr rawSpecs)
        then inr None
        else inr (Some {| path := configPath; specs := migrated |})
    end.
Proof.
  intros Hread. unfold migrateConfig. rewrite Hread, visitAll_outcome.
  by destruct (migrateAll configPath rawSpecs).
Qed.

Lemma migrateConfig_outcome_witness :
  ∃ migrated,
    migrateAll "/work/flat/garden.yml" [legacyProject] = Ok migrated ∧
    migrateConfig commandHost "/work/flat/garden.yml"
    = inr (Some {| path := "/work/flat/garden.yml"; specs := migrated |}).
Proof.
  eexists. split; [vm_compute; reflexivity|].
  rewrite (migrateConfig_outcome commandHost "/work/flat/garden.yml" [legacyProject]);
    vm_compute; reflexivity.
Defined.

(** A file whose documents are all in flat style is updated exactly when
    [isEqual] tells a migrated spec from the one that was read: the
    rewriters write to the documents themselves.  So a file in which every
    spec is settled and without [environmentDefaults] is left alone, and a
    file in which some spec has [environmentDefaults] is updated whenever
    the rewrite gets through. *)
Theorem migrateConfig_flat (host : CommandHost) (configPath : string)
    (rawSpecs : list value) :
  readYaml (files host) configPath = inr rawSpecs →
  Forall (λ rawSpec, isWrapped rawSpec = false) rawSpecs →
  migrateConfig host configPath =
    match migrateAll configPath rawSpecs with
    | Throw e => inl (SpecError e)
    | Ok migrated =>
        if isEqual (VArr migrated) (VArr rawSpecs) then inr None
        else inr (Some {| path := configPath; specs := migrated |})
    end
  ∧ (Forall (λ rawSpec, settledSpec rawSpec = true
                        ∧ truthy (field "environmentDefaults" rawSpec) = false) rawSpecs →
     migrateConfig host configPath = inr None)
  ∧ (Exists (λ rawSpec, truthy (field "environmentDefaults" rawSpec) = true) rawSpecs →
     ∀ migrated, migrateAll configPath rawSpecs = Ok migrated →
       migrateConfig host configPath
       = inr (Some {| path := configPath; specs := migrated |})).
Proof.
  intros Hread Hflat.
  assert (Hclosed : migrateConfig host configPath =
    match migrateAll configPath rawSpecs with
    | Throw e => inl (SpecError e)
    | Ok migrated =>
        if isEqual (VArr migrated) (VArr rawSpecs) then inr None
        else inr (Some {| path := configPath; specs := migrated |})
    end).
  { unfold migrateConfig. rewrite Hread, visitAll_outcome.
    destruct (migrateAll configPath rawSpecs) as [migrated|] eqn:Hmig; [|done].
    cbn [bindO]. by rewrite (leftBehind_all_flat _ _ _ Hflat Hmig). }
  split; [done|]. split.
  - intros Hsettled. rewrite Hclosed.
    assert (migrateAll configPath rawSpecs = Ok rawSpecs) as ->.
    { apply migrateAll_Forall2. clear Hread Hclosed.
      induction rawSpecs as [|rawSpec rest IH]; [constructor|].
      apply Forall_cons in Hflat as [[Hp Hm]%orb_false_elim Hflat].
      apply Forall_cons in Hsettled as [[Hs Hed] Hsettled].
      constructor; [by apply migrateSpec_fixed|by apply IH]. }
    by rewrite isEqual_refl.
  - intros Hed migrated Hmig. rewrite Hclosed, Hmig.
    destruct (isEqual (VArr migrated) (VArr rawSpecs)) eqn:Heq; [exfalso|done].
    apply isEqual_VArr in Heq. apply migrateAll_Forall2 in Hmig.
    clear Hread Hclosed. revert migrated Hmig Heq.
    induction rawSpecs as [|rawSpec rest IH]; intros migrated Hmig Heq.
    { by apply Exists_nil in Hed. }
    apply Forall_cons in Hflat as [Hf Hflat].
    apply Forall2_cons_inv_l in Hmig as (spec & others & Hs & Ho & ->).
    apply Forall2_cons in Heq as [Hse Heq].
    apply Exists_cons in Hed as [Hed|Hed]; [|by eapply IH].
    pose proof (migrateSpec_flat_defaults _ _ _ Hf Hed Hs) as Hgone.
    rewrite (isEqual_hasKey _ _ _ Hse), (truthy_field_hasKey _ _ Hed) in Hgone. done.
Qed.

Lemma migrateConfig_flat_witness :
  migrateConfig commandHost "/work/flat/api/garden.yml" = inr None ∧
  ∃ migrated,
    migrateConfig commandHost "/work/flat/garden.yml"
    = inr (Some {| path := "/work/flat/garden.yml"; specs := migrated |}).
Proof.
  split.
  - apply (migrateConfig_flat commandHost "/work/flat/api/garden.yml" [currentModule]);
      [vm_compute; reflexivity|repeat constructor|repeat constructor].
  - eexists.
    apply (migrateConfig_flat commandHost "/work/flat/garden.yml" [legacyProject]);
      [vm_compute; reflexivity|repeat constructor| |vm_compute; reflexivity].
    apply Exists_cons_hd. vm_compute. reflexivity.
Defined.

(** ** The keys of a spread array or string are numerals *)

Lemma append_assoc (a b c : string) : (a +:+ b) +:+ c = a +:+ (b +:+ c).
Proof.
  induction a as [|x a IH]; [done|].
  change (String x ((a +:+ b) +:+ c) = String x (a +:+ (b +:+ c))). by rewrite IH.
Qed.

Lemma pretty_N_go_suffix x s : ∃ p, pretty_N_go x s = p +:+ s.
Proof.
  revert s. induction (N.lt_wf_0 x) as [x _ IH]; intros s.
  assert (x = 0 ∨ 0 < x)%N as [->|Hx] by lia.
  - exists "". by rewrite pretty_N_go_0.
  - rewrite pretty_N_go_step by done.
    destruct (IH (x `div` 10)%N (N.div_lt x 10 Hx eq_refl)
                (String (pretty_N_char (x `mod` 10)) s)) as [p ->].
    exists (p +:+ String (pretty_N_char (x `mod` 10)) "").
    by rewrite append_assoc.
Qed.

Lemma pretty_nat_last (i : nat) :
  ∃ p d, pretty i = p +:+ String (pretty_N_char d) "".
Proof.
  unfold pretty, pretty_nat, pretty, pretty_N. case_decide as Hi.
  - by exists "", 0%N.
  - rewrite pretty_N_go_step by lia.
    destruct (pretty_N_go_suffix (N.of_nat i `div` 10)
                (String (pretty_N_char (N.of_nat i `mod` 10)) "")) as [p ->].
    eauto.
Qed.

Lemma append_last_inj p d t c :
  p +:+ String d "" = t +:+ String c "" → d = c.
Proof.
  revert t. induction p as [|a p IH]; intros [|b t]; cbn.
  - by intros [= ->].
  - intros [= _ Ht]. by destruct t.
  - intros [= _ Hp]. by destruct p.
  - intros [= _ Hp]. by eapply IH.
Qed.

Lemma pretty_nat_not_word (i : nat) t :
  pretty i ≠ t +:+ "s".
Proof.
  destruct (pretty_nat_last i) as (p & d & ->). intros Heq%append_last_inj.
  unfold pretty_N_char in Heq. by repeat case_match.
Qed.

Lemma indexed_lookup l k v : indexed l !! k = Some v → ∃ i : nat, k = pretty i.
Proof.
  unfold indexed. intros Hin%elem_of_list_to_map_2.
  apply elem_of_lookup_imap in Hin as (i & x & [= -> _] & _). eauto.
Qed.

Lemma ownProps_word wrapped t :
  isObject wrapped = false → ownProps wrapped !! (t +:+ "s") = None.
Proof.
  intros Hobj. apply eq_None_not_Some. intros [v Hv].
  destruct wrapped; try done; cbn in Hv;
    apply indexed_lookup in Hv as [i Hi]; symmetry in Hi;
    by apply pretty_nat_not_word in Hi.
Qed.

Lemma field_flat_not_object wrapped kind t :
  isObject wrapped = false → t +:+ "s" ≠ "kind" →
  field (t +:+ "s") (VObj (ownProps wrapped ∪ {["kind" := VStr kind]})) = VUndefined.
Proof.
  intros Hobj Hk. cbn [field]. rewrite lookup_flattened, ownProps_word by done.
  by rewrite decide_False.
Qed.

(** ** A rename shows in the comparison *)

Lemma isEqual_renamedProvider p :
  isNullish p = false → isEqual (renamedProvider p) p = true → settledProvider p = true.
Proof.
  intros Hn. unfold settledProvider, renamedProvider. rewrite Hn. cbn [negb andb].
  destruct (strictEqStr (field "name" p) "local-openfaas") eqn:Hname; [|done].
  intros Heq%(isEqual_field "name"). exfalso.
  destruct p as [| | | | | |m]; try done.
  rewrite field_setField in Heq. cbn in Hname, Heq.
  destruct (m !! "name") as [[| | | |s| |]|]; try done. cbn in *.
  apply String.eqb_eq in Hname as ->. done.
Qed.

Lemma isEqual_renamedProviders providers :
  providersOk providers = true →
  isEqual (renamedProviders providers) providers = true →
  settledProviders providers = true.
Proof.
  unfold providersOk, settledProviders.
  destruct (truthy providers); [|done]. cbn [negb orb].
  destruct providers as [| | | | |l|]; try done. cbn [providerListOk renamedProviders mapArray].
  intros Hok Heq%isEqual_VArr.
  induction l as [|p l IH]; [done|]. cbn in Hok. apply andb_prop in Hok as [Hp Hok].
  cbn in Heq. apply Forall2_cons in Heq as [Hpe Heq]. cbn.
  rewrite isEqual_renamedProvider; [by apply IH| |done]. by apply negb_true_iff.
Qed.

Lemma isEqual_renamedEnvironment env :
  environmentOk env = true →
  isEqual (renamedEnvironment env) env = true →
  settledEnvironment env = true.
Proof.
  unfold environmentOk, settledEnvironment, renamedEnvironment.
  intros [Hn Hok]%andb_prop Heq%(isEqual_field "providers"). rewrite Hn. cbn [andb].
  rewrite field_alterField_eq in Heq by done. by apply isEqual_renamedProviders.
Qed.

Lemma isEqual_renamedEnvironments environments :
  environmentsOk environments = true →
  isEqual (mapArray renamedEnvironment environments) environments = true →
  settledEnvironments environments = true.
Proof.
  destruct environments as [| | | | |l|]; try done. cbn [environmentsOk mapArray].
  intros Hok Heq%isEqual_VArr. cbn [settledEnvironments].
  induction l as [|env l IH]; [done|]. cbn in Hok. apply andb_prop in Hok as [He Hok].
  cbn in Heq. apply Forall2_cons in Heq as [Hee Heq]. cbn.
  rewrite isEqual_renamedEnvironment by done. by apply IH.
Qed.

Lemma migrateSpec_Ok_renameCompletes path rawSpec flat migrated :
  applyFlatStyle rawSpec = Ok flat →
  migrateSpec path rawSpec = Ok migrated →
  renameCompletes flat = true.
Proof.
  intros Hflat Hmig. rewrite (migrateSpec_outcome _ _ _ Hflat) in Hmig.
  by destruct (renameCompletes flat).
Qed.

(** If a spec in wrapper style is left equal to what was read, the rename
    had nothing to rename. *)
Lemma leftBehind_wrapped_equal path rawSpec migrated :
  isWrapped rawSpec = true →
  migrateSpec path rawSpec = Ok migrated →
  isEqual (leftBehind path rawSpec) rawSpec = true →
  wrappedUnrenamed rawSpec = true.
Proof.
  unfold wrappedUnrenamed, leftBehind. intros Hw Hmig. rewrite Hw, Hmig. cbn [andb].
  destruct (applyFlatStyle rawSpec) as [flat|e] eqn:Hflat;
    [|by rewrite (migrateSpec_applyFlatStyle_Throw _ _ _ Hflat) in Hmig].
  pose proof (migrateSpec_Ok_renameCompletes _ _ _ _ Hflat Hmig) as Hrc.
  unfold renameCompletes in Hrc. apply andb_prop in Hrc as [_ Hrc].
  destruct (strictEqStr (field "kind" flat) "Project") eqn:Hkind; [|done].
  cbn [negb orb] in *. apply andb_prop in Hrc as [Hce Hcp].
  assert (Hn : isNullish rawSpec = false).
  { unfold isWrapped in Hw. by destruct rawSpec. }
  unfold applyFlatStyle in Hflat. rewrite !getProp_field in Hflat by done.
  cbn [bindO] in Hflat. unfold rawAfter, isWrapped in *.
  assert (Hwrapped : ∀ w kind,
            flat = VObj (ownProps (field w rawSpec) ∪ {["kind" := VStr kind]}) →
            isEqual (alterField w (renamedInPlace flat) rawSpec) rawSpec = true →
            settledEnvironments (field "environments" flat)
            && settledProviders (field "providers" flat) = true).
  { intros w kind Hf Heq%(isEqual_field w).
    rewrite field_alterField_eq in Heq by by apply renamedInPlace_not_object.
    destruct (isObject (field w rawSpec)) eqn:Hobj; last first.
    { exfalso. rewrite Hf in Hce.
      by rewrite (field_flat_not_object _ _ "environment") in Hce. }
    assert (Hfield : ∀ k, k ≠ "kind" → field k flat = field k (field w rawSpec)).
    { intros k Hk. rewrite Hf. by apply field_ownProps_flat. }
    rewrite !Hfield in * by done.
    unfold renamedInPlace in Heq. rewrite Hkind in Heq.
    apply andb_true_intro. split.
    - apply isEqual_renamedEnvironments; [done|].
      apply (isEqual_field "environments") in Heq.
      rewrite field_alterField_ne in Heq by done.
      by rewrite field_alterField_eq in Heq.
    - apply isEqual_renamedProviders; [done|].
      apply (isEqual_field "providers") in Heq.
      rewrite field_alterField_eq in Heq by done.
      by rewrite field_alterField_ne in Heq. }
  destruct (truthy (field "project" rawSpec)).
  { injection Hflat as Hflat. by eapply Hwrapped. }
  cbn [orb] in Hw. rewrite Hw in *. injection Hflat as Hflat. by eapply Hwrapped.
Qed.

(** A file whose documents are all in wrapper style is updated exactly
    when the rename finds a provider to rename in one of them: the
    rewriters write to the new objects that [applyFlatStyle] makes, and of
    the objects that were read only the providers change.  So such a file is
    left alone where the specs that were pushed differ from what was read
    in other ways: by their flat style, by the type of a module that was
    [local-openfaas], by the hoisted environment defaults. *)
Theorem migrateConfig_wrapped (host : CommandHost) (configPath : string)
    (rawSpecs migrated : list value) :
  readYaml (files host) configPath = inr rawSpecs →
  Forall (λ rawSpec, isWrapped rawSpec = true) rawSpecs →
  migrateAll configPath rawSpecs = Ok migrated →
  migrateConfig host configPath =
    (if bool_decide (Forall (λ rawSpec, wrappedUnrenamed rawSpec = true) rawSpecs)
     then inr None
     else inr (Some {| path := configPath; specs := migrated |})).
Proof.
  intros Hread Hw Hmig. unfold migrateConfig. rewrite Hread, visitAll_outcome, Hmig.
  cbn [bindO]. unfold cloneDeep. case_bool_decide as Hun.
  - replace (leftBehind configPath <$> rawSpecs) with rawSpecs; [by rewrite isEqual_refl|].
    clear Hread Hw Hmig. induction Hun as [|rawSpec rest Hr Hun IH]; [done|]. cbn.
    rewrite leftBehind_wrappedUnrenamed by done. by rewrite <- IH.
  - destruct (isEqual _ _) eqn:Heq; [|done]. destruct Hun.
    apply isEqual_VArr in Heq. apply migrateAll_Forall2 in Hmig.
    clear Hread. revert migrated Hmig.
    induction rawSpecs as [|rawSpec rest IH]; intros migrated Hmig; [constructor|].
    apply Forall_cons in Hw as [Hr Hw]. cbn in Heq. apply Forall2_cons in Heq as [He Heq].
    apply Forall2_cons_inv_l in Hmig as (spec & others & Hs & Ho & ->).
    constructor; [by eapply leftBehind_wrapped_equal|by eapply IH].
Qed.

Lemma migrateConfig_wrapped_witness :
  migrateAll "/work/nested/fn/garden.yml" [nestedLegacyModule]
  = Ok [obj [("kind", VStr "Module"); ("name", VStr "fn"); ("type", VStr "openfaas")]] ∧
  migrateConfig commandHost "/work/nested/fn/garden.yml" = inr None.
Proof.
  split; [vm_compute; reflexivity|].
  rewrite (migrateConfig_wrapped commandHost "/work/nested/fn/garden.yml"
             [nestedLegacyModule]
             [obj [("kind", VStr "Module"); ("name", VStr "fn");
                   ("type", VStr "openfaas")]]).
  - rewrite bool_decide_eq_true_2; [reflexivity|]. repeat constructor.
  - vm_compute. reflexivity.
  - repeat constructor.
  - vm_compute. reflexivity.
Defined.

(** ** The command *)

Lemma output_written host opts configPaths updatedConfigs p out :
  Written p out ∈ (output host opts configPaths updatedConfigs).1 →
  write opts = true ∧
  ∃ c, c ∈ updatedConfigs ∧ path c = p ∧ dumpSpec host (specs c) = Some out.
Proof.
  induction updatedConfigs as [|c rest IH]; cbn [output fst].
  { by intros ?%elem_of_nil. }
  destruct (dumpSpec host (specs c)) as [dumped|] eqn:Hdump; [|by intros ?%elem_of_nil].
  destruct (write opts) eqn:Hwrite.
  - destruct (writeFile host (path c) dumped); cbn [fst].
    + rewrite !elem_of_cons. intros [[=]|[[= Hp Ho]|Hin]].
      * split; [done|]. exists c. split; [left|]. by rewrite Hp, Ho.
      * destruct (IH Hin) as (_ & c' & Hc' & Hp & Hd). split; [done|].
        exists c'. split; [by right|done].
    + rewrite elem_of_cons. intros [[=]|?%elem_of_nil]. done.
  - cbn [fst]. rewrite elem_of_app, elem_of_cons. intros [Hin|[[=]|Hin]].
    + case_bool_decide; [|by apply elem_of_nil in Hin].
      apply elem_of_cons in Hin as [[=]|?%elem_of_nil]. done.
    + by destruct (IH Hin) as [[=] _].
Qed.

Lemma output_error host opts configPaths updatedConfigs e :
  (output host opts configPaths updatedConfigs).2 = Some e →
  e = DumpFailed ∨ ∃ p, e = WriteFailed p.
Proof.
  induction updatedConfigs as [|c rest IH]; cbn [output snd]; [done|].
  destruct (dumpSpec host (specs c)) as [dumped|]; [|intros [= <-]; by left].
  destruct (write opts); [|done].
  destruct (writeFile host (path c) dumped); [done|].
  intros [= <-]. right. eauto.
Qed.

Lemma migrateConfigs_elem host configPaths updatedConfigs c :
  migrateConfigs host configPaths = inr updatedConfigs →
  c ∈ updatedConfigs →
  ∃ configPath, configPath ∈ configPaths ∧ migrateConfig host configPath = inr (Some c).
Proof.
  revert updatedConfigs. induction configPaths as [|configPath rest IH];
    intros updatedConfigs; cbn [migrateConfigs].
  { intros [= <-]. by intros ?%elem_of_nil. }
  destruct (migrateConfig host configPath) as [e|updated] eqn:Hm; [done|].
  destruct (migrateConfigs host rest) as [e|others]; [done|].
  intros [= <-]. rewrite elem_of_app. intros [Hin|Hin].
  - destruct updated as [c'|]; [|by apply elem_of_nil in Hin].
    apply elem_of_cons in Hin as [->|?%elem_of_nil]; [|done].
    exists configPath. split; [left|done].
  - destruct (IH others eq_refl Hin) as (p & Hp & Hc). exists p. split; [by right|done].
Qed.

Lemma migrateConfigs_error host configPaths e :
  migrateConfigs host configPaths = inl e →
  (∃ p failure, e = CouldNotRead p failure) ∨ ∃ err, e = SpecError err.
Proof.
  induction configPaths as [|configPath rest IH]; cbn [migrateConfigs]; [done|].
  destruct (migrateConfig host configPath) as [e'|updated] eqn:Hm.
  - intros [= <-]. unfold migrateConfig in Hm.
    destruct (readYaml (files host) configPath) as [failure|rawSpecs].
    { injection Hm as <-. left. eauto. }
    destruct (visitAll configPath rawSpecs) as [[updatedSpecs rawSpecs']|err].
    + by destruct (isEqual _ _).
    + injection Hm as <-. right. eauto.
  - destruct (migrateConfigs host rest) as [e'|others]; [|done].
    intros [= <-]. by apply IH.
Qed.

Lemma migrateConfig_Some host configPath c :
  migrateConfig host configPath = inr (Some c) →
  path c = configPath ∧
  ∃ rawSpecs,
    readYaml (files host) configPath = inr rawSpecs ∧
    migrateAll configPath rawSpecs = Ok (specs c) ∧
    isEqual (VArr (leftBehind configPath <$> rawSpecs)) (VArr rawSpecs) = false.
Proof.
  unfold migrateConfig.
  destruct (readYaml (files host) configPath) as [failure|rawSpecs] eqn:Hread; [done|].
  rewrite visitAll_outcome.
  destruct (migrateAll configPath rawSpecs) as [migrated|] eqn:Hmig; [|done].
  cbn [bindO]. unfold cloneDeep. destruct (isEqual _ _) eqn:Heq; [done|].
  intros [= <-]. split; [done|]. by exists rawSpecs.
Qed.

Lemma pathsOf_elem l p : p ∈ pathsOf l ↔ VStr p ∈ l.
Proof.
  unfold pathsOf. rewrite list_elem_of_omap. split.
  - intros (v & Hv & Hp). destruct v; try done. by injection Hp as ->.
  - intros Hin. by exists (VStr p).
Qed.

Lemma modifiedPaths_elem host root updatedConfigs modified p :
  modifiedPaths host root updatedConfigs = Some modified →
  VStr p ∈ modified →
  ∃ c stdout, c ∈ updatedConfigs ∧ path c = p ∧
              gitLsFiles host root p = Some stdout ∧ stdout ≠ "".
Proof.
  revert modified. induction updatedConfigs as [|c rest IH]; intros modified;
    cbn [modifiedPaths].
  { intros [= <-]. by intros ?%elem_of_nil. }
  destruct (gitLsFiles host root (path c)) as [stdout|] eqn:Hgit; [|done].
  destruct (modifiedPaths host root rest) as [others|]; [|done]. cbn.
  intros [= <-]. rewrite elem_of_cons. intros [Heq|Hin].
  - destruct stdout as [|a stdout]; cbn in Heq; [done|]. injection Heq as ->.
    exists c, (String a stdout). split; [left|done].
  - destruct (IH others eq_refl Hin) as (c' & stdout' & Hc' & Hp & Hg & Hs).
    exists c', stdout'. split; [by right|done].
Qed.

(** The command ends, and it gives up on every absolute directory that is
    not itself a project root, whatever its parent directories hold,
    without reading a config file or printing a line. *)
Theorem action_root (host : CommandHost) (fuel : nat) (args : Args) (opts : Opts) :
  isAbsolute (cwd (files host)) = true →
  (∃ outcome, action host (S (S fuel)) args opts = Some outcome) ∧
  (isAbsolute (root opts) = true →
   isProjectRootAt (files host) (root opts) = false →
   action host (S (S fuel)) args opts
   = Some ([], inl (NotAProjectDirectory (root opts)))).
Proof.
  intros Hcwd. unfold action. rewrite findRoot_result by done. cbn [mbind option_bind].
  split.
  - repeat case_match; eauto.
  - by intros -> ->.
Qed.

Lemma action_root_witness :
  isProjectRootAt commandFiles "/work/flat" = true ∧
  action commandHost 2 {| configPaths := None |} {| root := "/work/flat/api"; write := true |}
  = Some ([], inl (NotAProjectDirectory "/work/flat/api")).
Proof.
  split; [vm_compute; reflexivity|].
  apply (action_root commandHost 0 {| configPaths := None |}
           {| root := "/work/flat/api"; write := true |});
    [reflexivity|reflexivity|vm_compute; reflexivity].
Defined.

(** The command prints and writes all or nothing: if it ends with an error
    other than a failed dump or write, it has printed no line and written
    no file.  So an exception of a rewriter in any config file, or a dirty
    file among those to update, keeps every file as it is.  Without
    [--write] no file is ever written. *)
Theorem action_all_or_nothing (host : CommandHost) (fuel : nat) (args : Args)
    (opts : Opts) (effects : list Effect) (result : CommandError + list UpdatedConfig) :
  action host fuel args opts = Some (effects, result) →
  (∀ e, result = inl e → e ≠ DumpFailed → (∀ p, e ≠ WriteFailed p) → effects = []) ∧
  (write opts = false → ∀ p out, Written p out ∉ effects).
Proof.
  unfold action. destruct (findRoot (files host) fuel (root opts)) as [[found|]|];
    cbn [mbind option_bind]; [| |done].
  2: { intros [= <- <-]. split; [done|]. intros _ p out. apply not_elem_of_nil. }
  destruct (if bool_decide _ then _ else _) as [paths|].
  2: { intros [= <- <-]. split; [done|]. intros _ p out. apply not_elem_of_nil. }
  destruct (migrateConfigs host paths) as [e|updatedConfigs].
  { intros [= <- <-]. split; [done|]. intros _ p out. apply not_elem_of_nil. }
  destruct (if write opts then _ else _) as [dirty|].
  2: { intros [= <- <-]. split; [done|]. intros _ p out. apply not_elem_of_nil. }
  case_bool_decide.
  { intros [= <- <-]. split; [done|]. intros _ p out. apply not_elem_of_nil. }
  intros [= <- <-]. split.
  - intros e He Hd Hw.
    destruct (output host opts paths updatedConfigs) as [printed [e'|]] eqn:Ho; [|done].
    injection He as ->.
    pose proof (output_error host opts paths updatedConfigs e) as Herr.
    rewrite Ho in Herr. destruct (Herr eq_refl) as [->|[p ->]]; [done|].
    by destruct (Hw p).
  - intros Hwrite p out Hin. apply output_written in Hin as [Hw _]. congruence.
Qed.

Lemma action_all_or_nothing_witness :
  Written "/work/flat/garden.yml" "name: demo"
  ∉ [LogInfo "# Updated config at path /work/flat/garden.yml"; LogInfo "name: demo"].
Proof.
  eapply (action_all_or_nothing commandHost 2 {| configPaths := None |}
            {| root := "/work/flat"; write := false |});
    [vm_compute; reflexivity|reflexivity].
Defined.

(** What is written: every file the command writes is one of the config
    files it has read, the text is the dump of the specs that [migrateSpec]
    gives for the documents of that file, and the file is one that the
    comparison found changed. *)
Theorem action_writes_migrated (host : CommandHost) (fuel : nat) (args : Args)
    (opts : Opts) (effects : list Effect) (result : CommandError + list UpdatedConfig)
    (p out : string) :
  action host fuel args opts = Some (effects, result) →
  Written p out ∈ effects →
  write opts = true ∧
  ∃ rawSpecs migrated,
    readYaml (files host) p = inr rawSpecs ∧
    migrateAll p rawSpecs = Ok migrated ∧
    dumpSpec host migrated = Some out ∧
    isEqual (VArr (leftBehind p <$> rawSpecs)) (VArr rawSpecs) = false.
Proof.
  unfold action. destruct (findRoot (files host) fuel (root opts)) as [[found|]|];
    cbn [mbind option_bind]; [| |done].
  2: { intros [= <- <-]. by intros ?%elem_of_nil. }
  destruct (if bool_decide _ then _ else _) as [paths|].
  2: { intros [= <- <-]. by intros ?%elem_of_nil. }
  destruct (migrateConfigs host paths) as [e|updatedConfigs] eqn:Hm.
  { intros [= <- <-]. by intros ?%elem_of_nil. }
  destruct (if write opts then _ else _) as [dirty|].
  2: { intros [= <- <-]. by intros ?%elem_of_nil. }
  case_bool_decide.
  { intros [= <- <-]. by intros ?%elem_of_nil. }
  intros [= <- <-] (Hwrite & c & Hc & Hp & Hdump)%output_written.
  split; [done|].
  destruct (migrateConfigs_elem _ _ _ _ Hm Hc) as (configPath & _ & Hconfig).
  apply migrateConfig_Some in Hconfig as (Hpath & rawSpecs & Hread & Hmig & Heq).
  rewrite Hp in Hpath. subst configPath. eauto 10.
Qed.

(** The check for modified files looks only at the files the command would
    overwrite: if it ends with the error for dirty config files, [--write]
    was given, nothing was printed or written, and every path the error
    names is that of a config file that the comparison found changed and of
    which git lists something. *)
Theorem action_dirty_configs (host : CommandHost) (fuel : nat) (args : Args)
    (opts : Opts) (effects : list Effect) (dirtyConfigs : list string) :
  action host fuel args opts = Some (effects, inl (DirtyConfigs dirtyConfigs)) →
  write opts = true ∧ effects = [] ∧ dirtyConfigs ≠ [] ∧
  ∀ p, p ∈ dirtyConfigs →
    (∃ c, migrateConfig host p = inr (Some c)) ∧
    ∃ root' stdout, gitLsFiles host root' p = Some stdout ∧ stdout ≠ "".
Proof.
  unfold action. destruct (findRoot (files host) fuel (root opts)) as [[found|]|];
    cbn [mbind option_bind]; [|done|done].
  destruct (if bool_decide _ then _ else _) as [paths|]; [|done].
  destruct (migrateConfigs host paths) as [e|updatedConfigs] eqn:Hm.
  { intros [= _ ->]. by destruct (migrateConfigs_error _ _ _ Hm) as [(? & ? & [=])|[? [=]]]. }
  destruct (write opts) eqn:Hwrite.
  - destruct (findDirtyConfigs host found updatedConfigs) as [dirty|] eqn:Hdirty; [|done].
    case_bool_decide as Hlen.
    + intros [= <- <-]. split; [done|]. split; [done|]. split.
      { intros ->. cbn in Hlen. lia. }
      intros p Hp. unfold findDirtyConfigs in Hdirty.
      destruct (modifiedPaths host found updatedConfigs) as [modified|] eqn:Hmod; [|done].
      injection Hdirty as <-. apply pathsOf_elem in Hp.
      apply list_elem_of_filter in Hp as [_ Hp].
      destruct (modifiedPaths_elem _ _ _ _ _ Hmod Hp) as (c & stdout & Hc & Hpath & Hg & Hs).
      destruct (migrateConfigs_elem _ _ _ _ Hm Hc) as (configPath & _ & Hconfig).
      pose proof (migrateConfig_Some _ _ _ Hconfig) as [Hcp _].
      rewrite Hpath in Hcp. subst configPath. split; eauto.
    + destruct (output host opts paths updatedConfigs) as [printed [e|]] eqn:Ho;
        cbn [fst snd]; [|done].
      intros [= _ He]. pose proof (output_error host opts paths updatedConfigs e) as Herr.
      rewrite Ho in Herr. by destruct (Herr eq_refl) as [->|[p ->]].
  - cbn [length]. rewrite bool_decide_eq_false_2 by (cbn; lia).
    destruct (output host opts paths updatedConfigs) as [printed [e|]] eqn:Ho;
      cbn [fst snd]; [|done].
    intros [= _ He]. pose proof (output_error host opts paths updatedConfigs e) as Herr.
    rewrite Ho in Herr. by destruct (Herr eq_refl) as [->|[p ->]].
Qed.

Lemma action_dirty_configs_witness :
  write {| root := "/work/flat"; write := true |} = true ∧
  ∃ c, migrateConfig commandHost "/work/flat/garden.yml" = inr (Some c).
Proof.
  destruct (action_dirty_configs commandHost 2 {| configPaths := None |}
              {| root := "/work/flat"; write := true |} [] ["/work/flat/garden.yml"])
    as (Hw & _ & _ & Hp); [vm_compute; reflexivity|].
  split; [exact Hw|]. apply (Hp "/work/flat/garden.yml"). left.
Defined.

Lemma action_writes_migrated_witness :
  ∃ migrated,
    migrateAll "/work/clean/garden.yml" [legacyProject] = Ok migrated ∧
    dumpSpec commandHost migrated = Some "name: demo".
Proof.
  edestruct (action_writes_migrated commandHost 2 {| configPaths := None |}
               {| root := "/work/clean"; write := true |})
    with (p := "/work/clean/garden.yml") (out := "name: demo")
    as (_ & rawSpecs & migrated & Hread & Hmig & Hdump & _);
    [vm_compute; reflexivity|right; left|].
  exists migrated. split; [|exact Hdump].
  vm_compute in Hread. injection Hread as <-. exact Hmig.
Defined.

(** The command on the example machine.  In [/work/nested] both config
    files are in wrapper style: the rewrite flattens them, hoists the
    environment defaults of the project and renames the type of the module,
    and the command finds nothing to do.  In [/work/clean] the project is in
    flat style and is written back. *)
Example action_nested_project :
  (∃ project,
     migrateAll "/work/nested/garden.yml" [nestedLegacyProject] = Ok [project] ∧
     field "kind" project = VStr "Project" ∧
     field "variables" project = obj [("tier", VStr "dev")] ∧
     hasKey "environmentDefaults" project = false) ∧
  action commandHost 2 {| configPaths := None |} {| root := "/work/nested"; write := true |}
  = Some ([], inr []).
Proof.
  split; [|vm_compute; reflexivity].
  eexists. split; [vm_compute; reflexivity|]. repeat split; vm_compute; reflexivity.
Qed.

Example action_clean_project :
  ∃ updatedConfigs,
    action commandHost 2 {| configPaths := None |} {| root := "/work/clean"; write := true |}
    = Some ([LogInfo "Updating file at path /work/clean/garden.yml";
             Written "/work/clean/garden.yml" "name: demo"],
            inr updatedConfigs) ∧
    path <$> updatedConfigs = ["/work/clean/garden.yml"].
Proof. eexists. split; vm_compute; reflexivity. Qed.
